(** * LSB steganography engine (lab03): shallow embedding and verification

    The development follows the Python package [lab03/src]:
    - [bits.py]          : [BitReader], [bits_to_bytes], [extract_lsb_bits]
    - [crypto.py]        : [derive_key_stream], [xor_encrypt], [build_payload],
                           [parse_header], [decrypt_payload]
    - [models.py]        : [ImageMetadata], [EmbedReport]
    - [steganography.py] : [_validate_bits_per_channel], [_prepare_image],
                           [hide_message], [extract_message]

    Python integers are unbounded, so they are modelled by [Z]; [bytes] and
    [bytearray] values are lists of integers, a [str] is the list of its code
    points.  Exceptions are modelled by the error monad [result]. *)

From Stdlib Require Import ZArith List Lia Bool.
From stdpp Require Import base option list gmap strings.

Local Open Scope Z_scope.

(** ** Exceptions *)

Inductive exn : Type :=
  | ValueError_bit_count          (* bits_to_bytes: negative bit_count *)
  | ValueError_truncated          (* bits_to_bytes: bit iterator exhausted *)
  | ValueError_byte_range         (* bytearray.append / bytes(): not in range(256) *)
  | ValueError_no_payload         (* parse_header: magic does not match *)
  | ValueError_bits_per_channel (value : Z)
  | ValueError_no_channels
  | ValueError_capacity (payload_bits capacity : Z)
  | RuntimeError_not_embedded     (* hide_message: reader still has bits *)
  | UnicodeEncodeError
  | UnicodeDecodeError
  | OverflowError                 (* int.to_bytes *)
  | StructError                   (* struct.pack / struct.unpack *)
  | IndexError
  | FileNotFoundError
  | ValueError_unknown_extension  (* Image.save: no codec for the extension *)
  | OSError                       (* Image.save: the format cannot hold the image *)
  | Diverges.   (* not an exception: a loop of the model ran out of fuel *)

Inductive result (A : Type) : Type :=
  | Ok (a : A)
  | Raise (e : exn).
Arguments Ok {A} a.
Arguments Raise {A} e.

#[global] Instance result_ret : MRet result := fun A a => Ok a.
#[global] Instance result_bind : MBind result := fun A B f m =>
  match m with
  | Ok a => f a
  | Raise e => Raise e
  end.

#[global] Instance exn_eq_dec : EqDecision exn.
Proof. solve_decision. Defined.

(** ** Python sequences *)

(** [l[i]] for an integer index: negative indices count from the end, an index
    outside the sequence raises [IndexError]. *)
Definition getitem {A : Type} (l : list A) (i : Z) : result A :=
  let n := Z.of_nat (length l) in
  let j := if i <? 0 then i + n else i in
  if (0 <=? j) && (j <? n) then
    match l !! Z.to_nat j with
    | Some x => Ok x
    | None => Raise IndexError
    end
  else Raise IndexError.

(** [l[i] = x]. *)
Definition setitem {A : Type} (l : list A) (i : Z) (x : A) : result (list A) :=
  let n := Z.of_nat (length l) in
  let j := if i <? 0 then i + n else i in
  if (0 <=? j) && (j <? n) then Ok (<[Z.to_nat j := x]> l)
  else Raise IndexError.

(** [bytearray.append(x)]: only integers of [range(256)] are accepted. *)
Definition bytearray_append (b : list Z) (x : Z) : result (list Z) :=
  if (0 <=? x) && (x <? 256) then Ok (b ++ [x]) else Raise ValueError_byte_range.

Definition is_byte (b : Z) : Prop := 0 <= b < 256.
Definition is_bit (b : Z) : Prop := b = 0 \/ b = 1.

(** ** bits.py *)

Module Bits.

Record BitReader : Type := mkBitReader {
  _data : list Z;
  _bit_length : Z;
  _position : Z
}.

(** [BitReader.__init__] *)
Definition init (data : list Z) : BitReader :=
  {| _data := data; _bit_length := Z.of_nat (length data) * 8; _position := 0 |}.

Definition total_bits (self : BitReader) : Z := _bit_length self.

Definition remaining_bits (self : BitReader) : Z :=
  _bit_length self - _position self.

Definition has_bits (self : BitReader) : bool :=
  _position self <? _bit_length self.

Definition set_position (self : BitReader) (p : Z) : BitReader :=
  {| _data := _data self; _bit_length := _bit_length self; _position := p |}.

(** The body of [for _ in range(width)] in [BitReader.read], run [n] times. *)
Fixpoint read_loop (n : nat) (self : BitReader) (value : Z)
  : result (Z * BitReader) :=
  match n with
  | O => Ok (value, self)
  | S n' =>
      let byte_idx := _position self / 8 in
      let bit_offset := 7 - (_position self mod 8) in
      byte ← getitem (_data self) byte_idx;
      let bit := Z.land (Z.shiftr byte bit_offset) 1 in
      let value := Z.lor (Z.shiftl value 1) bit in
      read_loop n' (set_position self (_position self + 1)) value
  end.

(** [BitReader.read]: [None] when not enough bits are left. *)
Definition read (self : BitReader) (width : Z)
  : result (option Z * BitReader) :=
  if remaining_bits self <? width then Ok (None, self)
  else
    '(value, self') ← read_loop (Z.to_nat width) self 0;
    Ok (Some value, self').

(** A bit iterator: the bits it still has to yield, and how it ends once they
    are consumed: [StopIteration] ([None]) or an exception raised inside the
    generator. *)
Record bit_iter : Type := mkIter {
  pending : list Z;
  fault : option exn
}.

Definition iter_of (bits : list Z) : bit_iter :=
  {| pending := bits; fault := None |}.

Definition iter_raise (e : exn) : bit_iter :=
  {| pending := []; fault := Some e |}.

Definition iter_cons (bits : list Z) (it : bit_iter) : bit_iter :=
  {| pending := bits ++ pending it; fault := fault it |}.

(** The body of [for _ in range(bit_count)] in [bits_to_bytes], run [n]
    times.  The loop returns the iterator as it leaves it. *)
Fixpoint pack_loop (n : nat) (bit_iterator : bit_iter)
    (out : list Z) (accumulator count : Z)
  : result (list Z * Z * Z * bit_iter) :=
  match n with
  | O => Ok (out, accumulator, count, bit_iterator)
  | S n' =>
      match pending bit_iterator with
      | [] =>
          match fault bit_iterator with
          | Some e => Raise e
          | None => Raise ValueError_truncated
          end
      | bit :: rest =>
          let bit_iterator := {| pending := rest; fault := fault bit_iterator |} in
          let accumulator := Z.lor (Z.shiftl accumulator 1) (Z.land bit 1) in
          let count := count + 1 in
          if count =? 8 then
            out ← bytearray_append out accumulator;
            pack_loop n' bit_iterator out 0 0
          else pack_loop n' bit_iterator out accumulator count
      end
  end.

(** [bits_to_bytes]; [out] is the bytearray [result] of the source. *)
Definition bits_to_bytes (bit_iterator : bit_iter) (bit_count : Z)
  : result (list Z * bit_iter) :=
  if bit_count <? 0 then Raise ValueError_bit_count
  else
    '(out, accumulator, count, rest) ←
      pack_loop (Z.to_nat bit_count) bit_iterator [] 0 0;
    if count =? 0 then Ok (out, rest)
    else
      let accumulator := Z.shiftl accumulator (8 - count) in
      out ← bytearray_append out accumulator;
      Ok (out, rest).

(** The bits produced by the innermost loop of [extract_lsb_bits]:
    [for shift in range(bits_per_channel - 1, -1, -1): yield (chunk >> shift) & 1]. *)
Fixpoint chunk_bits (n : nat) (chunk : Z) : list Z :=
  match n with
  | O => []
  | S n' => Z.land (Z.shiftr chunk (Z.of_nat n')) 1 :: chunk_bits n' chunk
  end.

(** [for channel_idx in channel_indexes] for one pixel, followed by what the
    generator does next ([later]). *)
Fixpoint pixel_bits (pixel : list Z) (channel_indexes : list Z)
    (mask : Z) (bits_per_channel : Z) (later : bit_iter) : bit_iter :=
  match channel_indexes with
  | [] => later
  | channel_idx :: rest =>
      match getitem pixel channel_idx with
      | Raise e => iter_raise e
      | Ok v =>
          let chunk := Z.land v mask in
          iter_cons (chunk_bits (Z.to_nat bits_per_channel) chunk)
            (pixel_bits pixel rest mask bits_per_channel later)
      end
  end.

(** [for pixel in pixel_data]. *)
Fixpoint lsb_bits_loop (pixel_data : list (list Z)) (channel_indexes : list Z)
    (mask : Z) (bits_per_channel : Z) : bit_iter :=
  match pixel_data with
  | [] => iter_of []
  | pixel :: rest =>
      pixel_bits pixel channel_indexes mask bits_per_channel
        (lsb_bits_loop rest channel_indexes mask bits_per_channel)
  end.

(** [extract_lsb_bits].  Shift counts are never negative where the function is
    called: [bits_per_channel] has been validated before. *)
Definition extract_lsb_bits (pixel_data : list (list Z))
    (channel_indexes : list Z) (bits_per_channel : Z) : bit_iter :=
  let mask := Z.shiftl 1 bits_per_channel - 1 in
  lsb_bits_loop pixel_data channel_indexes mask bits_per_channel.

End Bits.

(** ** The UTF-8 codec ([str.encode("utf-8")], [bytes.decode("utf-8")])

    A [str] is a list of code points.  The codec is the strict one of Python 3
    (RFC 3629): surrogates cannot be encoded, and decoding rejects overlong
    forms, surrogates and code points above U+10FFFF. *)

Module UTF8.

Definition encode_char (c : Z) : result (list Z) :=
  if c <? 0 then Raise UnicodeEncodeError
  else if c <? 128 then Ok [c]
  else if c <? 2048 then Ok [192 + c / 64; 128 + c mod 64]
  else if c <? 65536 then
    if (55296 <=? c) && (c <=? 57343) then Raise UnicodeEncodeError
    else Ok [224 + c / 4096; 128 + (c / 64) mod 64; 128 + c mod 64]
  else if c <? 1114112 then
    Ok [240 + c / 262144; 128 + (c / 4096) mod 64;
        128 + (c / 64) mod 64; 128 + c mod 64]
  else Raise UnicodeEncodeError.

Fixpoint encode (s : list Z) : result (list Z) :=
  match s with
  | [] => Ok []
  | c :: rest =>
      b ← encode_char c;
      bs ← encode rest;
      Ok (b ++ bs)
  end.

(** A continuation byte, [10xxxxxx]. *)
Definition cont (b : Z) : bool := (128 <=? b) && (b <? 192).

Fixpoint decode (bs : list Z) : result (list Z) :=
  match bs with
  | [] => Ok []
  | b0 :: t0 =>
      if (0 <=? b0) && (b0 <? 128) then
        s ← decode t0; Ok (b0 :: s)
      else if (194 <=? b0) && (b0 <? 224) then
        match t0 with
        | b1 :: t1 =>
            if cont b1 then
              s ← decode t1; Ok ((b0 - 192) * 64 + (b1 - 128) :: s)
            else Raise UnicodeDecodeError
        | _ => Raise UnicodeDecodeError
        end
      else if (224 <=? b0) && (b0 <? 240) then
        match t0 with
        | b1 :: b2 :: t2 =>
            let c := (b0 - 224) * 4096 + (b1 - 128) * 64 + (b2 - 128) in
            if cont b1 && cont b2 && (2048 <=? c)
               && negb ((55296 <=? c) && (c <=? 57343)) then
              s ← decode t2; Ok (c :: s)
            else Raise UnicodeDecodeError
        | _ => Raise UnicodeDecodeError
        end
      else if (240 <=? b0) && (b0 <? 245) then
        match t0 with
        | b1 :: b2 :: b3 :: t3 =>
            let c := (b0 - 240) * 262144 + (b1 - 128) * 4096
                     + (b2 - 128) * 64 + (b3 - 128) in
            if cont b1 && cont b2 && cont b3
               && (65536 <=? c) && (c <? 1114112) then
              s ← decode t3; Ok (c :: s)
            else Raise UnicodeDecodeError
        | _ => Raise UnicodeDecodeError
        end
      else Raise UnicodeDecodeError
  end.

End UTF8.

(** ** SHA-256 ([hashlib.sha256], FIPS 180-4) on 32-bit words held in [Z] *)

Module SHA256.

Definition w32 (x : Z) : Z := x mod 4294967296.
Definition add32 (x y : Z) : Z := w32 (x + y).
Definition rotr (n x : Z) : Z :=
  Z.lor (Z.shiftr x n) (w32 (Z.shiftl x (32 - n))).
Definition not32 (x : Z) : Z := Z.lxor x 4294967295.

Definition Ch (x y z : Z) : Z := Z.lxor (Z.land x y) (Z.land (not32 x) z).
Definition Maj (x y z : Z) : Z :=
  Z.lxor (Z.land x y) (Z.lxor (Z.land x z) (Z.land y z)).
Definition Sigma0 (x : Z) : Z := Z.lxor (rotr 2 x) (Z.lxor (rotr 13 x) (rotr 22 x)).
Definition Sigma1 (x : Z) : Z := Z.lxor (rotr 6 x) (Z.lxor (rotr 11 x) (rotr 25 x)).
Definition sigma0 (x : Z) : Z := Z.lxor (rotr 7 x) (Z.lxor (rotr 18 x) (Z.shiftr x 3)).
Definition sigma1 (x : Z) : Z := Z.lxor (rotr 17 x) (Z.lxor (rotr 19 x) (Z.shiftr x 10)).

Definition K : list Z :=
  [1116352408; 1899447441; 3049323471; 3921009573; 961987163; 1508970993;
   2453635748; 2870763221; 3624381080; 310598401; 607225278; 1426881987;
   1925078388; 2162078206; 2614888103; 3248222580; 3835390401; 4022224774;
   264347078; 604807628; 770255983; 1249150122; 1555081692; 1996064986;
   2554220882; 2821834349; 2952996808; 3210313671; 3336571891; 3584528711;
   113926993; 338241895; 666307205; 773529912; 1294757372; 1396182291;
   1695183700; 1986661051; 2177026350; 2456956037; 2730485921; 2820302411;
   3259730800; 3345764771; 3516065817; 3600352804; 4094571909; 275423344;
   430227734; 506948616; 659060556; 883997877; 958139571; 1322822218;
   1537002063; 1747873779; 1955562222; 2024104815; 2227730452; 2361852424;
   2428436474; 2756734187; 3204031479; 3329325298].

Record state : Type := mkState { ha : Z; hb : Z; hc : Z; hd : Z;
                                 he : Z; hf : Z; hg : Z; hh : Z }.

Definition H0 : state :=
  mkState 1779033703 3144134277 1013904242 2773480762
          1359893119 2600822924 528734635 1541459225.

(** Big-endian bytes of a 32-bit word. *)
Definition be32 (w : Z) : list Z :=
  [(w / 16777216) mod 256; (w / 65536) mod 256; (w / 256) mod 256; w mod 256].

Definition word_of (b0 b1 b2 b3 : Z) : Z :=
  b0 * 16777216 + b1 * 65536 + b2 * 256 + b3.

(** The words of a block of bytes. *)
Fixpoint words (bs : list Z) : list Z :=
  match bs with
  | b0 :: b1 :: b2 :: b3 :: rest => word_of b0 b1 b2 b3 :: words rest
  | _ => []
  end.

(** Message schedule: extend the 16 words of a block to [16 + n] words. *)
Fixpoint schedule (n : nat) (w : list Z) : list Z :=
  match n with
  | O => w
  | S n' =>
      let t := length w in
      let x := add32 (add32 (sigma1 (nth (t - 2) w 0)) (nth (t - 7) w 0))
                     (add32 (sigma0 (nth (t - 15) w 0)) (nth (t - 16) w 0)) in
      schedule n' (w ++ [x])
  end.

Definition round (s : state) (kw : Z * Z) : state :=
  let t1 := add32 (add32 (add32 (hh s) (Sigma1 (he s))) (Ch (he s) (hf s) (hg s)))
                  (add32 (fst kw) (snd kw)) in
  let t2 := add32 (Sigma0 (ha s)) (Maj (ha s) (hb s) (hc s)) in
  mkState (add32 t1 t2) (ha s) (hb s) (hc s) (add32 (hd s) t1) (he s) (hf s) (hg s).

Definition compress (h : state) (block : list Z) : state :=
  let w := schedule 48 (words block) in
  let s := fold_left round (zip K w) h in
  mkState (add32 (ha h) (ha s)) (add32 (hb h) (hb s)) (add32 (hc h) (hc s))
          (add32 (hd h) (hd s)) (add32 (he h) (he s)) (add32 (hf h) (hf s))
          (add32 (hg h) (hg s)) (add32 (hh h) (hh s)).

Definition pad (msg : list Z) : list Z :=
  let l := Z.of_nat (length msg) in
  let bits := 8 * l in
  msg ++ [128] ++ repeat 0 (Z.to_nat ((55 - l) mod 64))
      ++ be32 (bits / 4294967296) ++ be32 (bits mod 4294967296).

Fixpoint blocks (n : nat) (h : state) (bs : list Z) : state :=
  match n with
  | O => h
  | S n' => blocks n' (compress h (take 64 bs)) (drop 64 bs)
  end.

Definition sha256 (msg : list Z) : list Z :=
  let p := pad msg in
  let h := blocks (length p / 64) H0 p in
  be32 (ha h) ++ be32 (hb h) ++ be32 (hc h) ++ be32 (hd h)
    ++ be32 (he h) ++ be32 (hf h) ++ be32 (hg h) ++ be32 (hh h).

End SHA256.

(** ** crypto.py *)

Module Crypto.

(** [b"LSBMSG1"] *)
Definition HEADER_MAGIC : list Z := [76; 83; 66; 77; 83; 71; 49].
Definition HEADER_SIZE : Z := Z.of_nat (length HEADER_MAGIC) + 4.

(** [counter.to_bytes(4, "big")] *)
Definition to_bytes4 (n : Z) : result (list Z) :=
  if (0 <=? n) && (n <? 4294967296) then Ok (SHA256.be32 n)
  else Raise OverflowError.

(** [struct.pack(">I", n)] *)
Definition pack_uint32 (n : Z) : result (list Z) :=
  if (0 <=? n) && (n <? 4294967296) then Ok (SHA256.be32 n)
  else Raise StructError.

(** [struct.unpack(">I", b)[0]] *)
Definition unpack_uint32 (b : list Z) : result Z :=
  match b with
  | [b0; b1; b2; b3] => Ok (SHA256.word_of b0 b1 b2 b3)
  | _ => Raise StructError
  end.

(** [b[:n]] *)
Definition slice_to {A : Type} (l : list A) (n : Z) : list A :=
  if n <? 0 then take (Z.to_nat (Z.of_nat (length l) + n)) l
  else take (Z.to_nat n) l.

(** [b[m:n]] for non-negative bounds. *)
Definition slice {A : Type} (l : list A) (m n : Z) : list A :=
  drop (Z.to_nat m) (take (Z.to_nat n) l).

(** [bytes(iterable)]: every item has to be in [range(256)]. *)
Fixpoint to_bytes (l : list Z) : result (list Z) :=
  match l with
  | [] => Ok []
  | x :: rest =>
      if (0 <=? x) && (x <? 256) then
        bs ← to_bytes rest; Ok (x :: bs)
      else Raise ValueError_byte_range
  end.

(** The [while len(stream) < length] loop of [derive_key_stream].  The
    recursion is on [fuel]; [Diverges] tells that the fuel ran out with the
    loop condition still true. *)
Fixpoint key_stream_loop (fuel : nat) (seed : list Z) (length : Z)
    (stream : list Z) (counter : Z) : result (list Z) :=
  if Z.of_nat (List.length stream) <? length then
    match fuel with
    | O => Raise Diverges
    | S fuel' =>
        counter_bytes ← to_bytes4 counter;
        let digest := SHA256.sha256 (seed ++ counter_bytes) in
        key_stream_loop fuel' seed length (stream ++ digest) (counter + 1)
    end
  else Ok stream.

(** [derive_key_stream]: every pass of the loop adds a digest, so [length]
    passes are more than enough. *)
Definition derive_key_stream (password : list Z) (length : Z)
  : result (list Z) :=
  seed ← UTF8.encode password;
  stream ← key_stream_loop (Z.to_nat length) seed length [] 0;
  Ok (slice_to stream length).

(** [if not password]: [None] and the empty string are falsy. *)
Definition falsy (password : option (list Z)) : bool :=
  match password with
  | None => true
  | Some [] => true
  | Some (_ :: _) => false
  end.

Definition xor_encrypt (data : list Z) (password : option (list Z))
  : result (list Z) :=
  match password with
  | None => Ok data
  | Some [] => Ok data
  | Some pw =>
      key_stream ← derive_key_stream pw (Z.of_nat (length data));
      to_bytes (zip_with Z.lxor data key_stream)
  end.

Definition build_payload (message : list Z) (password : option (list Z))
  : result (list Z) :=
  body ← UTF8.encode message;
  encrypted ← xor_encrypt body password;
  length_bytes ← pack_uint32 (Z.of_nat (length encrypted));
  Ok (HEADER_MAGIC ++ length_bytes ++ encrypted).

Definition parse_header (header_bytes : list Z) : result Z :=
  let magic := slice_to header_bytes (Z.of_nat (length HEADER_MAGIC)) in
  if decide (magic <> HEADER_MAGIC) then Raise ValueError_no_payload
  else unpack_uint32 (slice header_bytes (Z.of_nat (length HEADER_MAGIC)) HEADER_SIZE).

Definition decrypt_payload (payload : list Z) (password : option (list Z))
  : result (list Z) :=
  decrypted ← xor_encrypt payload password;
  UTF8.decode decrypted.

End Crypto.

(** ** models.py *)

Module Models.

Record EmbedReport : Type := mkEmbedReport {
  payload_bits : Z;
  capacity_bits_ : Z;          (* the field [capacity_bits] *)
  total_pixels_ : Z;           (* the field [total_pixels] *)
  channels_used : Z;
  bits_per_channel : Z;
  pixels_touched : Z;
  file_size_before : Z;
  file_size_after : Z
}.

Definition payload_bytes (r : EmbedReport) : Z := payload_bits r / 8.
Definition file_size_diff (r : EmbedReport) : Z :=
  file_size_after r - file_size_before r.

Record ImageMetadata : Type := mkImageMetadata {
  width : Z;
  height : Z;
  mode : string;
  embed_indexes : list Z
}.

Definition total_pixels (self : ImageMetadata) : Z := width self * height self.

Definition channels_count (self : ImageMetadata) : Z :=
  Z.of_nat (length (embed_indexes self)).

Definition capacity_bits (self : ImageMetadata) (bits_per_channel : Z) : Z :=
  total_pixels self * channels_count self * bits_per_channel.

End Models.

(** ** The image collaborator (PIL) and the file system

    Only what [steganography.py] uses of an image is modelled: its mode, its
    size and its pixel data in storage order (row-major), one list of channel
    values per pixel.  The model covers the two working modes of the engine,
    RGB and RGBA.  A file is what [Image.open] and [stat] find of it: the
    image it decodes to and its size in bytes.  The files are kept by path,
    and a path stands for the file it names: two spellings of the name of one
    file are not modelled. *)

Module PIL.

Inductive Mode : Type := RGB | RGBA.

#[global] Instance Mode_eq_dec : EqDecision Mode.
Proof. solve_decision. Defined.

Definition mode_name (m : Mode) : string :=
  match m with RGB => "RGB" | RGBA => "RGBA" end.

Record Image : Type := mkImage {
  im_mode : Mode;
  im_width : Z;
  im_height : Z;
  im_data : list (list Z)
}.

Definition getbands_of (m : Mode) : list string :=
  match m with
  | RGB => ["R"; "G"; "B"]
  | RGBA => ["R"; "G"; "B"; "A"]
  end.

Definition getbands (image : Image) : list string := getbands_of (im_mode image).

(** [Image.convert]: an image that is in the requested mode already is
    copied; RGB gets an opaque alpha channel, RGBA loses its alpha channel. *)
Definition convert (image : Image) (m : Mode) : Image :=
  match im_mode image, m with
  | RGB, RGB | RGBA, RGBA => image
  | RGB, RGBA =>
      mkImage RGBA (im_width image) (im_height image)
              ((fun p => p ++ [255]) <$> im_data image)
  | RGBA, RGB =>
      mkImage RGB (im_width image) (im_height image) (take 3 <$> im_data image)
  end.

(** What the codec guarantees of an image it has decoded. *)
Definition well_formed (image : Image) : Prop :=
  0 <= im_width image /\ 0 <= im_height image /\
  Z.of_nat (length (im_data image)) = im_width image * im_height image /\
  Forall (fun p => length p = length (getbands image)) (im_data image).

Record File : Type := mkFile {
  content : Image;
  st_size : Z
}.

(** Input and output: a computation may read and change the files, and
    returns a value or raises. *)
Record io (A : Type) : Type := IO {
  run : gmap string File -> result A * gmap string File
}.
Arguments IO {A} _.
Arguments run {A} _ _.

#[global] Instance io_ret : MRet io := fun A a => IO (fun fs => (Ok a, fs)).
#[global] Instance io_bind : MBind io := fun A B f m =>
  IO (fun fs =>
        match run m fs with
        | (Ok a, fs') => run (f a) fs'
        | (Raise e, fs') => (Raise e, fs')
        end).

Definition lift {A : Type} (r : result A) : io A := IO (fun fs => (r, fs)).
Definition raise {A : Type} (e : exn) : io A := lift (Raise e).

(** [Image.open(path)] *)
Definition open (path : string) : io Image :=
  IO (fun fs =>
        match fs !! path with
        | Some f => (Ok (content f), fs)
        | None => (Raise FileNotFoundError, fs)
        end).

(** [path.stat().st_size] *)
Definition stat_size (path : string) : io Z :=
  IO (fun fs =>
        match fs !! path with
        | Some f => (Ok (st_size f), fs)
        | None => (Raise FileNotFoundError, fs)
        end).

(** What [image.save(path)] writes is the business of Pillow, which picks a
    codec by the extension of the path, and not of this program.  A [Codec]
    says what the call does: [encode path image] is the file that it leaves
    at [path], as [Image.open] and [stat] will find it (for a lossy format
    the image in it is not [image]), or the exception that it raises (there
    is no codec for the extension, the format cannot hold the mode of the
    image); [on_error path fs] is what a call that raises leaves of the
    files [fs]. *)
Record Codec : Type := mkCodec {
  encode : string -> Image -> result File;
  on_error : string -> gmap string File -> gmap string File
}.

(** [image.save(path)] *)
Definition save (codec : Codec) (image : Image) (path : string) : io unit :=
  IO (fun fs =>
        match encode codec path image with
        | Ok file => (Ok tt, <[path := file]> fs)
        | Raise e => (Raise e, on_error codec path fs)
        end).

End PIL.

(** ** steganography.py *)

Module Stego.

Import Bits Crypto Models PIL.

Definition DEFAULT_BITS_PER_CHANNEL : Z := 1.
Definition MIN_BITS_PER_CHANNEL : Z := 1.
Definition MAX_BITS_PER_CHANNEL : Z := 2.
Definition ALPHA_BANDS : list string := ["A"].

Definition _validate_bits_per_channel (value : Z) : result Z :=
  if negb ((MIN_BITS_PER_CHANNEL <=? value) && (value <=? MAX_BITS_PER_CHANNEL))
  then Raise (ValueError_bits_per_channel value)
  else Ok value.

(** [enumerate(l)] *)
Definition enumerate {A : Type} (l : list A) : list (Z * A) :=
  imap (fun i x => (Z.of_nat i, x)) l.

Definition _prepare_image (image : Image) : Image * ImageMetadata :=
  let mode := if decide ("A" ∈ getbands image) then RGBA else RGB in
  let converted := convert image mode in
  let embed_indexes :=
    fst <$> filter (fun p => snd p ∉ ALPHA_BANDS) (enumerate (getbands converted)) in
  let metadata :=
    {| width := im_width converted;
       height := im_height converted;
       Models.mode := mode_name mode;
       embed_indexes := embed_indexes |} in
  (converted, metadata).

(** [for channel_idx in metadata.embed_indexes] of [hide_message], for one
    pixel; a [break] ends the loop. *)
Fixpoint embed_channels (embed_indexes : list Z) (bit_reader : BitReader)
    (pixel_list : list Z) (pixel_changed : bool) (mask bits_per_channel : Z)
  : result (BitReader * list Z * bool) :=
  match embed_indexes with
  | [] => Ok (bit_reader, pixel_list, pixel_changed)
  | channel_idx :: rest =>
      '(chunk, bit_reader) ← read bit_reader bits_per_channel;
      match chunk with
      | None => Ok (bit_reader, pixel_list, pixel_changed)
      | Some chunk =>
          old ← getitem pixel_list channel_idx;
          let new_value := Z.lor (Z.land old (Z.lnot mask)) chunk in
          let pixel_changed :=
            if decide (new_value <> old) then true else pixel_changed in
          pixel_list ← setitem pixel_list channel_idx new_value;
          embed_channels rest bit_reader pixel_list pixel_changed
                         mask bits_per_channel
      end
  end.

(** [for idx, pixel in enumerate(pixels)] of [hide_message]: the pixels from
    the current one on, the reader and the counter go in; the pixels as the
    loop leaves them, the reader and the counter come out. *)
Fixpoint embed_pixels (pixels : list (list Z)) (embed_indexes : list Z)
    (bit_reader : BitReader) (pixels_touched : Z) (mask bits_per_channel : Z)
  : result (BitReader * list (list Z) * Z) :=
  match pixels with
  | [] => Ok (bit_reader, [], pixels_touched)
  | pixel :: rest =>
      if negb (has_bits bit_reader) then Ok (bit_reader, pixels, pixels_touched)
      else
        '(bit_reader, pixel_list, pixel_changed) ←
          embed_channels embed_indexes bit_reader pixel false
                         mask bits_per_channel;
        let pixel := if (pixel_changed : bool) then pixel_list else pixel in
        let pixels_touched :=
          if (pixel_changed : bool) then pixels_touched + 1 else pixels_touched in
        '(bit_reader, rest, pixels_touched) ←
          embed_pixels rest embed_indexes bit_reader pixels_touched
                       mask bits_per_channel;
        Ok (bit_reader, pixel :: rest, pixels_touched)
  end.

Section Engine.

(** The codecs of the Pillow installation that the program runs with. *)
Variable codec : Codec.

(** [hide_message], without a progress callback. *)
Definition hide_message (input_image output_image : string)
    (message : list Z) (password : option (list Z)) (bits_per_channel : Z)
  : io EmbedReport :=
  bits_per_channel ← lift (_validate_bits_per_channel bits_per_channel);
  payload ← lift (build_payload message password);
  let bit_reader := Bits.init payload in
  let payload_bits := total_bits bit_reader in
  original ← PIL.open input_image;
  let '(working, metadata) := _prepare_image original in
  if decide (embed_indexes metadata = []) then raise ValueError_no_channels
  else
    let capacity := capacity_bits metadata bits_per_channel in
    if payload_bits >? capacity
    then raise (ValueError_capacity payload_bits capacity)
    else
      let pixels := im_data working in
      let mask := Z.shiftl 1 bits_per_channel - 1 in
      '(bit_reader, pixels, pixels_touched) ←
        lift (embed_pixels pixels (embed_indexes metadata) bit_reader 0
                           mask bits_per_channel);
      if has_bits bit_reader then raise RuntimeError_not_embedded
      else
        let encoded :=
          mkImage (im_mode working) (im_width working) (im_height working)
                  pixels in
        _ ← save codec encoded output_image;
        size_before ← stat_size input_image;
        size_after ← stat_size output_image;
        mret {| payload_bits := payload_bits;
                capacity_bits_ := capacity;
                total_pixels_ := total_pixels metadata;
                channels_used := channels_count metadata;
                Models.bits_per_channel := bits_per_channel;
                pixels_touched := pixels_touched;
                file_size_before := size_before;
                file_size_after := size_after |}.

Definition extract_message (encoded_image : string)
    (password : option (list Z)) (bits_per_channel : Z) : io (list Z) :=
  bits_per_channel ← lift (_validate_bits_per_channel bits_per_channel);
  encoded ← PIL.open encoded_image;
  let '(working, metadata) := _prepare_image encoded in
  if decide (embed_indexes metadata = []) then raise ValueError_no_channels
  else
    let bit_stream :=
      extract_lsb_bits (im_data working) (embed_indexes metadata)
                       bits_per_channel in
    let header_bits := HEADER_SIZE * 8 in
    '(header_bytes, bit_stream) ← lift (bits_to_bytes bit_stream header_bits);
    payload_length ← lift (parse_header header_bytes);
    let payload_bits := payload_length * 8 in
    '(payload_bytes, bit_stream) ← lift (bits_to_bytes bit_stream payload_bits);
    lift (decrypt_payload payload_bytes password).

End Engine.

End Stego.

(** ** A small concrete setting, used in the examples below *)

Module Demo.

Import PIL.

(** An 8 x 4 RGBA image: 32 pixels, 96 embeddable bits at one bit per
    channel. *)
Definition image : Image :=
  mkImage RGBA 8 4 (repeat [255; 128; 7; 200] 32).

Definition files : gmap string File := {["in.png" := mkFile image 9000]}.

Definition png_size (img : Image) : Z :=
  64 + 4 * Z.of_nat (length (im_data img)).

Definition has_extension (ext path : string) : bool :=
  let n := String.length path in
  let k := String.length ext in
  (k <=? n)%nat && String.eqb (String.substring (n - k) k path) ext.

(** A codec that knows one format: a path that ends in [.png] gets the
    image as it is, in a file of [png_size] bytes; for any other path there
    is no codec, and the files are left as they were. *)
Definition codec : Codec :=
  {| encode path image :=
       if has_extension ".png" path then Ok (mkFile image (png_size image))
       else Raise ValueError_unknown_extension;
     on_error path fs := fs |}.

End Demo.

(** ** [DiffReport] (models.py) and [analyze_images] (steganography.py)

    [analyze_images] reads two files and writes none, so it is a function of
    the files.  Python's floating-point numbers are kept abstract: [float] is
    their type, [truediv a b] the quotient [a / b] of two integers and
    [fzero] the constant [0.0]. *)

Module Analysis.

Import PIL.

Section Floats.

Variable float : Type.
Variable truediv : Z -> Z -> float.
Variable fzero : float.

Record DiffReport : Type := mkDiffReport {
  total_channels : Z;
  changed_channels : Z;
  avg_abs_diff : float;
  max_abs_diff : Z;
  file_size_before : Z;
  file_size_after : Z
}.

Definition change_ratio (r : DiffReport) : float :=
  if total_channels r =? 0 then fzero
  else truediv (changed_channels r) (total_channels r).

Definition file_size_diff (r : DiffReport) : Z :=
  file_size_after r - file_size_before r.

(** How a call of [analyze_images] ends. *)
Inductive outcome : Type :=
  | Returns (report : DiffReport)
  | ValueError_size_mismatch   (* the two images differ in size *)
  | Raises (e : exn).

(** The body of [for orig_val, mod_val in zip(orig_pixel, mod_pixel)]; the
    state is [(changed_channels, total_diff, max_diff)]. *)
Definition diff_step (acc : Z * Z * Z) (vals : Z * Z) : Z * Z * Z :=
  let '(changed_channels, total_diff, max_diff) := acc in
  let diff := Z.abs (fst vals - snd vals) in
  if diff =? 0 then acc
  else (changed_channels + 1, total_diff + diff, Z.max max_diff diff).

(** The body of [for orig_pixel, mod_pixel in zip(...)]. *)
Definition diff_pixel (acc : Z * Z * Z) (pixels : list Z * list Z) : Z * Z * Z :=
  fold_left diff_step (zip (fst pixels) (snd pixels)) acc.

Definition diff_pixels (original modified : list (list Z)) : Z * Z * Z :=
  fold_left diff_pixel (zip original modified) (0, 0, 0).

Definition analyze_images (original_path modified_path : string)
    (fs : gmap string File) : outcome :=
  match fs !! original_path with
  | None => Raises FileNotFoundError
  | Some original_file =>
      match fs !! modified_path with
      | None => Raises FileNotFoundError
      | Some modified_file =>
          let original := content original_file in
          let modified := content modified_file in
          if decide ((im_width original, im_height original)
                     <> (im_width modified, im_height modified))
          then ValueError_size_mismatch
          else
            let original_rgb := convert original RGB in
            let modified_rgb := convert modified RGB in
            let '(changed_channels, total_diff, max_diff) :=
              diff_pixels (im_data original_rgb) (im_data modified_rgb) in
            let total_channels :=
              im_width original_rgb * im_height original_rgb
              * Z.of_nat (length (getbands original_rgb)) in
            let avg_diff :=
              if changed_channels =? 0 then fzero
              else truediv total_diff changed_channels in
            Returns {| total_channels := total_channels;
                       changed_channels := changed_channels;
                       avg_abs_diff := avg_diff;
                       max_abs_diff := max_diff;
                       file_size_before := st_size original_file;
                       file_size_after := st_size modified_file |}
      end
  end.

End Floats.

Arguments Returns {float} report.
Arguments ValueError_size_mismatch {float}.
Arguments Raises {float} e.
Arguments total_channels {float} _.
Arguments changed_channels {float} _.
Arguments avg_abs_diff {float} _.
Arguments max_abs_diff {float} _.
Arguments file_size_before {float} _.
Arguments file_size_after {float} _.
Arguments file_size_diff {float} _.

End Analysis.


(** * Specifications and proofs *)

(** ** Bits of bytes, most significant bit first *)

Module BitSpec.

Definition bits_of_byte (b : Z) : list Z :=
  (fun i => Z.b2z (Z.testbit b i)) <$> [7; 6; 5; 4; 3; 2; 1; 0].

Definition bits_of_bytes (data : list Z) : list Z :=
  concat (bits_of_byte <$> data).

(** The unsigned integer that a sequence of bits represents, the first bit
    being the most significant one. *)
Definition bits_value_from (v : Z) (bs : list Z) : Z :=
  fold_left (fun acc b => 2 * acc + b) bs v.

Definition bits_value (bs : list Z) : Z := bits_value_from 0 bs.

Lemma land_shiftr_1 b i : 0 <= i -> Z.land (Z.shiftr b i) 1 = Z.b2z (Z.testbit b i).
Proof.
  intros Hi. change 1 with (Z.ones 1). rewrite Z.land_ones by lia.
  change (2 ^ 1) with 2. rewrite <- Z.bit0_mod, Z.shiftr_spec by lia.
  f_equal.
Qed.

Lemma land_1_bit b : is_bit (Z.land b 1).
Proof.
  change 1 with (Z.ones 1). rewrite Z.land_ones by lia. change (2 ^ 1) with 2.
  unfold is_bit. pose proof (Z.mod_pos_bound b 2). lia.
Qed.

Lemma b2z_bit x : is_bit (Z.b2z x).
Proof. destruct x; [right | left]; reflexivity. Qed.

Lemma land_1_of_bit b : is_bit b -> Z.land b 1 = b.
Proof. intros [-> | ->]; reflexivity. Qed.

Lemma lor_shiftl_bit v b : is_bit b -> Z.lor (Z.shiftl v 1) b = 2 * v + b.
Proof.
  intros Hb. rewrite Z.shiftl_mul_pow2 by lia. change (2 ^ 1) with 2.
  destruct Hb as [-> | ->].
  - rewrite Z.lor_0_r. lia.
  - assert (H0 : Z.land (v * 2) 1 = 0).
    { change 1 with (Z.ones 1). rewrite Z.land_ones by lia.
      change (2 ^ 1) with 2. apply Z.mod_mul. lia. }
    rewrite <- Z.lxor_lor by exact H0.
    rewrite <- Z.add_nocarry_lxor by exact H0. lia.
Qed.

Lemma length_bits_of_byte b : length (bits_of_byte b) = 8%nat.
Proof. reflexivity. Qed.

Lemma bits_of_bytes_cons b data :
  bits_of_bytes (b :: data) = bits_of_byte b ++ bits_of_bytes data.
Proof. reflexivity. Qed.

Lemma length_bits_of_bytes data :
  length (bits_of_bytes data) = (8 * length data)%nat.
Proof.
  induction data as [|b data IH]; [reflexivity|].
  rewrite bits_of_bytes_cons, length_app, length_bits_of_byte, IH.
  cbn [length]. lia.
Qed.

Lemma bits_of_bytes_app d1 d2 :
  bits_of_bytes (d1 ++ d2) = bits_of_bytes d1 ++ bits_of_bytes d2.
Proof.
  unfold bits_of_bytes. rewrite fmap_app, concat_app. reflexivity.
Qed.

Lemma Forall_bit_bits_of_bytes data : Forall is_bit (bits_of_bytes data).
Proof.
  induction data as [|b data IH]; [constructor|].
  rewrite bits_of_bytes_cons. apply Forall_app. split; [|exact IH].
  unfold bits_of_byte. cbn. repeat (constructor; [apply b2z_bit|]). constructor.
Qed.

(** The bit at offset [k] of a buffer is bit [7 - k mod 8] of byte [k / 8]. *)
Lemma bits_of_bytes_lookup data k byte :
  0 <= k -> data !! Z.to_nat (k / 8) = Some byte ->
  bits_of_bytes data !! Z.to_nat k
  = Some (Z.land (Z.shiftr byte (7 - k mod 8)) 1).
Proof.
  revert k. induction data as [|b data IH]; intros k Hk Hl; [discriminate|].
  rewrite bits_of_bytes_cons.
  destruct (Z_lt_le_dec k 8) as [Hlt | Hge].
  - assert (Hq : k / 8 = 0) by (apply Z.div_small; lia).
    rewrite Hq in Hl. cbn in Hl. injection Hl as ->.
    rewrite Z.mod_small by lia.
    rewrite land_shiftr_1 by lia.
    rewrite lookup_app_l by (rewrite length_bits_of_byte; lia).
    assert (Hc : k = 0 \/ k = 1 \/ k = 2 \/ k = 3 \/ k = 4 \/ k = 5 \/ k = 6 \/ k = 7)
      by lia.
    destruct Hc as [-> | [-> | [-> | [-> | [-> | [-> | [-> | ->]]]]]]]; reflexivity.
  - assert (Hq : k / 8 = (k - 8) / 8 + 1).
    { replace k with ((k - 8) + 1 * 8) at 1 by lia. rewrite Z.div_add by lia. lia. }
    assert (Hm : k mod 8 = (k - 8) mod 8).
    { replace k with ((k - 8) + 1 * 8) at 1 by lia. rewrite Z.mod_add by lia. lia. }
    rewrite lookup_app_r by (rewrite length_bits_of_byte; lia).
    rewrite length_bits_of_byte.
    replace (Z.to_nat k - 8)%nat with (Z.to_nat (k - 8)) by lia.
    rewrite Hm. apply IH; [lia|].
    rewrite Hq in Hl.
    assert (0 <= (k - 8) / 8) by (apply Z.div_pos; lia).
    replace (Z.to_nat ((k - 8) / 8 + 1)) with (S (Z.to_nat ((k - 8) / 8))) in Hl by lia.
    exact Hl.
Qed.

Lemma bits_value_from_app v b1 b2 :
  bits_value_from v (b1 ++ b2) = bits_value_from (bits_value_from v b1) b2.
Proof. unfold bits_value_from. apply fold_left_app. Qed.

Lemma bits_value_from_bounds bs : forall v,
  Forall is_bit bs -> 0 <= v ->
  v * 2 ^ Z.of_nat (length bs) <= bits_value_from v bs
    < (v + 1) * 2 ^ Z.of_nat (length bs).
Proof.
  induction bs as [|b bs IH]; intros v Hb Hv.
  - cbn. lia.
  - inversion Hb as [|? ? Hb0 Hbs]; subst.
    cbn [bits_value_from fold_left length].
    fold (bits_value_from (2 * v + b) bs).
    specialize (IH (2 * v + b) Hbs).
    rewrite Nat2Z.inj_succ, Z.pow_succ_r by lia.
    destruct Hb0 as [-> | ->]; nia.
Qed.

Lemma bits_value_bounds bs :
  Forall is_bit bs -> 0 <= bits_value bs < 2 ^ Z.of_nat (length bs).
Proof.
  intros H. pose proof (bits_value_from_bounds bs 0 H). unfold bits_value. lia.
Qed.


Lemma getitem_lookup {A : Type} (l : list A) (i : Z) (x : A) :
  0 <= i -> l !! Z.to_nat i = Some x -> getitem l i = Ok x.
Proof.
  intros Hi Hl. pose proof (lookup_lt_Some _ _ _ Hl) as Hlt.
  unfold getitem.
  destruct (Z.ltb_spec i 0) as [|_]; [lia|].
  destruct (Z.leb_spec 0 i); [|lia].
  destruct (Z.ltb_spec i (Z.of_nat (length l))); [|lia].
  cbn. rewrite Hl. reflexivity.
Qed.

Import Bits.

(** [n] passes of the loop of [BitReader.read] append the next [n] bits of
    the buffer to the value, and move the cursor by [n]. *)
Lemma read_loop_spec n : forall self v,
  0 <= _position self ->
  _position self + Z.of_nat n <= Z.of_nat (length (_data self)) * 8 ->
  read_loop n self v
  = Ok (bits_value_from v
          (take n (drop (Z.to_nat (_position self)) (bits_of_bytes (_data self)))),
        set_position self (_position self + Z.of_nat n)).
Proof.
  induction n as [|n IH]; intros self v Hpos Hlen.
  - cbn. rewrite Z.add_0_r. destruct self; reflexivity.
  - set (pos := _position self) in *.
    assert (Hq : 0 <= pos / 8 < Z.of_nat (length (_data self))).
    { split; [apply Z.div_pos; lia | apply Z.div_lt_upper_bound; lia]. }
    destruct (lookup_lt_is_Some_2 (_data self) (Z.to_nat (pos / 8))) as [byte Hb];
      [lia|].
    pose proof (bits_of_bytes_lookup _ _ _ Hpos Hb) as Hbit.
    cbn [read_loop]. fold pos.
    rewrite (getitem_lookup _ _ _ (proj1 Hq) Hb). cbn [mbind result_bind].
    rewrite IH; cbn [set_position _position _data _bit_length]; [|lia|lia].
    rewrite (drop_S _ _ _ Hbit). cbn [take bits_value_from fold_left].
    rewrite lor_shiftl_bit by apply land_1_bit.
    replace (Z.to_nat (pos + 1)) with (S (Z.to_nat pos)) by lia.
    do 2 f_equal. unfold set_position; cbn. f_equal. lia.
Qed.


Lemma read_insufficient self width :
  remaining_bits self < width -> read self width = Ok (None, self).
Proof.
  intros H. unfold read. destruct (Z.ltb_spec (remaining_bits self) width); [reflexivity | lia].
Qed.

Lemma read_sufficient self width :
  0 <= _position self -> 0 <= width ->
  _bit_length self = Z.of_nat (length (_data self)) * 8 ->
  width <= remaining_bits self ->
  read self width
  = Ok (Some (bits_value
                (take (Z.to_nat width)
                   (drop (Z.to_nat (_position self)) (bits_of_bytes (_data self))))),
        set_position self (_position self + width)).
Proof.
  intros Hpos Hw Hlen Hrem. unfold read, remaining_bits in *.
  destruct (Z.ltb_spec (_bit_length self - _position self) width); [lia|].
  rewrite read_loop_spec by lia. cbn. rewrite Z2Nat.id by lia. reflexivity.
Qed.

(** C4. [BitReader.read]: for a buffer [data], a cursor [pos >= 0] and a
    width between 1 and 32, [read] does not raise; with fewer than [width]
    unread bits it returns [None] and leaves the reader as it is; otherwise
    it returns the unsigned integer that the next [width] bits represent,
    most significant bit first, and moves the cursor forward by exactly
    [width].  In both cases the cursor does not move backwards and the buffer
    is not changed. *)
Theorem read_contract (data : list Z) (pos width : Z) :
  0 <= pos -> 1 <= width <= 32 ->
  let self := mkBitReader data (Z.of_nat (length data) * 8) pos in
  let next := take (Z.to_nat width) (drop (Z.to_nat pos) (bits_of_bytes data)) in
  (remaining_bits self < width -> read self width = Ok (None, self)) /\
  (width <= remaining_bits self ->
     read self width
     = Ok (Some (bits_value next), mkBitReader data (Z.of_nat (length data) * 8) (pos + width))
     /\ length next = Z.to_nat width
     /\ 0 <= bits_value next < 2 ^ width) /\
  (exists out self',
     read self width = Ok (out, self') /\
     pos <= _position self' /\ _data self' = data /\
     _bit_length self' = _bit_length self).
Proof.
  intros Hpos Hw self next.
  assert (Hsuff : width <= remaining_bits self ->
     read self width
     = Ok (Some (bits_value next), mkBitReader data (Z.of_nat (length data) * 8) (pos + width))
     /\ length next = Z.to_nat width
     /\ 0 <= bits_value next < 2 ^ width).
  { intros Hrem. split; [|split].
    - rewrite read_sufficient; [reflexivity|cbn; lia..|exact Hrem].
    - unfold next. unfold remaining_bits in Hrem. cbn in Hrem.
      rewrite length_take, length_drop, length_bits_of_bytes. lia.
    - assert (Hl : length next = Z.to_nat width).
      { unfold next. unfold remaining_bits in Hrem. cbn in Hrem.
        rewrite length_take, length_drop, length_bits_of_bytes. lia. }
      pose proof (bits_value_bounds next) as Hb. rewrite Hl, Z2Nat.id in Hb by lia.
      apply Hb. unfold next. apply Forall_take, Forall_drop, Forall_bit_bits_of_bytes. }
  split; [apply read_insufficient|]. split; [exact Hsuff|].
  destruct (Z_lt_le_dec (remaining_bits self) width) as [Hlt | Hge].
  - exists None, self. rewrite read_insufficient by exact Hlt. cbn. repeat split; lia.
  - destruct (Hsuff Hge) as [-> _]. eexists _, _. split; [reflexivity|]. cbn.
    repeat split; lia.
Qed.

(** A reader at bit 3 of the buffer [165; 15] (bits 10100101 00001111) reads
    the five bits 00101; a read of 32 bits is refused. *)
Lemma read_contract_witness :
  (0 <= 3 /\ 1 <= 5 <= 32) /\
  read (mkBitReader [165; 15] 16 3) 5 = Ok (Some 5, mkBitReader [165; 15] 16 8) /\
  read (mkBitReader [165; 15] 16 3) 32 = Ok (None, mkBitReader [165; 15] 16 3).
Proof.
  split; [lia|]. split.
  - destruct (read_contract [165; 15] 3 5) as (_ & H & _); [lia | lia |].
    destruct H as [H _]; [vm_compute; discriminate|]. exact H.
  - destruct (read_contract [165; 15] 3 32) as (H & _); [lia | lia |].
    apply H. vm_compute. reflexivity.
Defined.


(** *** [bits_to_bytes] *)

Ltac enum_bits h :=
  repeat (destruct h as [|? h]; try discriminate);
  repeat match goal with
         | H : Forall is_bit (_ :: _) |- _ =>
             apply Forall_cons_1 in H; destruct H as [[-> | ->] H]
         end.

Lemma bits_value_snoc g b : bits_value (g ++ [b]) = 2 * bits_value g + b.
Proof. unfold bits_value. rewrite bits_value_from_app. reflexivity. Qed.

(** Eight bits make a byte, and the byte has these bits. *)
Lemma byte_of_bits8 h :
  Forall is_bit h -> length h = 8%nat ->
  is_byte (bits_value h) /\ bits_of_byte (bits_value h) = h.
Proof.
  intros Hb Hl. enum_bits h; (split; [vm_compute; split; [discriminate | reflexivity] | reflexivity]).
Qed.

(** Fewer than eight bits, shifted to the high end of a byte. *)
Lemma byte_of_bits_padded h :
  Forall is_bit h -> (0 < length h < 8)%nat ->
  is_byte (Z.shiftl (bits_value h) (8 - Z.of_nat (length h))) /\
  bits_of_byte (Z.shiftl (bits_value h) (8 - Z.of_nat (length h)))
  = h ++ repeat 0 (8 - length h).
Proof.
  intros Hb Hl.
  assert (Hc : (length h = 1 \/ length h = 2 \/ length h = 3 \/ length h = 4 \/
                length h = 5 \/ length h = 6 \/ length h = 7)%nat) by lia.
  clear Hl.
  destruct Hc as [Hl | [Hl | [Hl | [Hl | [Hl | [Hl | Hl]]]]]];
    enum_bits h; (split; [vm_compute; split; [discriminate | reflexivity] | reflexivity]).
Qed.

Lemma bytearray_append_byte out x :
  is_byte x -> bytearray_append out x = Ok (out ++ [x]).
Proof.
  intros [H0 H1]. unfold bytearray_append.
  destruct (Z.leb_spec 0 x); [|lia]. destruct (Z.ltb_spec x 256); [|lia]. reflexivity.
Qed.

(** The invariant of the loop of [bits_to_bytes]: [g] are the bits of the
    group that is being accumulated. *)
Lemma pack_loop_spec n : forall it out g,
  Forall is_bit g -> (length g < 8)%nat -> Forall is_byte out ->
  (n <= length (pending it))%nat ->
  exists out' g',
    pack_loop n it out (bits_value g) (Z.of_nat (length g))
    = Ok (out', bits_value g', Z.of_nat (length g'),
          mkIter (drop n (pending it)) (fault it)) /\
    Forall is_bit g' /\ (length g' < 8)%nat /\ Forall is_byte out' /\
    bits_of_bytes out' ++ g'
    = bits_of_bytes out ++ g ++ ((fun b => Z.land b 1) <$> take n (pending it)).
Proof.
  induction n as [|n IH]; intros it out g Hg Hlg Hout Hn.
  - exists out, g. cbn. rewrite app_nil_r. destruct it; cbn. auto.
  - destruct it as [[|bit rest] flt]; cbn in Hn; [lia|].
    cbn [pack_loop pending fault].
    rewrite lor_shiftl_bit by apply land_1_bit.
    rewrite <- bits_value_snoc.
    assert (Hg' : Forall is_bit (g ++ [Z.land bit 1])).
    { apply Forall_app. split; [exact Hg|]. constructor; [apply land_1_bit | constructor]. }
    destruct (Z.eqb_spec (Z.of_nat (length g) + 1) 8) as [H8 | H8].
    + destruct (byte_of_bits8 (g ++ [Z.land bit 1]) Hg') as [Hbyte Hbits].
      { rewrite length_app. cbn. lia. }
      rewrite bytearray_append_byte by exact Hbyte. cbn [mbind result_bind].
      destruct (IH (mkIter rest flt) (out ++ [bits_value (g ++ [Z.land bit 1])]) [])
        as (out' & g' & Heq & H1 & H2 & H3 & H4);
        [constructor | cbn; lia | | cbn; lia |].
      { apply Forall_app. split; [exact Hout|]. constructor; [exact Hbyte|constructor]. }
      exists out', g'.
      change (bits_value []) with 0 in Heq.
      change (Z.of_nat (length (@nil Z))) with 0 in Heq.
      cbn [pending fault] in Heq. rewrite Heq. cbn. repeat split; try assumption.
      rewrite H4. cbn. rewrite bits_of_bytes_app.
      unfold bits_of_bytes at 2. cbn [fmap list_fmap concat]. rewrite app_nil_r, Hbits.
      rewrite <- !app_assoc. reflexivity.
    + destruct (IH (mkIter rest flt) out (g ++ [Z.land bit 1]))
        as (out' & g' & Heq & H1 & H2 & H3 & H4);
        [exact Hg' | rewrite length_app; cbn; lia | exact Hout | cbn; lia |].
      exists out', g'. rewrite length_app in Heq. cbn in Heq.
      replace (Z.of_nat (length g + 1)) with (Z.of_nat (length g) + 1) in Heq by lia.
      rewrite Heq. cbn. repeat split; try assumption.
      rewrite H4. cbn. rewrite <- !app_assoc. reflexivity.
Qed.

(** When the iterator ends before [n] bits were taken, the loop raises what
    the iterator ends with. *)
Lemma pack_loop_short n : forall it out g,
  Forall is_bit g -> (length g < 8)%nat ->
  (length (pending it) < n)%nat ->
  pack_loop n it out (bits_value g) (Z.of_nat (length g))
  = Raise (default ValueError_truncated (fault it)).
Proof.
  induction n as [|n IH]; intros it out g Hg Hlg Hn; [lia|].
  destruct it as [[|bit rest] flt]; cbn [pack_loop pending fault].
  - destruct flt; reflexivity.
  - cbn in Hn.
    rewrite lor_shiftl_bit by apply land_1_bit.
    rewrite <- bits_value_snoc.
    assert (Hg' : Forall is_bit (g ++ [Z.land bit 1])).
    { apply Forall_app. split; [exact Hg|]. constructor; [apply land_1_bit | constructor]. }
    destruct (Z.eqb_spec (Z.of_nat (length g) + 1) 8) as [H8 | H8].
    + destruct (byte_of_bits8 (g ++ [Z.land bit 1]) Hg') as [Hbyte Hbits].
      { rewrite length_app. cbn. lia. }
      rewrite bytearray_append_byte by exact Hbyte. cbn [mbind result_bind].
      apply (IH (mkIter rest flt) _ []); [constructor | cbn; lia | cbn; lia].
    + replace (Z.of_nat (length g) + 1) with (Z.of_nat (length (g ++ [Z.land bit 1])))
        by (rewrite length_app; cbn; lia).
      apply (IH (mkIter rest flt)); [exact Hg' | rewrite length_app; cbn; lia | cbn; lia].
Qed.


Lemma bits_to_bytes_spec (it : bit_iter) (bit_count : Z) :
  0 <= bit_count -> bit_count <= Z.of_nat (length (pending it)) ->
  exists out,
    bits_to_bytes it bit_count
    = Ok (out, mkIter (drop (Z.to_nat bit_count) (pending it)) (fault it)) /\
    Forall is_byte out /\
    Z.of_nat (length out) = (bit_count + 7) / 8 /\
    bits_of_bytes out
    = ((fun b => Z.land b 1) <$> take (Z.to_nat bit_count) (pending it))
        ++ repeat 0 (Z.to_nat ((- bit_count) mod 8)).
Proof.
  intros H0 Hlen. unfold bits_to_bytes.
  destruct (Z.ltb_spec bit_count 0) as [|_]; [lia|].
  destruct (pack_loop_spec (Z.to_nat bit_count) it [] [])
    as (out & g & Heq & Hg & Hlg & Hout & Hbits);
    [constructor | cbn; lia | constructor | lia |].
  change (bits_value []) with 0 in Heq.
  change (Z.of_nat (length (@nil Z))) with 0 in Heq.
  rewrite Heq. cbn [mbind result_bind]. cbn in Hbits.
  assert (Hcount : (8 * length out + length g)%nat = Z.to_nat bit_count).
  { apply (f_equal length) in Hbits.
    rewrite length_app, length_bits_of_bytes, length_fmap, length_take in Hbits. lia. }
  destruct (Z.eqb_spec (Z.of_nat (length g)) 0) as [Hz | Hnz].
  - destruct g; [|cbn in Hz; lia]. rewrite app_nil_r in Hbits. cbn in Hcount.
    exists out. split; [reflexivity|]. split; [exact Hout|].
    assert (Hm : (- bit_count) mod 8 = 0).
    { replace (- bit_count) with (- Z.of_nat (length out) * 8) by lia.
      apply Z.mod_mul. lia. }
    split.
    + replace bit_count with (Z.of_nat (length out) * 8) by lia.
      rewrite Z.add_comm, Z.div_add by lia. reflexivity.
    + rewrite Hm. cbn. rewrite app_nil_r. exact Hbits.
  - destruct (byte_of_bits_padded g Hg) as [Hbyte Hpad]; [lia|].
    rewrite bytearray_append_byte by exact Hbyte. cbn [mbind result_bind].
    eexists. split; [reflexivity|].
    assert (Hm : (- bit_count) mod 8 = 8 - Z.of_nat (length g)).
    { replace (- bit_count)
        with ((8 - Z.of_nat (length g)) + (- Z.of_nat (length out) - 1) * 8) by lia.
      rewrite Z.mod_add by lia. apply Z.mod_small. lia. }
    split; [|split].
    + apply Forall_app. split; [exact Hout|]. constructor; [exact Hbyte|constructor].
    + rewrite length_app. cbn [length].
      replace (bit_count + 7)
        with ((Z.of_nat (length g) + 7) + Z.of_nat (length out) * 8) by lia.
      rewrite Z.div_add by lia.
      replace ((Z.of_nat (length g) + 7) / 8) with 1; [lia|].
      apply Z.div_unique with (r := Z.of_nat (length g) - 1); lia.
    + rewrite bits_of_bytes_app. unfold bits_of_bytes at 2.
      cbn [fmap list_fmap concat]. rewrite app_nil_r, Hpad, Hm.
      rewrite app_assoc, Hbits. f_equal. f_equal. lia.
Qed.

Lemma bits_to_bytes_short (it : bit_iter) (bit_count : Z) :
  Z.of_nat (length (pending it)) < bit_count ->
  bits_to_bytes it bit_count = Raise (default ValueError_truncated (fault it)).
Proof.
  intros Hlen. unfold bits_to_bytes.
  destruct (Z.ltb_spec bit_count 0) as [|_]; [lia|].
  pose proof (pack_loop_short (Z.to_nat bit_count) it [] []) as H.
  change (bits_value []) with 0 in H.
  change (Z.of_nat (length (@nil Z))) with 0 in H.
  rewrite H; [reflexivity | constructor | cbn; lia | lia].
Qed.

(** A byte is the value of its bits. *)
Lemma bits_value_of_byte b : is_byte b -> bits_value (bits_of_byte b) = b.
Proof.
  intros Hb.
  assert (Hall : forallb (fun n => bits_value (bits_of_byte (Z.of_nat n)) =? Z.of_nat n)
                   (seq 0 256) = true) by (vm_compute; reflexivity).
  rewrite forallb_forall in Hall.
  specialize (Hall (Z.to_nat b)). rewrite Z2Nat.id in Hall by (destruct Hb; lia).
  apply Z.eqb_eq, Hall, in_seq. destruct Hb. lia.
Qed.

Lemma bits_of_bytes_inj a : forall b,
  Forall is_byte a -> Forall is_byte b ->
  bits_of_bytes a = bits_of_bytes b -> a = b.
Proof.
  induction a as [|x a IH]; intros [|y b] Ha Hb Heq.
  - reflexivity.
  - apply (f_equal length) in Heq. rewrite !length_bits_of_bytes in Heq. cbn in Heq. lia.
  - apply (f_equal length) in Heq. rewrite !length_bits_of_bytes in Heq. cbn in Heq. lia.
  - rewrite !bits_of_bytes_cons in Heq.
    apply app_inj_1 in Heq; [|reflexivity]. destruct Heq as [Hxy Hab].
    inversion Ha; inversion Hb; subst.
    f_equal; [|apply IH; assumption].
    rewrite <- (bits_value_of_byte x), <- (bits_value_of_byte y) by assumption.
    rewrite Hxy. reflexivity.
Qed.

Lemma fmap_land_1_bits (l : list Z) :
  Forall is_bit l -> (fun b => Z.land b 1) <$> l = l.
Proof.
  induction 1 as [|x l Hx Hl IHl]; [reflexivity|].
  cbn. rewrite land_1_of_bit by exact Hx. f_equal. exact IHl.
Qed.

(** Packing the bits of a sequence of bytes gives the bytes back. *)
Lemma bits_to_bytes_of_bytes (bs : list Z) (later : bit_iter) :
  Forall is_byte bs ->
  bits_to_bytes (iter_cons (bits_of_bytes bs) later) (Z.of_nat (length bs) * 8)
  = Ok (bs, later).
Proof.
  intros Hbs.
  destruct (bits_to_bytes_spec (iter_cons (bits_of_bytes bs) later)
              (Z.of_nat (length bs) * 8)) as (out & Heq & Hout & Hlen & Hbits).
  { lia. }
  { cbn. rewrite length_app, length_bits_of_bytes. lia. }
  rewrite Heq. cbn [iter_cons pending fault] in *.
  replace (Z.to_nat (Z.of_nat (length bs) * 8)) with (length (bits_of_bytes bs)) in *
    by (rewrite length_bits_of_bytes; lia).
  rewrite drop_app_length. rewrite take_app_length in Hbits.
  replace (- (Z.of_nat (length bs) * 8)) with (- Z.of_nat (length bs) * 8) in Hbits by lia.
  rewrite Z.mod_mul in Hbits by lia. cbn in Hbits. rewrite app_nil_r in Hbits.
  rewrite fmap_land_1_bits in Hbits by apply Forall_bit_bits_of_bytes. apply bits_of_bytes_inj in Hbits; [|assumption..].
  subst out. destruct later; reflexivity.
Qed.

(** C5. [bits_to_bytes] on a sequence of bits and a count [bit_count >= 0]:
    when the sequence has at least [bit_count] bits, the result is the
    sequence of bytes whose bits, most significant first, are the first
    [bit_count] bits (each taken [& 1]) followed by zeros up to the next
    multiple of eight, and the iterator is left after these bits; when the
    sequence ends earlier, the call raises the truncation error. *)
Theorem bits_to_bytes_contract (bits : list Z) (bit_count : Z) :
  0 <= bit_count ->
  (bit_count <= Z.of_nat (length bits) ->
   exists out,
     bits_to_bytes (iter_of bits) bit_count
     = Ok (out, iter_of (drop (Z.to_nat bit_count) bits)) /\
     Forall is_byte out /\
     Z.of_nat (length out) = (bit_count + 7) / 8 /\
     bits_of_bytes out
     = ((fun b => Z.land b 1) <$> take (Z.to_nat bit_count) bits)
         ++ repeat 0 (Z.to_nat ((- bit_count) mod 8))) /\
  (Z.of_nat (length bits) < bit_count ->
   bits_to_bytes (iter_of bits) bit_count = Raise ValueError_truncated).
Proof.
  intros H0. split.
  - intros Hlen. apply (bits_to_bytes_spec (iter_of bits) bit_count H0 Hlen).
  - intros Hlen. apply (bits_to_bytes_short (iter_of bits) bit_count Hlen).
Qed.

(** Eleven bits 1,0,1,0,0,1,0,1, 1,1,1 give the bytes 165 and 224; asking for
    twelve bits of them raises. *)
Lemma bits_to_bytes_contract_witness :
  0 <= 11 /\
  bits_to_bytes (iter_of [1; 0; 1; 0; 0; 1; 0; 1; 1; 1; 1]) 11 = Ok ([165; 224], iter_of []) /\
  bits_to_bytes (iter_of [1; 0; 1; 0; 0; 1; 0; 1; 1; 1; 1]) 12 = Raise ValueError_truncated.
Proof.
  split; [lia|]. split.
  - destruct (bits_to_bytes_contract [1; 0; 1; 0; 0; 1; 0; 1; 1; 1; 1] 11) as [H _]; [lia|].
    destruct H as (out & Heq & _); [cbn; lia|].
    rewrite Heq. vm_compute in Heq. injection Heq as <-. reflexivity.
  - destruct (bits_to_bytes_contract [1; 0; 1; 0; 0; 1; 0; 1; 1; 1; 1] 12) as [_ H]; [lia|].
    apply H. cbn. lia.
Defined.

End BitSpec.


(** ** The UTF-8 codec *)

Module UTF8Spec.

Import UTF8.

Ltac zbool :=
  repeat match goal with
         | |- context [?a <? ?b] =>
             destruct (Z.ltb_spec a b); try (exfalso; Z.div_mod_to_equations; lia)
         | |- context [?a <=? ?b] =>
             destruct (Z.leb_spec a b); try (exfalso; Z.div_mod_to_equations; lia)
         end.

Lemma bind_Ok {A B : Type} (m : result A) (f : A -> result B) (b : B) :
  m ≫= f = Ok b -> exists a, m = Ok a /\ f a = Ok b.
Proof. destruct m as [a|e]; cbn; [eauto | discriminate]. Qed.

Lemma encode_char_bytes c bs : encode_char c = Ok bs -> Forall is_byte bs.
Proof.
  unfold encode_char, is_byte. intros H.
  repeat match type of H with
         | (if ?b then _ else _) = _ => destruct b eqn:?
         end; try discriminate; injection H as <-;
    repeat match goal with
           | E : (_ <? _) = true |- _ => apply Z.ltb_lt in E
           | E : (_ <? _) = false |- _ => apply Z.ltb_ge in E
           | E : (_ && _) = false |- _ => clear E
           end;
    repeat (constructor; [Z.div_mod_to_equations; lia|]); constructor.
Qed.

Lemma encode_bytes s : forall bs, encode s = Ok bs -> Forall is_byte bs.
Proof.
  induction s as [|c s IH]; intros bs H; cbn in H.
  - injection H as <-. constructor.
  - apply bind_Ok in H as (b & Hb & H). apply bind_Ok in H as (bs' & Hbs & H).
    injection H as <-. apply Forall_app. split; [eapply encode_char_bytes; eauto | auto].
Qed.

(** Decoding what was encoded for one code point gives the code point back. *)
Lemma decode_encode_char c b rest :
  encode_char c = Ok b ->
  decode (b ++ rest) = (s ← decode rest; Ok (c :: s)).
Proof.
  unfold encode_char. intros H.
  destruct (Z.ltb_spec c 0); [discriminate|].
  destruct (Z.ltb_spec c 128).
  { injection H as <-. cbn [app decode]. zbool. reflexivity. }
  destruct (Z.ltb_spec c 2048).
  { injection H as <-. cbn [app decode]. unfold cont. zbool. cbn [andb].
    replace ((192 + c / 64 - 192) * 64 + (128 + c mod 64 - 128)) with c
      by (Z.div_mod_to_equations; lia).
    reflexivity. }
  destruct (Z.ltb_spec c 65536).
  { destruct (Z.leb_spec 55296 c); destruct (Z.leb_spec c 57343);
      cbn [andb] in H; try discriminate; injection H as <-;
      cbn [app decode]; unfold cont;
      replace ((224 + c / 4096 - 224) * 4096 + (128 + (c / 64) mod 64 - 128) * 64
               + (128 + c mod 64 - 128)) with c by (Z.div_mod_to_equations; lia);
      zbool; reflexivity. }
  destruct (Z.ltb_spec c 1114112); [|discriminate].
  injection H as <-. cbn [app decode]. unfold cont.
  replace ((240 + c / 262144 - 240) * 262144 + (128 + (c / 4096) mod 64 - 128) * 4096
           + (128 + (c / 64) mod 64 - 128) * 64 + (128 + c mod 64 - 128)) with c
    by (Z.div_mod_to_equations; lia).
  zbool. reflexivity.
Qed.

(** Round trip of the codec: what [encode] produces, [decode] reads back. *)
Lemma decode_encode s : forall bs, encode s = Ok bs -> decode bs = Ok s.
Proof.
  induction s as [|c s IH]; intros bs H; cbn in H.
  - injection H as <-. reflexivity.
  - apply bind_Ok in H as (b & Hb & H). apply bind_Ok in H as (bs' & Hbs & H).
    injection H as <-. rewrite (decode_encode_char _ _ _ Hb), (IH _ Hbs). reflexivity.
Qed.


Ltac list_eq :=
  repeat (apply (f_equal2 (@cons Z))); try reflexivity; Z.div_mod_to_equations; lia.

Lemma encode_char_1 b0 : 0 <= b0 < 128 -> encode_char b0 = Ok [b0].
Proof. intros H. unfold encode_char. zbool. reflexivity. Qed.

Lemma encode_char_2 b0 b1 :
  194 <= b0 < 224 -> 128 <= b1 < 192 ->
  encode_char ((b0 - 192) * 64 + (b1 - 128)) = Ok [b0; b1].
Proof.
  intros H0 H1. set (c := (b0 - 192) * 64 + (b1 - 128)).
  assert (128 <= c < 2048) by (unfold c; lia).
  unfold encode_char. zbool. f_equal. unfold c. list_eq.
Qed.

Lemma encode_char_3 b0 b1 b2 :
  224 <= b0 < 240 -> 128 <= b1 < 192 -> 128 <= b2 < 192 ->
  let c := (b0 - 224) * 4096 + (b1 - 128) * 64 + (b2 - 128) in
  2048 <= c -> ~ (55296 <= c <= 57343) ->
  encode_char c = Ok [b0; b1; b2].
Proof.
  intros H0 H1 H2 c Hc Hs.
  assert (c < 65536) by (unfold c; lia).
  unfold encode_char.
  destruct (Z.ltb_spec c 0); [lia|]. destruct (Z.ltb_spec c 128); [lia|].
  destruct (Z.ltb_spec c 2048); [lia|]. destruct (Z.ltb_spec c 65536); [|lia].
  destruct (Z.leb_spec 55296 c); destruct (Z.leb_spec c 57343); cbn [andb]; try lia;
    f_equal; unfold c; list_eq.
Qed.

Lemma encode_char_4 b0 b1 b2 b3 :
  240 <= b0 < 245 -> 128 <= b1 < 192 -> 128 <= b2 < 192 -> 128 <= b3 < 192 ->
  let c := (b0 - 240) * 262144 + (b1 - 128) * 4096 + (b2 - 128) * 64 + (b3 - 128) in
  65536 <= c < 1114112 ->
  encode_char c = Ok [b0; b1; b2; b3].
Proof.
  intros H0 H1 H2 H3 c Hc.
  unfold encode_char.
  destruct (Z.ltb_spec c 0); [lia|]. destruct (Z.ltb_spec c 128); [lia|].
  destruct (Z.ltb_spec c 2048); [lia|]. destruct (Z.ltb_spec c 65536); [lia|].
  destruct (Z.ltb_spec c 1114112); [|lia].
  f_equal. unfold c. list_eq.
Qed.

Lemma cont_spec b : cont b = true -> 128 <= b < 192.
Proof. unfold cont. rewrite andb_true_iff, Z.leb_le, Z.ltb_lt. tauto. Qed.

(** The decoder is strict: it accepts the encoding of a string only. *)
Lemma encode_decode_fuel n : forall bs s,
  (length bs <= n)%nat -> decode bs = Ok s -> encode s = Ok bs.
Proof.
  induction n as [|n IH]; intros bs s Hn H.
  - destruct bs; [|cbn in Hn; lia]. injection H as <-. reflexivity.
  - destruct bs as [|b0 t0]; [injection H as <-; reflexivity|].
    cbn [decode] in H. cbn [length] in Hn.
    destruct ((0 <=? b0) && (b0 <? 128)) eqn:E1.
    { apply andb_true_iff in E1 as [Ea Eb]. apply Z.leb_le in Ea. apply Z.ltb_lt in Eb.
      apply bind_Ok in H as (s' & Hs' & H). injection H as <-.
      cbn [encode]. rewrite encode_char_1 by lia. cbn [mbind result_bind].
      rewrite (IH t0 s') by (assumption || lia). reflexivity. }
    destruct ((194 <=? b0) && (b0 <? 224)) eqn:E2.
    { apply andb_true_iff in E2 as [Ea Eb]. apply Z.leb_le in Ea. apply Z.ltb_lt in Eb.
      destruct t0 as [|b1 t1]; [discriminate|].
      destruct (cont b1) eqn:C1; [|discriminate]. apply cont_spec in C1.
      apply bind_Ok in H as (s' & Hs' & H). injection H as <-.
      cbn [encode]. rewrite encode_char_2 by lia. cbn [mbind result_bind].
      rewrite (IH t1 s') by (assumption || (cbn [length] in Hn; lia)). reflexivity. }
    destruct ((224 <=? b0) && (b0 <? 240)) eqn:E3.
    { apply andb_true_iff in E3 as [Ea Eb]. apply Z.leb_le in Ea. apply Z.ltb_lt in Eb.
      destruct t0 as [|b1 [|b2 t2]]; [discriminate..|].
      match type of H with (if ?c then _ else _) = _ => destruct c eqn:C end;
        [|discriminate].
      rewrite !andb_true_iff in C. destruct C as [[[C1 C2] C3] C4].
      apply cont_spec in C1, C2. apply Z.leb_le in C3.
      apply negb_true_iff in C4.
      apply bind_Ok in H as (s' & Hs' & H). injection H as <-.
      cbn [encode]. rewrite encode_char_3; [|lia..|].
      - cbn [mbind result_bind].
        rewrite (IH t2 s') by (assumption || (cbn [length] in Hn; lia)). reflexivity.
      - intros [Hx Hy]. apply Z.leb_le in Hx, Hy. rewrite Hx, Hy in C4. discriminate. }
    destruct ((240 <=? b0) && (b0 <? 245)) eqn:E4; [|discriminate].
    apply andb_true_iff in E4 as [Ea Eb]. apply Z.leb_le in Ea. apply Z.ltb_lt in Eb.
    destruct t0 as [|b1 [|b2 [|b3 t3]]]; [discriminate..|].
    match type of H with (if ?c then _ else _) = _ => destruct c eqn:C end;
      [|discriminate].
    rewrite !andb_true_iff in C. destruct C as [[[[C1 C2] C3] C4] C5].
    apply cont_spec in C1, C2, C3. apply Z.leb_le in C4. apply Z.ltb_lt in C5.
    apply bind_Ok in H as (s' & Hs' & H). injection H as <-.
    cbn [encode]. rewrite encode_char_4 by lia. cbn [mbind result_bind].
    rewrite (IH t3 s') by (assumption || (cbn [length] in Hn; lia)). reflexivity.
Qed.

Lemma encode_decode bs s : decode bs = Ok s -> encode s = Ok bs.
Proof. apply (encode_decode_fuel (length bs)). lia. Qed.

(** Decoding either gives a string or raises [UnicodeDecodeError]. *)
Lemma decode_raises bs e : decode bs = Raise e -> e = UnicodeDecodeError.
Proof.
  remember (length bs) as n eqn:Hn. assert (Hle : (length bs <= n)%nat) by lia. clear Hn.
  revert bs Hle. induction n as [|n IH]; intros bs Hn H.
  - destruct bs; [discriminate | cbn in Hn; lia].
  - destruct bs as [|b0 t0]; [discriminate|].
    cbn [decode] in H. cbn [length] in Hn.
    assert (Hrec : forall t (f : list Z -> result (list Z)),
               (length t <= n)%nat -> (forall x, f x <> Raise e) ->
               (decode t ≫= f) = Raise e -> e = UnicodeDecodeError).
    { intros t f Ht Hf Hb. destruct (decode t) as [x|e'] eqn:Ed; cbn in Hb.
      - exfalso. exact (Hf x Hb).
      - injection Hb as <-. exact (IH t Ht Ed). }
    repeat match type of H with
           | (if ?c then _ else _) = _ => destruct c
           | match ?t with [] => _ | _ :: _ => _ end = _ =>
               destruct t; cbn [length] in Hn
           | Raise _ = Raise _ => injection H as <-; reflexivity
           | (decode _ ≫= _) = _ =>
               apply Hrec in H; [exact H | lia | discriminate]
           end.
Qed.

End UTF8Spec.


(** ** The stream cipher and the payload frame *)

Module CryptoSpec.

Import BitSpec UTF8Spec Crypto.

(** The unsigned integer that a sequence of bytes represents in big-endian
    order. *)
Definition be_value (bs : list Z) : Z :=
  fold_left (fun acc b => 256 * acc + b) bs 0.

Lemma be32_length w : length (SHA256.be32 w) = 4%nat.
Proof. reflexivity. Qed.

Lemma be32_bytes w : Forall is_byte (SHA256.be32 w).
Proof.
  unfold SHA256.be32, is_byte.
  repeat (constructor; [apply Z.mod_pos_bound; lia|]). constructor.
Qed.

Lemma be_value_be32 n : 0 <= n < 4294967296 -> be_value (SHA256.be32 n) = n.
Proof.
  intros H. unfold be_value, SHA256.be32. cbn [fold_left].
  Z.div_mod_to_equations. lia.
Qed.

Lemma unpack_be32 n : 0 <= n < 4294967296 -> unpack_uint32 (SHA256.be32 n) = Ok n.
Proof.
  intros H. unfold unpack_uint32, SHA256.be32, SHA256.word_of. f_equal.
  Z.div_mod_to_equations. lia.
Qed.

Lemma sha256_length m : length (SHA256.sha256 m) = 32%nat.
Proof. unfold SHA256.sha256. rewrite !length_app. reflexivity. Qed.

Lemma sha256_bytes m : Forall is_byte (SHA256.sha256 m).
Proof. unfold SHA256.sha256. rewrite !Forall_app. repeat split; apply be32_bytes. Qed.

Lemma to_bytes_id l : Forall is_byte l -> to_bytes l = Ok l.
Proof.
  induction 1 as [|x l [H0 H1] Hl IH]; [reflexivity|]. cbn [to_bytes].
  destruct (Z.leb_spec 0 x); [|lia]. destruct (Z.ltb_spec x 256); [|lia].
  cbn. rewrite IH. reflexivity.
Qed.

Lemma lxor_byte a b : is_byte a -> is_byte b -> is_byte (Z.lxor a b).
Proof.
  unfold is_byte. intros Ha Hb.
  assert (Hm : Z.lxor a b = Z.lxor a b mod 2 ^ 8).
  { apply Z.bits_inj'. intros n Hn. destruct (Z_lt_le_dec n 8).
    - rewrite Z.mod_pow2_bits_low by lia. reflexivity.
    - rewrite Z.mod_pow2_bits_high by lia. rewrite Z.lxor_spec.
      rewrite <- (Z.mod_small a (2 ^ 8)), <- (Z.mod_small b (2 ^ 8))
        by (change (2 ^ 8) with 256; lia).
      rewrite !Z.mod_pow2_bits_high by lia. reflexivity. }
  rewrite Hm. change (2 ^ 8) with 256. apply Z.mod_pos_bound. lia.
Qed.

Lemma zip_lxor_bytes a : forall b,
  Forall is_byte a -> Forall is_byte b -> Forall is_byte (zip_with Z.lxor a b).
Proof.
  induction a as [|x a IH]; intros [|y b] Ha Hb; cbn; try constructor.
  - inversion Ha; inversion Hb; subst. apply lxor_byte; assumption.
  - inversion Ha; inversion Hb; subst. apply IH; assumption.
Qed.

Lemma zip_lxor_length (a b : list Z) :
  length a = length b -> length (zip_with Z.lxor a b) = length a.
Proof. intros H. rewrite length_zip_with. lia. Qed.

(** Exclusive-or with the same key twice is the identity. *)
Lemma zip_lxor_involutive a : forall k,
  length a = length k -> zip_with Z.lxor (zip_with Z.lxor a k) k = a.
Proof.
  induction a as [|x a IH]; intros [|y k] H; cbn in *; try discriminate; [reflexivity|].
  rewrite Z.lxor_assoc, Z.lxor_nilpotent, Z.lxor_0_r. f_equal. apply IH. lia.
Qed.

(** Two keys that give the same text from the same data are the same keys. *)
Lemma zip_lxor_cancel a : forall k1 k2,
  length a = length k1 -> length a = length k2 ->
  zip_with Z.lxor a k1 = zip_with Z.lxor a k2 -> k1 = k2.
Proof.
  induction a as [|x a IH]; intros [|y1 k1] [|y2 k2] H1 H2 H; cbn in *;
    try discriminate; [reflexivity|].
  injection H as Hx Hr. f_equal; [|apply IH; [lia | lia | exact Hr]].
  apply (f_equal (Z.lxor x)) in Hx.
  rewrite <- !Z.lxor_assoc, Z.lxor_nilpotent, !Z.lxor_0_l in Hx. exact Hx.
Qed.

(** *** [derive_key_stream] *)

(** The loop ends by its condition: what it returns is long enough. *)
Lemma key_stream_loop_Ok fuel : forall seed len stream counter stream',
  key_stream_loop fuel seed len stream counter = Ok stream' ->
  len <= Z.of_nat (length stream') /\
  (Forall is_byte stream -> Forall is_byte stream').
Proof.
  induction fuel as [|fuel IH]; intros seed len stream counter stream' H;
    cbn [key_stream_loop] in H.
  - destruct (Z.ltb_spec (Z.of_nat (length stream)) len); [discriminate|].
    injection H as <-. auto.
  - destruct (Z.ltb_spec (Z.of_nat (length stream)) len).
    + apply bind_Ok in H as (cb & Hcb & H). apply IH in H as [H1 H2].
      split; [exact H1|]. intros Hs. apply H2, Forall_app. split; [exact Hs|].
      apply sha256_bytes.
    + injection H as <-. auto.
Qed.

(** With one unit of fuel for every missing byte the loop never runs out of
    fuel, and it raises only when the counter does not fit in four bytes. *)
Lemma key_stream_loop_returns fuel : forall seed len stream counter,
  len - Z.of_nat (length stream) <= Z.of_nat fuel ->
  (exists stream', key_stream_loop fuel seed len stream counter = Ok stream') \/
  key_stream_loop fuel seed len stream counter = Raise OverflowError.
Proof.
  induction fuel as [|fuel IH]; intros seed len stream counter Hf;
    cbn [key_stream_loop].
  - destruct (Z.ltb_spec (Z.of_nat (length stream)) len); [lia | eauto].
  - destruct (Z.ltb_spec (Z.of_nat (length stream)) len); [|eauto].
    unfold to_bytes4. destruct ((0 <=? counter) && (counter <? 4294967296));
      cbn [mbind result_bind];
      [|right; reflexivity].
    apply IH. rewrite length_app, sha256_length. lia.
Qed.

(** As long as the counter fits in four bytes the loop returns. *)
Lemma key_stream_loop_total fuel : forall seed len stream counter,
  len - Z.of_nat (length stream) <= Z.of_nat fuel ->
  Z.of_nat (length stream) = 32 * counter -> 0 <= counter ->
  len <= 32 * 4294967296 ->
  exists stream', key_stream_loop fuel seed len stream counter = Ok stream'.
Proof.
  induction fuel as [|fuel IH]; intros seed len stream counter Hf Hc H0 Hl;
    cbn [key_stream_loop].
  - destruct (Z.ltb_spec (Z.of_nat (length stream)) len); [lia | eauto].
  - destruct (Z.ltb_spec (Z.of_nat (length stream)) len); [|eauto].
    unfold to_bytes4. destruct (Z.leb_spec 0 counter); [|lia].
    destruct (Z.ltb_spec counter 4294967296); [|lia]. cbn [andb mbind result_bind].
    apply IH; rewrite ?length_app, ?sha256_length; lia.
Qed.

Lemma slice_to_take {A : Type} (l : list A) (n : Z) :
  0 <= n -> slice_to l n = take (Z.to_nat n) l.
Proof. intros H. unfold slice_to. destruct (Z.ltb_spec n 0); [lia | reflexivity]. Qed.

(** What [derive_key_stream] returns has exactly the requested length. *)
Lemma derive_key_stream_Ok password len ks :
  0 <= len -> derive_key_stream password len = Ok ks ->
  Z.of_nat (length ks) = len /\ Forall is_byte ks.
Proof.
  intros H0 H. unfold derive_key_stream in H.
  apply bind_Ok in H as (seed & Hseed & H). apply bind_Ok in H as (stream & Hs & H).
  injection H as <-. apply key_stream_loop_Ok in Hs as [Hlen Hb].
  rewrite slice_to_take by lia. split.
  - rewrite length_take. lia.
  - apply Forall_take, Hb. constructor.
Qed.

(** [derive_key_stream] terminates: the fuel of the model is enough. *)
Lemma encode_char_raises c e :
  UTF8.encode_char c = Raise e -> e = UnicodeEncodeError.
Proof.
  unfold UTF8.encode_char. intros H.
  repeat match type of H with
         | (if ?b then _ else _) = _ => destruct b
         end; congruence.
Qed.

Lemma encode_raises s e : UTF8.encode s = Raise e -> e = UnicodeEncodeError.
Proof.
  induction s as [|c s IH]; cbn [UTF8.encode]; [discriminate|].
  destruct (UTF8.encode_char c) eqn:Ec; cbn [mbind result_bind].
  - destruct (UTF8.encode s); cbn [mbind result_bind]; [discriminate | exact IH].
  - intros [= <-]. eapply encode_char_raises, Ec.
Qed.

(** [derive_key_stream] terminates: the fuel of the model is enough. *)
Lemma derive_key_stream_returns password len :
  derive_key_stream password len <> Raise Diverges.
Proof.
  unfold derive_key_stream. destruct (UTF8.encode password) as [seed|e] eqn:He;
    cbn [mbind result_bind].
  - destruct (key_stream_loop_returns (Z.to_nat len) seed len [] 0) as [[s ->] | ->];
      cbn; [lia | discriminate..].
  - apply encode_raises in He. subst e. discriminate.
Qed.

Lemma derive_key_stream_total password seed len :
  UTF8.encode password = Ok seed -> 0 <= len <= 32 * 4294967296 ->
  exists ks, derive_key_stream password len = Ok ks.
Proof.
  intros Hs Hl. unfold derive_key_stream. rewrite Hs. cbn.
  destruct (key_stream_loop_total (Z.to_nat len) seed len [] 0) as [s ->];
    cbn; try lia. eauto.
Qed.


(** *** [xor_encrypt] *)

(** Encrypting twice with the same password gives the data back. *)
Lemma xor_encrypt_Ok data password enc :
  Forall is_byte data -> xor_encrypt data password = Ok enc ->
  length enc = length data /\ Forall is_byte enc /\
  xor_encrypt enc password = Ok data.
Proof.
  intros Hd H. destruct password as [[|c p]|]; cbn [xor_encrypt] in *;
    try (injection H as <-; auto).
  apply bind_Ok in H as (ks & Hks & H).
  destruct (derive_key_stream_Ok _ _ _ (Nat2Z.is_nonneg _) Hks) as [Hl Hb].
  rewrite to_bytes_id in H by (apply zip_lxor_bytes; assumption).
  injection H as <-.
  assert (Hlen : length (zip_with Z.lxor data ks) = length data)
    by (apply zip_lxor_length; lia).
  rewrite Hlen, Hks. cbn [mbind result_bind].
  rewrite zip_lxor_involutive by lia.
  split; [reflexivity|]. split; [apply zip_lxor_bytes; assumption|].
  apply to_bytes_id, Hd.
Qed.

(** The password can be used: it has a UTF-8 encoding. *)
Definition usable (password : option (list Z)) : Prop :=
  match password with
  | Some pw => exists seed, UTF8.encode pw = Ok seed
  | None => True
  end.

Lemma xor_encrypt_total data password :
  Forall is_byte data -> usable password ->
  Z.of_nat (length data) <= 32 * 4294967296 ->
  exists enc, xor_encrypt data password = Ok enc.
Proof.
  intros Hd Hu Hl. destruct password as [[|c p]|]; cbn [xor_encrypt]; eauto.
  destruct Hu as [seed Hseed].
  destruct (derive_key_stream_total (c :: p) seed (Z.of_nat (length data)) Hseed)
    as [ks Hks]; [lia|].
  rewrite Hks. cbn [mbind result_bind].
  destruct (derive_key_stream_Ok _ _ _ (Nat2Z.is_nonneg _) Hks) as [_ Hb].
  rewrite to_bytes_id by (apply zip_lxor_bytes; assumption). eauto.
Qed.

(** *** The frame *)

Lemma pack_uint32_Ok n : 0 <= n < 4294967296 -> pack_uint32 n = Ok (SHA256.be32 n).
Proof.
  intros H. unfold pack_uint32. destruct (Z.leb_spec 0 n); [|lia].
  destruct (Z.ltb_spec n 4294967296); [reflexivity | lia].
Qed.

Lemma build_payload_Ok message password payload :
  build_payload message password = Ok payload ->
  exists plain body,
    UTF8.encode message = Ok plain /\ xor_encrypt plain password = Ok body /\
    Z.of_nat (length body) < 4294967296 /\ length body = length plain /\
    Forall is_byte body /\
    payload = HEADER_MAGIC ++ SHA256.be32 (Z.of_nat (length body)) ++ body.
Proof.
  unfold build_payload. intros H.
  apply bind_Ok in H as (plain & Hp & H). apply bind_Ok in H as (body & Hb & H).
  apply bind_Ok in H as (field & Hf & H). injection H as <-.
  unfold pack_uint32 in Hf.
  destruct (Z.leb_spec 0 (Z.of_nat (length body))); [|lia].
  destruct (Z.ltb_spec (Z.of_nat (length body)) 4294967296); [|discriminate].
  injection Hf as <-.
  destruct (xor_encrypt_Ok plain password body) as (Hl & Hby & _);
    [eapply encode_bytes; eauto | exact Hb |].
  exists plain, body. auto 10.
Qed.

Lemma build_payload_eq message password plain body :
  UTF8.encode message = Ok plain -> xor_encrypt plain password = Ok body ->
  Z.of_nat (length body) < 4294967296 ->
  build_payload message password
  = Ok (HEADER_MAGIC ++ SHA256.be32 (Z.of_nat (length body)) ++ body).
Proof.
  intros Hp Hb Hl. unfold build_payload. rewrite Hp. cbn [mbind result_bind].
  rewrite Hb. cbn [mbind result_bind]. rewrite pack_uint32_Ok by lia. reflexivity.
Qed.

(** [build_payload] returns for every text and password that have an
    encoding, as long as the body fits the length field. *)
Lemma build_payload_total message password plain :
  UTF8.encode message = Ok plain -> usable password ->
  Z.of_nat (length plain) < 4294967296 ->
  exists payload, build_payload message password = Ok payload.
Proof.
  intros Hp Hu Hl.
  destruct (xor_encrypt_total plain password) as [body Hb];
    [eapply encode_bytes; eauto | exact Hu | lia |].
  destruct (xor_encrypt_Ok plain password body) as (Hlen & _);
    [eapply encode_bytes; eauto | exact Hb |].
  erewrite build_payload_eq; eauto. lia.
Qed.

Lemma Forall_byte_payload message password payload :
  build_payload message password = Ok payload -> Forall is_byte payload.
Proof.
  intros H. apply build_payload_Ok in H as (plain & body & _ & _ & _ & _ & Hb & ->).
  rewrite !Forall_app. split; [|split; [apply be32_bytes | exact Hb]].
  unfold HEADER_MAGIC, is_byte. repeat (constructor; [lia|]). constructor.
Qed.

Lemma parse_header_bad header_bytes :
  take 7 header_bytes <> HEADER_MAGIC ->
  parse_header header_bytes = Raise ValueError_no_payload.
Proof.
  intros H. unfold parse_header. rewrite slice_to_take by (cbn; lia).
  change (Z.to_nat (Z.of_nat (length HEADER_MAGIC))) with 7%nat.
  destruct (decide (take 7 header_bytes <> HEADER_MAGIC)); [reflexivity | contradiction].
Qed.

Lemma parse_header_good header_bytes :
  (11 <= length header_bytes)%nat -> take 7 header_bytes = HEADER_MAGIC ->
  parse_header header_bytes = Ok (be_value (take 4 (drop 7 header_bytes))).
Proof.
  intros Hl H. unfold parse_header. rewrite slice_to_take by (cbn; lia).
  unfold slice.
  change (Z.to_nat (Z.of_nat (length HEADER_MAGIC))) with 7%nat.
  change (Z.to_nat HEADER_SIZE) with 11%nat.
  destruct (decide (take 7 header_bytes <> HEADER_MAGIC)); [contradiction|].
  do 11 (destruct header_bytes as [|? header_bytes]; [cbn in Hl; lia|]).
  cbn [take drop]. rewrite !take_0. cbn [unpack_uint32].
  unfold SHA256.word_of, be_value. cbn [fold_left]. f_equal. lia.
Qed.

Lemma parse_header_frame n rest :
  0 <= n < 4294967296 ->
  parse_header (HEADER_MAGIC ++ SHA256.be32 n ++ rest) = Ok n.
Proof.
  intros H. rewrite parse_header_good; [|cbn; lia | reflexivity].
  change (take 4 (drop 7 (HEADER_MAGIC ++ SHA256.be32 n ++ rest))) with (SHA256.be32 n).
  rewrite be_value_be32 by lia. reflexivity.
Qed.

(** C6. Whenever the message and the password give a body ([plain] is the
    UTF-8 encoding of the message, [body] what [xor_encrypt] makes of it) and
    the length of the body fits in four bytes, [build_payload] returns the
    seven bytes of the magic tag, then four bytes that are the big-endian
    representation of the length of the body, then the body; [parse_header]
    returns this length from the payload and from its first eleven bytes.
    For the first eleven bytes of any buffer that has them, [parse_header]
    raises "no embedded payload" when the first seven bytes are not the magic
    tag, and returns the big-endian value of bytes 7 to 10 otherwise. *)
Theorem frame_build_parse (message : list Z) (password : option (list Z))
    (plain body : list Z) :
  UTF8.encode message = Ok plain ->
  xor_encrypt plain password = Ok body ->
  Z.of_nat (length body) < 4294967296 ->
  let field := SHA256.be32 (Z.of_nat (length body)) in
  let payload := HEADER_MAGIC ++ field ++ body in
  build_payload message password = Ok payload /\
  HEADER_MAGIC = [76; 83; 66; 77; 83; 71; 49] /\
  length field = 4%nat /\ Forall is_byte field /\
  be_value field = Z.of_nat (length body) /\
  parse_header payload = Ok (Z.of_nat (length body)) /\
  parse_header (take 11 payload) = Ok (Z.of_nat (length body)) /\
  (forall buffer : list Z, (11 <= length buffer)%nat ->
     (take 7 buffer <> HEADER_MAGIC ->
      parse_header (take 11 buffer) = Raise ValueError_no_payload) /\
     (take 7 buffer = HEADER_MAGIC ->
      parse_header (take 11 buffer) = Ok (be_value (take 4 (drop 7 buffer))))).
Proof.
  intros Hp Hb Hl field payload.
  split; [apply (build_payload_eq _ _ plain); assumption|].
  split; [reflexivity|]. split; [reflexivity|]. split; [apply be32_bytes|].
  split; [apply be_value_be32; lia|].
  split; [apply parse_header_frame; lia|].
  split.
  - change (take 11 payload) with (HEADER_MAGIC ++ field ++ []).
    apply parse_header_frame. lia.
  - intros buffer Hlen.
    assert (H7 : take 7 (take 11 buffer) = take 7 buffer)
      by (rewrite take_take; f_equal).
    assert (H4 : take 4 (drop 7 (take 11 buffer)) = take 4 (drop 7 buffer)).
    { rewrite <- (take_drop 11 buffer) at 2. rewrite drop_app_le by (rewrite length_take; lia).
      rewrite take_app_le; [reflexivity|]. rewrite length_drop, length_take. lia. }
    split; intros Hm.
    + apply parse_header_bad. rewrite H7. exact Hm.
    + rewrite parse_header_good; [rewrite H4; reflexivity | rewrite length_take; lia |].
      rewrite H7. exact Hm.
Qed.

(** The message "hi" with the password "pw". *)
Lemma frame_build_parse_witness :
  (UTF8.encode [104; 105] = Ok [104; 105] /\
   xor_encrypt [104; 105] (Some [112; 119]) = Ok [93; 139] /\
   Z.of_nat (length [93; 139]) < 4294967296) /\
  build_payload [104; 105] (Some [112; 119])
  = Ok [76; 83; 66; 77; 83; 71; 49; 0; 0; 0; 2; 93; 139] /\
  parse_header [76; 83; 66; 77; 83; 71; 49; 0; 0; 0; 2; 93; 139] = Ok 2.
Proof.
  assert (H1 : UTF8.encode [104; 105] = Ok [104; 105]) by reflexivity.
  assert (H2 : xor_encrypt [104; 105] (Some [112; 119]) = Ok [93; 139])
    by (vm_compute; reflexivity).
  assert (H3 : Z.of_nat (length [93; 139]) < 4294967296) by (cbn; lia).
  split; [auto|].
  destruct (frame_build_parse [104; 105] (Some [112; 119]) [104; 105] [93; 139] H1 H2 H3)
    as (Hb & _ & _ & _ & _ & Hp & _).
  split; [exact Hb | exact Hp].
Defined.

End CryptoSpec.


(** ** The embedding and extraction engines *)

Module StegoSpec.

Import Bits Crypto Models PIL Stego BitSpec UTF8Spec CryptoSpec.

(** *** One channel *)

Lemma mask_ones n : Z.shiftl 1 n - 1 = Z.ones n.
Proof. unfold Z.ones. lia. Qed.

(** Writing [chunk] into the low [n] bits of [old] and reading the low [n]
    bits back gives [chunk]. *)
Lemma low_bits_written old chunk n :
  0 <= n -> 0 <= chunk < 2 ^ n ->
  Z.land (Z.lor (Z.land old (Z.lnot (Z.ones n))) chunk) (Z.ones n) = chunk.
Proof.
  intros Hn Hc. rewrite Z.land_lor_distr_l, <- Z.land_assoc.
  rewrite (Z.land_comm (Z.lnot _)), Z.land_lnot_diag, Z.land_0_r, Z.lor_0_l.
  rewrite Z.land_ones by lia. apply Z.mod_small. lia.
Qed.

(** The bits above the low [n] bits are the ones of [old]. *)
Lemma high_bits_kept old chunk n :
  0 <= n -> 0 <= chunk < 2 ^ n ->
  Z.shiftr (Z.lor (Z.land old (Z.lnot (Z.ones n))) chunk) n = Z.shiftr old n.
Proof.
  intros Hn Hc. apply Z.bits_inj'. intros i Hi.
  rewrite !Z.shiftr_spec, Z.lor_spec, Z.land_spec, Z.lnot_spec by lia.
  rewrite Z.ones_spec_high by lia.
  assert (Hhigh : Z.testbit chunk (i + n) = false).
  { rewrite <- (Z.mod_small chunk (2 ^ n)) by lia.
    apply Z.mod_pow2_bits_high. lia. }
  rewrite Hhigh. cbn. rewrite andb_true_r, orb_false_r. reflexivity.
Qed.

(** The bits that [extract_lsb_bits] yields for a chunk are the bits that the
    chunk was read from. *)
Lemma chunk_bits_value bs :
  Forall is_bit bs -> (length bs = 1 \/ length bs = 2)%nat ->
  chunk_bits (length bs) (bits_value bs) = bs.
Proof.
  intros Hb [Hl | Hl]; enum_bits bs; reflexivity.
Qed.


Lemma iter_cons_nil it : iter_cons [] it = it.
Proof. destruct it; reflexivity. Qed.

Lemma iter_cons_app b1 b2 it :
  iter_cons (b1 ++ b2) it = iter_cons b1 (iter_cons b2 it).
Proof. unfold iter_cons. cbn. rewrite app_assoc. reflexivity. Qed.

Lemma window_app (l : list Z) (p a b : Z) :
  0 <= p -> 0 <= a -> 0 <= b ->
  take (Z.to_nat a) (drop (Z.to_nat p) l)
    ++ take (Z.to_nat b) (drop (Z.to_nat (p + a)) l)
  = take (Z.to_nat (a + b)) (drop (Z.to_nat p) l).
Proof.
  intros Hp Ha Hb. rewrite !Z2Nat.inj_add by lia.
  rewrite <- drop_drop. apply take_take_drop.
Qed.

Lemma setitem_valid {A : Type} (l : list A) (c : Z) (x : A) :
  0 <= c < Z.of_nat (length l) -> setitem l c x = Ok (<[Z.to_nat c := x]> l).
Proof.
  intros [H0 H1]. unfold setitem. destruct (Z.ltb_spec c 0); [lia|].
  destruct (Z.leb_spec 0 c); [|lia].
  destruct (Z.ltb_spec c (Z.of_nat (length l))); [reflexivity | lia].
Qed.

Lemma getitem_valid {A : Type} (l : list A) (c : Z) :
  0 <= c < Z.of_nat (length l) ->
  exists x, l !! Z.to_nat c = Some x /\ getitem l c = Ok x.
Proof.
  intros [H0 H1]. destruct (lookup_lt_is_Some_2 l (Z.to_nat c)) as [x Hx]; [lia|].
  exists x. split; [exact Hx | apply getitem_lookup; assumption].
Qed.

(** *** The walk over the channels of one pixel and over the pixels *)

Section Walk.

Variable data : list Z.
Variable bpc : Z.
Hypothesis Hbpc : bpc = 1 \/ bpc = 2.

Let L : Z := Z.of_nat (length data) * 8.
Let bits : list Z := bits_of_bytes data.
Let mask : Z := Z.shiftl 1 bpc - 1.

(** The reader of the payload with its cursor at [p]. *)
Definition reader (p : Z) : BitReader := mkBitReader data L p.

(** The cursor is on a chunk boundary: whole chunks are left. *)
Definition aligned (p : Z) : Prop := exists k, 0 <= k /\ L = p + bpc * k.

Lemma aligned_bounds p : 0 <= p -> aligned p -> 0 <= p <= L.
Proof. intros Hp (k & Hk & HL). destruct Hbpc; subst bpc; lia. Qed.

Lemma aligned_step p : aligned p -> p < L -> p + bpc <= L /\ aligned (p + bpc).
Proof.
  intros (k & Hk & HL) Hlt. assert (1 <= k) by (destruct Hbpc; subst bpc; lia).
  split; [destruct Hbpc; subst bpc; lia|].
  exists (k - 1). split; [lia|]. destruct Hbpc; subst bpc; lia.
Qed.

Lemma aligned_end p : 0 <= p -> aligned p -> ~ p < L -> p = L.
Proof. intros Hp Ha Hn. pose proof (aligned_bounds p Hp Ha). lia. Qed.

Lemma read_exhausted : read (reader L) bpc = Ok (None, reader L).
Proof.
  apply read_insufficient. unfold remaining_bits, reader. cbn.
  destruct Hbpc; subst bpc; lia.
Qed.

Lemma read_chunk p :
  0 <= p -> p + bpc <= L ->
  let bs := take (Z.to_nat bpc) (drop (Z.to_nat p) bits) in
  read (reader p) bpc = Ok (Some (bits_value bs), reader (p + bpc)) /\
  length bs = Z.to_nat bpc /\ Forall is_bit bs /\
  0 <= bits_value bs < 2 ^ bpc.
Proof.
  intros Hp Hle bs.
  assert (Hl : length bs = Z.to_nat bpc).
  { unfold bs, bits. rewrite length_take, length_drop, length_bits_of_bytes.
    unfold L in Hle. apply Nat.min_l. destruct Hbpc; subst bpc; lia. }
  assert (Hb : Forall is_bit bs)
    by (apply Forall_take, Forall_drop, Forall_bit_bits_of_bytes).
  split; [|split; [exact Hl | split; [exact Hb|]]].
  - rewrite read_sufficient; cbn; try reflexivity;
      try (unfold remaining_bits; cbn); destruct Hbpc; subst bpc; lia.
  - pose proof (bits_value_bounds bs Hb) as Hv. rewrite Hl in Hv.
    rewrite Z2Nat.id in Hv by (destruct Hbpc; subst bpc; lia). exact Hv.
Qed.


Lemma bpc_bounds : 1 <= bpc <= 2.
Proof. destruct Hbpc as [E | E]; rewrite E; lia. Qed.

(** What [embed_channels] does with a pixel: [p'] is where the cursor ends. *)
Lemma embed_channels_spec idxs : forall px changed p,
  0 <= p -> aligned p ->
  Forall (fun c => 0 <= c < Z.of_nat (length px)) idxs -> NoDup idxs ->
  let p' := Z.min L (p + bpc * Z.of_nat (length idxs)) in
  exists px' changed',
    embed_channels idxs (reader p) px changed mask bpc
    = Ok (reader p', px', changed') /\
    length px' = length px /\
    (forall j, Z.of_nat j ∉ idxs -> px' !! j = px !! j) /\
    (forall j v v', px !! j = Some v -> px' !! j = Some v' ->
                    Z.shiftr v' bpc = Z.shiftr v bpc) /\
    (changed = true -> changed' = true) /\
    (changed' = false -> px' = px) /\
    (forall later, exists later',
        pixel_bits px' idxs mask bpc later
        = iter_cons (take (Z.to_nat (p' - p)) (drop (Z.to_nat p) bits)) later' /\
        (p + bpc * Z.of_nat (length idxs) <= L -> later' = later)).
Proof.
  pose proof bpc_bounds as Hb12.
  induction idxs as [|c rest IH]; intros px changed p Hp Hal Hidx Hnd p'.
  - assert (p' = p).
    { pose proof (aligned_bounds p Hp Hal). unfold p'. cbn [length]. lia. }
    exists px, changed. rewrite H. cbn [embed_channels pixel_bits].
    repeat split; auto.
    + intros j v v' H1 H2. congruence.
    + intros later. exists later. rewrite Z.sub_diag. cbn. rewrite iter_cons_nil. auto.
  - inversion Hidx as [|? ? Hc Hrest]; subst. inversion Hnd as [|? ? Hnotin Hnd']; subst.
    pose proof (aligned_bounds p Hp Hal) as Hb.
    cbn [embed_channels].
    destruct (Z_lt_le_dec p L) as [Hlt | Hge].
    + (* a chunk is read and written *)
      destruct (aligned_step p Hal Hlt) as [Hle Hal1].
      destruct (read_chunk p Hp Hle) as (Hread & Hlen & Hbits & Hval).
      set (bs := take (Z.to_nat bpc) (drop (Z.to_nat p) bits)) in *.
      rewrite Hread. cbn [mbind result_bind].
      destruct (getitem_valid px c Hc) as (old & Hold & Hget).
      rewrite Hget. cbn [mbind result_bind].
      set (new := Z.lor (Z.land old (Z.lnot mask)) (bits_value bs)).
      rewrite setitem_valid by exact Hc. cbn [mbind result_bind].
      set (px1 := <[Z.to_nat c := new]> px).
      set (changed1 := if decide (new <> old) then true else changed).
      assert (Hlen1 : length px1 = length px) by apply length_insert.
      destruct (IH px1 changed1 (p + bpc)) as
        (px' & changed' & Heq & Hl' & Hout & Hhigh & Hmono & Hsame & Hstream);
        [lia | exact Hal1
        | rewrite Hlen1; exact Hrest | exact Hnd' |].
      assert (Hp' : Z.min L (p + bpc + bpc * Z.of_nat (length rest)) = p').
      { unfold p'. cbn [length]. f_equal. lia. }
      rewrite Hp' in *.
      assert (Hbn : 0 <= bpc) by lia.
      assert (Hnew_high : Z.shiftr new bpc = Z.shiftr old bpc).
      { unfold new, mask. rewrite mask_ones. apply high_bits_kept; assumption. }
      assert (Hnew_low : Z.land new mask = bits_value bs).
      { unfold new, mask. rewrite mask_ones. apply low_bits_written; assumption. }
      assert (Hcj : forall j, Z.of_nat j ∉ c :: rest -> j <> Z.to_nat c /\ Z.of_nat j ∉ rest).
      { intros j Hj. rewrite not_elem_of_cons in Hj. destruct Hj as [Hj1 Hj2].
        split; [lia | exact Hj2]. }
      exists px', changed'. rewrite Heq.
      split; [reflexivity|]. split; [lia|]. split; [|split; [|split; [|split]]].
      * intros j Hj. destruct (Hcj j Hj) as [Hne Hnr].
        rewrite (Hout j Hnr). unfold px1. apply list_lookup_insert_ne. lia.
      * intros j v v' Hv Hv'.
        destruct (decide (j = Z.to_nat c)) as [-> | Hne].
        -- assert (Hn1 : px1 !! Z.to_nat c = Some new)
             by (apply list_lookup_insert_eq; lia).
           rewrite (Hhigh _ _ _ Hn1 Hv'). rewrite Hold in Hv. injection Hv as <-.
           exact Hnew_high.
        -- apply (Hhigh j v v'); [|exact Hv'].
           unfold px1. rewrite list_lookup_insert_ne by lia. exact Hv.
      * intros ->. apply Hmono. unfold changed1. destruct (decide (new <> old)); reflexivity.
      * intros Hf. specialize (Hsame Hf). rewrite Hsame.
        assert (Hc1 : changed1 = false).
        { destruct changed1 eqn:E; [|reflexivity]. specialize (Hmono eq_refl). congruence. }
        unfold changed1 in Hc1. destruct (decide (new <> old)) as [|Heq']; [discriminate|].
        unfold px1. apply list_insert_id. rewrite Hold. f_equal.
        destruct (decide (new = old)); [congruence | contradiction].
      * intros later. destruct (Hstream later) as (later' & Hpb & Hlater).
        exists later'. cbn [pixel_bits].
        assert (Hpc : px' !! Z.to_nat c = Some new).
        { rewrite (Hout (Z.to_nat c)) by (rewrite Z2Nat.id by lia; exact Hnotin).
          apply list_lookup_insert_eq. lia. }
        rewrite (getitem_lookup px' c new) by (lia || exact Hpc).
        rewrite Hpb, Hnew_low. rewrite <- Hlen.
        rewrite chunk_bits_value;
          [|exact Hbits | rewrite Hlen; destruct Hbpc as [E|E]; rewrite E; [left|right]; reflexivity].
        rewrite <- iter_cons_app. unfold bs.
        assert (Hpp : p + bpc <= p') by (unfold p'; cbn [length]; nia).
        rewrite window_app by lia.
        replace (bpc + (p' - (p + bpc))) with (p' - p) by lia.
        split; [reflexivity|]. intros Hfit. apply Hlater. cbn [length] in Hfit. lia.
    + (* the reader is exhausted: break *)
      assert (p = L) by lia. subst p.
      rewrite read_exhausted. cbn [mbind result_bind].
      assert (Hp' : p' = L).
      { unfold p'. cbn [length]. nia. }
      rewrite Hp'. exists px, changed.
      repeat split; auto.
      * intros j v v' H1 H2. congruence.
      * intros later. eexists. rewrite Z.sub_diag. cbn [Z.to_nat take].
        rewrite take_0, iter_cons_nil. split; [reflexivity|].
        intros Hfit. cbn [length] in Hfit. nia.
Qed.


Lemma aligned_min p n : 0 <= n -> aligned p -> aligned (Z.min L (p + bpc * n)).
Proof.
  intros Hn (k & Hk & HL). pose proof bpc_bounds.
  destruct (Z_le_gt_dec (p + bpc * n) L).
  - rewrite Z.min_r by lia. exists (k - n). split; nia.
  - rewrite Z.min_l by lia. exists 0. split; lia.
Qed.

(** What the embedding leaves of a pixel: the channels that are not
    embeddable, and in every channel the bits above the low [bpc] ones. *)
Definition pixel_kept (idxs : list Z) (px px' : list Z) : Prop :=
  length px' = length px /\
  (forall j, Z.of_nat j ∉ idxs -> px' !! j = px !! j) /\
  (forall j v v', px !! j = Some v -> px' !! j = Some v' ->
                  Z.shiftr v' bpc = Z.shiftr v bpc).

Lemma pixel_kept_refl idxs px : pixel_kept idxs px px.
Proof. repeat split; auto. intros j v v' H1 H2. congruence. Qed.

(** What [embed_pixels] does with the pixels from the current one on. *)
Lemma embed_pixels_spec idxs pixels : forall p touched,
  0 <= p -> aligned p -> NoDup idxs ->
  Forall (fun px => Forall (fun c => 0 <= c < Z.of_nat (length px)) idxs) pixels ->
  let n := Z.of_nat (length idxs) in
  let p' := Z.min L (p + bpc * n * Z.of_nat (length pixels)) in
  exists pixels' touched',
    embed_pixels pixels idxs (reader p) touched mask bpc
    = Ok (reader p', pixels', touched') /\
    Forall2 (pixel_kept idxs) pixels pixels' /\
    (forall i, L <= p + bpc * n * Z.of_nat i -> pixels' !! i = pixels !! i) /\
    (exists later,
        lsb_bits_loop pixels' idxs mask bpc
        = iter_cons (take (Z.to_nat (p' - p)) (drop (Z.to_nat p) bits)) later).
Proof.
  pose proof bpc_bounds as Hb12.
  induction pixels as [|px rest IH]; intros p touched Hp Hal Hnd Hpx n p'.
  - pose proof (aligned_bounds p Hp Hal).
    assert (p' = p) by (unfold p'; cbn [length]; lia).
    exists [], touched. rewrite H0. cbn [embed_pixels lsb_bits_loop].
    split; [reflexivity|]. split; [constructor|]. split; [reflexivity|].
    exists (iter_of []). rewrite Z.sub_diag. cbn. reflexivity.
  - pose proof (aligned_bounds p Hp Hal) as Hb.
    inversion Hpx as [|? ? Hidx Hrest]; subst.
    cbn [embed_pixels]. change (has_bits (reader p)) with (p <? L).
    destruct (Z.ltb_spec p L) as [Hlt | Hge]; cbn [negb].
    + destruct (embed_channels_spec idxs px false p Hp Hal Hidx Hnd)
        as (px1 & changed1 & Heq & Hl1 & Hout1 & Hhigh1 & _ & Hsame1 & Hstream1).
      fold n in Heq, Hstream1.
      set (p1 := Z.min L (p + bpc * n)) in *.
      rewrite Heq. cbn [mbind result_bind].
      assert (Hpix : (if changed1 then px1 else px) = px1).
      { destruct changed1; [reflexivity|]. symmetry. apply Hsame1. reflexivity. }
      rewrite Hpix.
      assert (Hn0 : 0 <= n) by (unfold n; lia).
      assert (Hbn : 0 <= bpc * n) by nia.
      pose proof (Z.min_spec L (p + bpc * n)) as Hm1. fold p1 in Hm1.
      assert (Hp1 : p <= p1 <= L) by lia.
      destruct (IH p1 (if changed1 then touched + 1 else touched))
        as (rest' & touched' & Heq2 & Hkept & Hsame & later & Hstream2);
        [lia | apply aligned_min; assumption | exact Hnd | exact Hrest |].
      fold n in Heq2, Hstream2.
      assert (Hp' : Z.min L (p1 + bpc * n * Z.of_nat (length rest)) = p').
      { unfold p'. cbn [length]. rewrite Nat2Z.inj_succ.
        assert (0 <= bpc * n * Z.of_nat (length rest)) by nia.
        replace (bpc * n * Z.succ (Z.of_nat (length rest)))
          with (bpc * n + bpc * n * Z.of_nat (length rest)) by lia.
        lia. }
      rewrite Hp' in *.
      assert (Hp1p' : p1 <= p' <= L).
      { assert (0 <= bpc * n * Z.of_nat (length rest)) by nia. lia. }
      rewrite Heq2. cbn [mbind result_bind].
      exists (px1 :: rest'), touched'. split; [reflexivity|].
      split; [constructor; [repeat split; assumption | exact Hkept]|].
      split.
      * intros [|i] Hi; [cbn in Hi; lia|]. cbn [lookup list_lookup].
        apply Hsame. rewrite Nat2Z.inj_succ in Hi.
        assert (0 <= bpc * n * Z.of_nat i) by nia.
        replace (bpc * n * Z.succ (Z.of_nat i))
          with (bpc * n + bpc * n * Z.of_nat i) in Hi by lia.
        lia.
      * cbn [lsb_bits_loop].
        destruct (Hstream1 (lsb_bits_loop rest' idxs mask bpc)) as (later' & Hpb & Hlater).
        rewrite Hpb.
        destruct (Z_le_gt_dec (p + bpc * n) L) as [Hfit | Hover].
        -- rewrite (Hlater Hfit), Hstream2. exists later.
           rewrite <- iter_cons_app.
           replace (Z.to_nat p1) with (Z.to_nat (p + (p1 - p))) by (f_equal; lia).
           rewrite window_app by lia.
           f_equal. f_equal. f_equal. lia.
        -- exists later'. assert (p1 = L) by lia.
           assert (p' = L) by lia.
           congruence.
    + assert (p = L) by lia. subst p.
      assert (Hp' : p' = L).
      { unfold p'. apply Z.min_l.
        assert (0 <= bpc * n * Z.of_nat (length (px :: rest))) by (unfold n; nia). lia. }
      rewrite Hp'. exists (px :: rest), touched. split; [reflexivity|].
      split; [apply Forall2_same_length_lookup_2; [reflexivity|]|].
      { intros i x y H1 H2. rewrite H1 in H2. injection H2 as <-. apply pixel_kept_refl. }
      split; [reflexivity|].
      eexists. rewrite Z.sub_diag. cbn [Z.to_nat]. rewrite take_0, iter_cons_nil.
      reflexivity.
Qed.

End Walk.

End StegoSpec.


(** ** [hide_message] and [extract_message] *)

Module EngineSpec.

Import Bits Crypto Models PIL Stego BitSpec UTF8Spec CryptoSpec StegoSpec.

Lemma validate_ok bpc :
  bpc = 1 \/ bpc = 2 -> _validate_bits_per_channel bpc = Ok bpc.
Proof. intros [-> | ->]; reflexivity. Qed.

Lemma validate_bad bpc :
  ~ (1 <= bpc <= 2) ->
  _validate_bits_per_channel bpc = Raise (ValueError_bits_per_channel bpc).
Proof.
  intros H. unfold _validate_bits_per_channel, MIN_BITS_PER_CHANNEL, MAX_BITS_PER_CHANNEL.
  destruct (Z.leb_spec 1 bpc); destruct (Z.leb_spec bpc 2); cbn; try reflexivity. lia.
Qed.

(** The engine works on the image as it is: it is in RGB or RGBA mode already,
    and the embeddable channels are the first three. *)
Lemma prepare_image_eq image :
  _prepare_image image
  = (image, {| width := im_width image; height := im_height image;
               Models.mode := mode_name (im_mode image);
               embed_indexes := [0; 1; 2] |}).
Proof. destruct image as [[] w h d]; reflexivity. Qed.

Lemma capacity_prepared image bpc :
  capacity_bits (snd (_prepare_image image)) bpc
  = im_width image * im_height image * 3 * bpc.
Proof. rewrite prepare_image_eq. reflexivity. Qed.

Lemma well_formed_channels image :
  well_formed image ->
  Forall (fun px => Forall (fun c => 0 <= c < Z.of_nat (length px)) [0; 1; 2])
         (im_data image).
Proof.
  intros (_ & _ & _ & Hpx). eapply Forall_impl; [exact Hpx|].
  intros px Hl. cbn beta in Hl.
  assert (3 <= length px)%nat.
  { rewrite Hl. unfold getbands. destruct (im_mode image); cbn; lia. }
  repeat (constructor; [lia|]). constructor.
Qed.

Lemma NoDup_channels : NoDup [0; 1; 2].
Proof.
  repeat (constructor; [rewrite ?elem_of_cons, elem_of_nil; lia|]). constructor.
Qed.

Lemma aligned_start data bpc : bpc = 1 \/ bpc = 2 -> aligned data bpc 0.
Proof.
  intros [-> | ->].
  - exists (Z.of_nat (length data) * 8). lia.
  - exists (Z.of_nat (length data) * 4). lia.
Qed.


Lemma run_bind {A B : Type} (m : io A) (f : A -> io B) (fs : gmap string File) :
  run (m ≫= f) fs
  = match run m fs with
    | (Ok a, fs') => run (f a) fs'
    | (Raise e, fs') => (Raise e, fs')
    end.
Proof. reflexivity. Qed.

Lemma run_ret {A : Type} (a : A) (fs : gmap string File) :
  run (mret a) fs = (Ok a, fs).
Proof. reflexivity. Qed.

Lemma run_lift {A : Type} (r : result A) (fs : gmap string File) :
  run (lift r) fs = (r, fs).
Proof. reflexivity. Qed.

Lemma run_raise {A : Type} (e : exn) (fs : gmap string File) :
  run (raise (A := A) e) fs = (Raise e, fs).
Proof. reflexivity. Qed.

Lemma run_open (path : string) (fs : gmap string File) :
  run (PIL.open path) fs
  = match fs !! path with
    | Some f => (Ok (content f), fs)
    | None => (Raise FileNotFoundError, fs)
    end.
Proof. reflexivity. Qed.

Lemma run_stat_size (path : string) (fs : gmap string File) :
  run (stat_size path) fs
  = match fs !! path with
    | Some f => (Ok (st_size f), fs)
    | None => (Raise FileNotFoundError, fs)
    end.
Proof. reflexivity. Qed.

Lemma run_save (codec : Codec) (image : Image) (path : string)
    (fs : gmap string File) :
  run (save codec image path) fs
  = match encode codec path image with
    | Ok file => (Ok tt, <[path := file]> fs)
    | Raise e => (Raise e, on_error codec path fs)
    end.
Proof. reflexivity. Qed.

(** The codec of a path keeps the image: whatever image is saved to the path,
    the call succeeds and the file reads back as that image (a lossless
    format that holds the modes of the model, PNG for one). *)
Definition lossless (codec : Codec) (path : string) : Prop :=
  forall image, exists size, encode codec path image = Ok (mkFile image size).

Section Engine.

Variable codec : Codec.

(** What [hide_message] does with an in-capacity payload, whatever the codec
    is: the walk, and the call of [save] on the image that the walk leaves. *)
Lemma hide_message_run (fs : gmap string File) (input output : string)
    (message : list Z) (password : option (list Z)) (bpc : Z)
    (file : File) (payload : list Z) :
  fs !! input = Some file ->
  well_formed (content file) ->
  bpc = 1 \/ bpc = 2 ->
  build_payload message password = Ok payload ->
  Z.of_nat (length payload) * 8
    <= capacity_bits (snd (_prepare_image (content file))) bpc ->
  let image := content file in
  let L := Z.of_nat (length payload) * 8 in
  exists pixels' touched,
    let encoded :=
      mkImage (im_mode image) (im_width image) (im_height image) pixels' in
    embed_pixels (im_data image) [0; 1; 2] (Bits.init payload) 0
                 (Z.shiftl 1 bpc - 1) bpc
    = Ok (mkBitReader payload L L, pixels', touched) /\
    Forall2 (pixel_kept bpc [0; 1; 2]) (im_data image) pixels' /\
    (forall i, L <= bpc * 3 * Z.of_nat i -> pixels' !! i = im_data image !! i) /\
    (exists later,
        extract_lsb_bits pixels' [0; 1; 2] bpc
        = iter_cons (bits_of_bytes payload) later) /\
    run (hide_message codec input output message password bpc) fs
    = match encode codec output encoded with
      | Ok written =>
          (Ok {| payload_bits := L;
                 capacity_bits_ := im_width image * im_height image * 3 * bpc;
                 total_pixels_ := im_width image * im_height image;
                 channels_used := 3;
                 bits_per_channel := bpc;
                 pixels_touched := touched;
                 file_size_before :=
                   (if decide (input = output) then st_size written
                    else st_size file);
                 file_size_after := st_size written |},
           <[output := written]> fs)
      | Raise e => (Raise e, on_error codec output fs)
      end.
Proof.
  intros Hfs Hwf Hbpc Hpay Hcap image L.
  rewrite capacity_prepared in Hcap. fold image in Hcap.
  destruct (embed_pixels_spec payload bpc Hbpc [0; 1; 2] (im_data image) 0 0)
    as (pixels' & touched & Hwalk & Hkept & Hsame & later & Hstream);
    [lia | apply aligned_start; exact Hbpc | apply NoDup_channels
    | apply well_formed_channels; exact Hwf |].
  cbn [length] in Hwalk, Hsame, Hstream.
  destruct Hwf as (Hw & Hh & Hlen & Hpx). fold image in Hw, Hh, Hlen, Hpx.
  assert (Hend : Z.min L (0 + bpc * Z.of_nat 3 * Z.of_nat (length (im_data image))) = L).
  { apply Z.min_l. rewrite Hlen. fold L. lia. }
  fold L in Hwalk, Hstream. rewrite Hend in Hwalk, Hstream.
  replace (Z.to_nat (L - 0)) with (length (bits_of_bytes payload)) in Hstream
    by (rewrite length_bits_of_bytes; unfold L; lia).
  change (Z.to_nat 0) with 0%nat in Hstream. rewrite drop_0, firstn_all in Hstream.
  change (reader payload 0) with (Bits.init payload) in Hwalk.
  change (reader payload L) with (mkBitReader payload L L) in Hwalk.
  exists pixels', touched. cbv zeta.
  split; [exact Hwalk|]. split; [exact Hkept|].
  split; [intros i Hi; apply Hsame; lia|].
  split; [exists later; unfold extract_lsb_bits; exact Hstream|].
  set (encoded := mkImage (im_mode image) (im_width image) (im_height image) pixels').
  unfold hide_message.
  rewrite run_bind, run_lift, (validate_ok bpc Hbpc).
  rewrite run_bind, run_lift, Hpay.
  rewrite run_bind, run_open, Hfs. fold image. rewrite prepare_image_eq.
  cbv beta iota. cbn [embed_indexes].
  destruct (decide ([0; 1; 2] = [])) as [Hnil | _]; [discriminate Hnil|].
  change (total_bits (Bits.init payload)) with L.
  set (md := {| width := im_width image; height := im_height image;
                Models.mode := mode_name (im_mode image);
                embed_indexes := [0; 1; 2] |}).
  assert (Hmd : capacity_bits md bpc = im_width image * im_height image * 3 * bpc)
    by reflexivity.
  destruct (Z.gtb_spec L (capacity_bits md bpc)) as [Hgt | _]; [lia|].
  rewrite run_bind, run_lift, Hwalk. cbv beta iota.
  unfold has_bits. cbn [_position _bit_length]. rewrite Z.ltb_irrefl.
  rewrite run_bind, run_save. fold encoded.
  destruct (encode codec output encoded) as [written | e]; [|reflexivity].
  rewrite run_bind, run_stat_size.
  destruct (decide (input = output)) as [-> | Hne].
  - rewrite lookup_insert_eq.
    rewrite run_bind, run_stat_size, lookup_insert_eq.
    rewrite run_ret, Hmd. reflexivity.
  - rewrite lookup_insert_ne by auto. rewrite Hfs.
    rewrite run_bind, run_stat_size, lookup_insert_eq.
    rewrite run_ret, Hmd. reflexivity.
Qed.

(** What embedding an in-capacity payload does when the output format keeps
    the image. *)
Lemma hide_message_Ok (fs : gmap string File) (input output : string)
    (message : list Z) (password : option (list Z)) (bpc : Z)
    (file : File) (payload : list Z) :
  fs !! input = Some file ->
  well_formed (content file) ->
  bpc = 1 \/ bpc = 2 ->
  build_payload message password = Ok payload ->
  Z.of_nat (length payload) * 8
    <= capacity_bits (snd (_prepare_image (content file))) bpc ->
  lossless codec output ->
  let image := content file in
  let L := Z.of_nat (length payload) * 8 in
  exists pixels' report size,
    let encoded :=
      mkImage (im_mode image) (im_width image) (im_height image) pixels' in
    run (hide_message codec input output message password bpc) fs
    = (Ok report, <[output := mkFile encoded size]> fs) /\
    embed_pixels (im_data image) [0; 1; 2] (Bits.init payload) 0
                 (Z.shiftl 1 bpc - 1) bpc
    = Ok (mkBitReader payload L L, pixels', pixels_touched report) /\
    Forall2 (pixel_kept bpc [0; 1; 2]) (im_data image) pixels' /\
    (forall i, L <= bpc * 3 * Z.of_nat i -> pixels' !! i = im_data image !! i) /\
    (exists later,
        extract_lsb_bits pixels' [0; 1; 2] bpc
        = iter_cons (bits_of_bytes payload) later) /\
    payload_bits report = L /\
    capacity_bits_ report = im_width image * im_height image * 3 * bpc.
Proof.
  intros Hfs Hwf Hbpc Hpay Hcap Hcodec image L.
  destruct (hide_message_run fs input output message password bpc file payload
              Hfs Hwf Hbpc Hpay Hcap)
    as (pixels' & touched & Hwalk & Hkept & Hsame & Hstream & Hrun).
  cbv zeta in Hrun. fold image L in Hwalk, Hkept, Hsame, Hrun.
  destruct (Hcodec (mkImage (im_mode image) (im_width image) (im_height image)
                            pixels')) as [size Hsize].
  rewrite Hsize in Hrun.
  eexists pixels', _, size. cbv zeta. split; [exact Hrun|].
  cbn [pixels_touched payload_bits capacity_bits_].
  repeat (split; [assumption|]). split; reflexivity.
Qed.

(** What extraction reads from pixels that carry a frame. *)
Lemma extract_message_run (fs : gmap string File) (path : string) (file : File)
    (bpc : Z) (body : list Z) (later : bit_iter) (password : option (list Z)) :
  fs !! path = Some file ->
  bpc = 1 \/ bpc = 2 ->
  Z.of_nat (length body) < 4294967296 ->
  Forall is_byte body ->
  extract_lsb_bits (im_data (content file)) [0; 1; 2] bpc
  = iter_cons (bits_of_bytes
                 (HEADER_MAGIC ++ SHA256.be32 (Z.of_nat (length body)) ++ body))
              later ->
  run (extract_message path password bpc) fs
  = (decrypt_payload body password, fs).
Proof.
  intros Hfs Hbpc Hlen Hbody Hstream. unfold extract_message.
  rewrite run_bind, run_lift, (validate_ok bpc Hbpc).
  rewrite run_bind, run_open, Hfs. rewrite prepare_image_eq.
  cbv beta iota. cbn [embed_indexes].
  destruct (decide ([0; 1; 2] = [])) as [Hnil | _]; [discriminate Hnil|].
  rewrite Hstream.
  set (header := HEADER_MAGIC ++ SHA256.be32 (Z.of_nat (length body))).
  rewrite (app_assoc HEADER_MAGIC), bits_of_bytes_app, iter_cons_app. fold header.
  assert (Hhead : Forall is_byte header).
  { unfold header. apply Forall_app. split; [|apply be32_bytes].
    unfold HEADER_MAGIC, is_byte. repeat (constructor; [lia|]). constructor. }
  change (HEADER_SIZE * 8) with (Z.of_nat (length header) * 8).
  rewrite run_bind, run_lift, (bits_to_bytes_of_bytes header _ Hhead).
  cbv beta iota.
  assert (Hparse : parse_header header = Ok (Z.of_nat (length body))).
  { unfold header. rewrite <- (app_nil_r (SHA256.be32 _)).
    apply parse_header_frame. lia. }
  rewrite run_bind, run_lift, Hparse.
  rewrite run_bind, run_lift, (bits_to_bytes_of_bytes body _ Hbody).
  cbv beta iota. apply run_lift.
Qed.

(** Hiding with one password and extracting with another one: extraction
    decrypts the body of the payload with the second password. *)
Lemma hide_then_extract (fs : gmap string File) (input output : string)
    (message : list Z) (password : option (list Z)) (bpc : Z)
    (file : File) (payload : list Z) :
  fs !! input = Some file ->
  well_formed (content file) ->
  bpc = 1 \/ bpc = 2 ->
  build_payload message password = Ok payload ->
  Z.of_nat (length payload) * 8
    <= capacity_bits (snd (_prepare_image (content file))) bpc ->
  lossless codec output ->
  exists report fs' plain body,
    run (hide_message codec input output message password bpc) fs
    = (Ok report, fs') /\
    UTF8.encode message = Ok plain /\
    xor_encrypt plain password = Ok body /\
    Forall is_byte body /\ Z.of_nat (length body) < 4294967296 /\
    payload = HEADER_MAGIC ++ SHA256.be32 (Z.of_nat (length body)) ++ body /\
    forall password',
      run (extract_message output password' bpc) fs'
      = (decrypt_payload body password', fs').
Proof.
  intros Hfs Hwf Hbpc Hpay Hcap Hcodec.
  destruct (hide_message_Ok fs input output message password bpc file payload
              Hfs Hwf Hbpc Hpay Hcap Hcodec)
    as (pixels' & report & size & Hrun & _ & _ & _ & (later & Hstream) & _).
  destruct (build_payload_Ok _ _ _ Hpay)
    as (plain & body & Hplain & Hbody & Hlen & _ & Hbytes & Heq).
  eexists report, _, plain, body. split; [exact Hrun|].
  repeat (split; [assumption|]).
  intros password'.
  eapply extract_message_run; [apply lookup_insert_eq | assumption..|].
  cbn [content im_data]. rewrite Hstream, Heq. reflexivity.
Qed.

End Engine.

End EngineSpec.


(** ** The properties of the engine *)

Module Claims.

Import Bits Crypto Models PIL Stego BitSpec UTF8Spec CryptoSpec StegoSpec EngineSpec.

Lemma demo_well_formed : well_formed Demo.image.
Proof.
  unfold well_formed. cbn. repeat split; try lia.
  repeat (constructor; [reflexivity|]). constructor.
Qed.

Lemma demo_lossless : lossless Demo.codec "out.png".
Proof. intros image. eexists. reflexivity. Qed.

(** C3. The capacity in bits is width * height * number of embeddable channels
    * bits per channel; for an image as the engine prepares it, that is
    width * height * 3 * bits per channel. *)
Theorem capacity_formula (metadata : ImageMetadata) (image : Image) (n : Z) :
  capacity_bits metadata n
  = width metadata * height metadata
    * Z.of_nat (length (embed_indexes metadata)) * n /\
  capacity_bits (snd (_prepare_image image)) n
  = im_width image * im_height image * 3 * n.
Proof. split; [reflexivity | apply capacity_prepared]. Qed.

(** Two passwords that are not empty encrypt the same bytes to the same bytes
    exactly when their key streams of that length are the same. *)
Lemma same_bytes_same_key_stream (plain pw pw' ks ks' : list Z) :
  Forall is_byte plain -> pw <> [] -> pw' <> [] ->
  derive_key_stream pw (Z.of_nat (length plain)) = Ok ks ->
  derive_key_stream pw' (Z.of_nat (length plain)) = Ok ks' ->
  xor_encrypt plain (Some pw') = xor_encrypt plain (Some pw) <-> ks' = ks.
Proof.
  intros Hplain Hpw Hpw' Hks Hks'.
  destruct (derive_key_stream_Ok _ _ _ (Nat2Z.is_nonneg _) Hks) as [Hl Hb].
  destruct (derive_key_stream_Ok _ _ _ (Nat2Z.is_nonneg _) Hks') as [Hl' Hb'].
  destruct pw as [|c pw]; [contradiction|].
  destruct pw' as [|c' pw']; [contradiction|].
  cbn [xor_encrypt]. rewrite Hks, Hks'. cbn [mbind result_bind].
  rewrite !to_bytes_id by (apply zip_lxor_bytes; assumption).
  split.
  - intros H. injection H as H. apply (zip_lxor_cancel plain); [lia | lia | exact H].
  - intros ->. reflexivity.
Qed.

Section Engine.

Variable codec : Codec.

(** C1. Round trip: when the payload of a message and a password exists, its
    bit length is at most the capacity of the image for a [bits_per_channel]
    of 1 or 2, and the format of the output path keeps the image that is
    saved to it, [hide_message] succeeds and [extract_message], run with the
    same password and [bits_per_channel] on the file that was written,
    returns the message. *)
Theorem hide_extract_round_trip (fs : gmap string File) (input output : string)
    (message : list Z) (password : option (list Z)) (bpc : Z)
    (file : File) (payload : list Z) :
  fs !! input = Some file ->
  well_formed (content file) ->
  bpc = 1 \/ bpc = 2 ->
  build_payload message password = Ok payload ->
  Z.of_nat (length payload) * 8
    <= capacity_bits (snd (_prepare_image (content file))) bpc ->
  lossless codec output ->
  exists report fs',
    run (hide_message codec input output message password bpc) fs
    = (Ok report, fs') /\
    run (extract_message output password bpc) fs' = (Ok message, fs').
Proof.
  intros Hfs Hwf Hbpc Hpay Hcap Hcodec.
  destruct (hide_then_extract codec fs input output message password bpc
              file payload Hfs Hwf Hbpc Hpay Hcap Hcodec)
    as (report & fs' & plain & body & Hrun & Hplain & Hbody & Hbytes & _ & _ & Hex).
  exists report, fs'. split; [exact Hrun|]. rewrite Hex.
  unfold decrypt_payload.
  destruct (xor_encrypt_Ok plain password body) as (_ & _ & Hback);
    [eapply encode_bytes; eauto | exact Hbody |].
  rewrite Hback. cbn [mbind result_bind]. rewrite (decode_encode _ _ Hplain).
  reflexivity.
Qed.

(** C9. Under the capacity pre-check the walk consumes the whole payload: the
    reader that the loop of [hide_message] leaves has no unread bits, so the
    "not embedded" error is not raised: [hide_message] goes on to save the
    image, and it returns a report when [save] returns and raises what
    [save] raises, and nothing else. *)
Theorem payload_fully_consumed (fs : gmap string File) (input output : string)
    (message : list Z) (password : option (list Z)) (bpc : Z)
    (file : File) (payload : list Z) :
  fs !! input = Some file ->
  well_formed (content file) ->
  bpc = 1 \/ bpc = 2 ->
  build_payload message password = Ok payload ->
  Z.of_nat (length payload) * 8
    <= capacity_bits (snd (_prepare_image (content file))) bpc ->
  let working := fst (_prepare_image (content file)) in
  let metadata := snd (_prepare_image (content file)) in
  exists bit_reader pixels touched,
    embed_pixels (im_data working) (embed_indexes metadata)
                 (Bits.init payload) 0 (Z.shiftl 1 bpc - 1) bpc
    = Ok (bit_reader, pixels, touched) /\
    has_bits bit_reader = false /\
    _position bit_reader = total_bits (Bits.init payload) /\
    total_bits (Bits.init payload) = Z.of_nat (length payload) * 8 /\
    let encoded :=
      mkImage (im_mode working) (im_width working) (im_height working) pixels in
    (forall written,
        encode codec output encoded = Ok written ->
        exists report,
          run (hide_message codec input output message password bpc) fs
          = (Ok report, <[output := written]> fs)) /\
    (forall e,
        fst (run (hide_message codec input output message password bpc) fs)
        = Raise e <->
        encode codec output encoded = Raise e).
Proof.
  intros Hfs Hwf Hbpc Hpay Hcap working metadata.
  destruct (hide_message_run codec fs input output message password bpc
              file payload Hfs Hwf Hbpc Hpay Hcap)
    as (pixels' & touched & Hwalk & _ & _ & _ & Hrun).
  cbv zeta in Hrun.
  unfold working, metadata. rewrite prepare_image_eq. cbn [fst snd embed_indexes].
  eexists _, pixels', touched. split; [exact Hwalk|].
  split; [unfold has_bits; cbn; apply Z.ltb_irrefl|].
  split; [reflexivity|]. split; [reflexivity|]. cbv zeta. rewrite Hrun.
  destruct (encode codec output _) as [written | e0]; cbv beta iota; split.
  - intros w Hw. injection Hw as <-. eauto.
  - intros e. split; intros H; discriminate H.
  - intros w Hw. discriminate Hw.
  - intros e. split; intros H; injection H as ->; reflexivity.
Qed.


(** C8. Over capacity: when the bit length of the payload exceeds the
    capacity of the image, [hide_message] raises the capacity error, which
    carries both numbers, and leaves the files as they were. *)
Theorem over_capacity_fails (fs : gmap string File) (input output : string)
    (message : list Z) (password : option (list Z)) (bpc : Z)
    (file : File) (payload : list Z) :
  fs !! input = Some file ->
  bpc = 1 \/ bpc = 2 ->
  build_payload message password = Ok payload ->
  capacity_bits (snd (_prepare_image (content file))) bpc
    < Z.of_nat (length payload) * 8 ->
  run (hide_message codec input output message password bpc) fs
  = (Raise (ValueError_capacity
              (Z.of_nat (length payload) * 8)
              (capacity_bits (snd (_prepare_image (content file))) bpc)),
     fs).
Proof.
  intros Hfs Hbpc Hpay Hcap. unfold hide_message.
  rewrite run_bind, run_lift, (validate_ok bpc Hbpc).
  rewrite run_bind, run_lift, Hpay.
  rewrite run_bind, run_open, Hfs.
  rewrite prepare_image_eq in *. cbv beta iota. cbn [snd embed_indexes] in *.
  destruct (decide ([0; 1; 2] = [])) as [Hnil | _]; [discriminate Hnil|].
  change (total_bits (Bits.init payload)) with (Z.of_nat (length payload) * 8).
  match goal with
  | |- context [?a >? ?b] => destruct (Z.gtb_spec a b) as [_ | Hle]; [|lia]
  end.
  apply run_raise.
Qed.

(** Extraction with a second password returns the message exactly when the
    second password encrypts the message to the same bytes as the first. *)
Lemma cross_password_extraction (fs : gmap string File) (input output : string)
    (message : list Z) (password password' : option (list Z)) (bpc : Z)
    (file : File) (payload plain : list Z) :
  fs !! input = Some file ->
  well_formed (content file) ->
  bpc = 1 \/ bpc = 2 ->
  build_payload message password = Ok payload ->
  Z.of_nat (length payload) * 8
    <= capacity_bits (snd (_prepare_image (content file))) bpc ->
  lossless codec output ->
  UTF8.encode message = Ok plain ->
  exists report fs' body,
    run (hide_message codec input output message password bpc) fs
    = (Ok report, fs') /\
    xor_encrypt plain password = Ok body /\
    run (extract_message output password' bpc) fs'
    = (decrypt_payload body password', fs') /\
    (decrypt_payload body password' = Ok message <->
     xor_encrypt plain password' = Ok body) /\
    (usable password' ->
     forall e, decrypt_payload body password' = Raise e -> e = UnicodeDecodeError).
Proof.
  intros Hfs Hwf Hbpc Hpay Hcap Hcodec Hplain.
  destruct (hide_then_extract codec fs input output message password bpc
              file payload Hfs Hwf Hbpc Hpay Hcap Hcodec)
    as (report & fs' & plain' & body & Hrun & Hplain' & Hbody & Hbytes & Hlen & _ & Hex).
  assert (plain' = plain) by congruence. subst plain'.
  exists report, fs', body. split; [exact Hrun|]. split; [exact Hbody|].
  split; [apply Hex|]. split; [split|].
  - (* the message comes back: the decrypted bytes are its encoding *)
    unfold decrypt_payload. intros H. apply bind_Ok in H as (d & Hd & Hdec).
    apply encode_decode in Hdec. assert (d = plain) by congruence. subst d.
    destruct (xor_encrypt_Ok body password' plain Hbytes Hd) as (_ & _ & Hback).
    exact Hback.
  - intros H.
    destruct (xor_encrypt_Ok plain password' body) as (_ & _ & Hback);
      [eapply encode_bytes; eauto | exact H |].
    unfold decrypt_payload. rewrite Hback. cbn [mbind result_bind].
    apply decode_encode. exact Hplain.
  - intros Hu e He. unfold decrypt_payload in He.
    destruct (xor_encrypt_total body password' Hbytes Hu) as [d Hd]; [lia|].
    rewrite Hd in He. cbn [mbind result_bind] in He.
    eapply decode_raises; eauto.
Qed.

(** C2, as amended.  What extraction with a second password gives is decided
    by the bytes that the two passwords make of the message: when the second
    password encrypts the UTF-8 bytes of the message to the bytes that the
    first one does, extraction with the second password returns the message;
    when it does not, extraction fails with [UnicodeDecodeError] or returns
    a string that is not the message.  Two passwords that are not empty
    encrypt the bytes of the message to the same bytes exactly when their key
    streams agree on as many bytes as the message has. *)
Theorem wrong_password_changes_message (fs : gmap string File)
    (input output : string) (message : list Z)
    (password password' : option (list Z)) (bpc : Z)
    (file : File) (payload plain : list Z) :
  fs !! input = Some file ->
  well_formed (content file) ->
  bpc = 1 \/ bpc = 2 ->
  build_payload message password = Ok payload ->
  Z.of_nat (length payload) * 8
    <= capacity_bits (snd (_prepare_image (content file))) bpc ->
  lossless codec output ->
  UTF8.encode message = Ok plain ->
  usable password' ->
  exists report fs',
    run (hide_message codec input output message password bpc) fs
    = (Ok report, fs') /\
    (xor_encrypt plain password' = xor_encrypt plain password ->
     run (extract_message output password' bpc) fs' = (Ok message, fs')) /\
    (xor_encrypt plain password' <> xor_encrypt plain password ->
     run (extract_message output password' bpc) fs'
     = (Raise UnicodeDecodeError, fs') \/
     exists s, run (extract_message output password' bpc) fs' = (Ok s, fs')
               /\ s <> message) /\
    (forall pw pw' ks ks',
        password = Some pw -> password' = Some pw' -> pw <> [] -> pw' <> [] ->
        derive_key_stream pw (Z.of_nat (length plain)) = Ok ks ->
        derive_key_stream pw' (Z.of_nat (length plain)) = Ok ks' ->
        xor_encrypt plain password' = xor_encrypt plain password <-> ks' = ks).
Proof.
  intros Hfs Hwf Hbpc Hpay Hcap Hcodec Hplain Hu.
  destruct (cross_password_extraction fs input output message password password'
              bpc file payload plain Hfs Hwf Hbpc Hpay Hcap Hcodec Hplain)
    as (report & fs' & body & Hrun & Hbody & Hex & Hiff & Herr).
  exists report, fs'. split; [exact Hrun|]. rewrite Hex. split; [|split].
  - intros Hsame. f_equal. apply Hiff. rewrite Hsame. exact Hbody.
  - intros Hdiff. destruct (decrypt_payload body password') as [s | e] eqn:Hd.
    + right. exists s. split; [reflexivity|]. intros ->.
      apply Hdiff. rewrite Hbody. apply Hiff. reflexivity.
    + left. rewrite (Herr Hu e eq_refl). reflexivity.
  - intros pw pw' ks ks' -> -> Hpw Hpw' Hks Hks'.
    apply same_bytes_same_key_stream; try assumption.
    eapply encode_bytes; eauto.
Qed.

(** C10. The empty password is no password: [xor_encrypt] with the empty
    string returns the data as they are, as it does without a password; the
    payload built with the empty password is the one built without a
    password and holds the UTF-8 bytes of the message in the clear; and,
    when the format of the output path keeps the image, extracting it with a
    password that is absent or empty returns the message. *)
Theorem empty_password_is_no_password (fs : gmap string File)
    (input output : string) (message : list Z) (password' : option (list Z))
    (bpc : Z) (file : File) (payload : list Z) :
  falsy password' = true ->
  fs !! input = Some file ->
  well_formed (content file) ->
  bpc = 1 \/ bpc = 2 ->
  build_payload message (Some []) = Ok payload ->
  Z.of_nat (length payload) * 8
    <= capacity_bits (snd (_prepare_image (content file))) bpc ->
  lossless codec output ->
  (forall data, xor_encrypt data (Some []) = Ok data /\
                xor_encrypt data None = Ok data) /\
  build_payload message None = Ok payload /\
  (exists plain,
      UTF8.encode message = Ok plain /\
      payload = HEADER_MAGIC ++ SHA256.be32 (Z.of_nat (length plain)) ++ plain) /\
  exists report fs',
    run (hide_message codec input output message (Some []) bpc) fs
    = (Ok report, fs') /\
    run (extract_message output password' bpc) fs' = (Ok message, fs').
Proof.
  intros Hfalsy Hfs Hwf Hbpc Hpay Hcap Hcodec.
  split; [intros data; split; reflexivity|].
  split; [exact Hpay|].
  destruct (build_payload_Ok _ _ _ Hpay)
    as (plain & body & Hplain & Hbody & _ & _ & _ & Heq).
  cbn [xor_encrypt] in Hbody. injection Hbody as <-.
  split; [exists plain; auto|].
  destruct (cross_password_extraction fs input output message (Some []) password'
              bpc file payload plain Hfs Hwf Hbpc Hpay Hcap Hcodec Hplain)
    as (report & fs' & body & Hrun & Hbody & Hex & Hiff & _).
  exists report, fs'. split; [exact Hrun|]. rewrite Hex.
  f_equal. apply Hiff. cbn [xor_encrypt] in Hbody. rewrite <- Hbody.
  destruct password' as [[|c p]|]; try discriminate Hfalsy; reflexivity.
Qed.

End Engine.

(** *** Examples on the demonstration image *)

(** The message "A" with the password "pw". *)
Lemma hide_extract_round_trip_witness :
  exists report fs',
    run (hide_message Demo.codec "in.png" "out.png" [65] (Some [112; 119]) 1)
        Demo.files = (Ok report, fs') /\
    run (extract_message "out.png" (Some [112; 119]) 1) fs' = (Ok [65], fs').
Proof.
  apply (hide_extract_round_trip Demo.codec Demo.files "in.png" "out.png" [65]
           (Some [112; 119]) 1 (mkFile Demo.image 9000)
           [76; 83; 66; 77; 83; 71; 49; 0; 0; 0; 1; 116]).
  - reflexivity.
  - apply demo_well_formed.
  - left. reflexivity.
  - vm_compute. reflexivity.
  - vm_compute. discriminate.
  - apply demo_lossless.
Defined.

Lemma payload_fully_consumed_witness :
  fst (run (hide_message Demo.codec "in.png" "out.png" [65] (Some [112; 119]) 1)
           Demo.files)
  <> Raise RuntimeError_not_embedded.
Proof.
  destruct (payload_fully_consumed Demo.codec Demo.files "in.png" "out.png" [65]
              (Some [112; 119]) 1 (mkFile Demo.image 9000)
              [76; 83; 66; 77; 83; 71; 49; 0; 0; 0; 1; 116])
    as (bit_reader & pixels & touched & _ & _ & _ & _ & _ & Hraise).
  - reflexivity.
  - apply demo_well_formed.
  - left. reflexivity.
  - vm_compute. reflexivity.
  - vm_compute. discriminate.
  - intros H. apply Hraise in H. discriminate H.
Defined.


(** The message "AB" needs 104 bits, the image holds 96. *)
Lemma over_capacity_fails_witness :
  run (hide_message Demo.codec "in.png" "out.png" [65; 66] None 1) Demo.files
  = (Raise (ValueError_capacity 104 96), Demo.files).
Proof.
  apply (over_capacity_fails Demo.codec Demo.files "in.png" "out.png" [65; 66]
           None 1 (mkFile Demo.image 9000)
           [76; 83; 66; 77; 83; 71; 49; 0; 0; 0; 2; 65; 66]).
  - reflexivity.
  - left. reflexivity.
  - vm_compute. reflexivity.
  - vm_compute. reflexivity.
Defined.

(** C2 as stated fails, and not for the empty message only.  The empty
    message hidden with the password "correct" comes back when it is
    extracted with the password "wrong"; and the message "A" hidden with the
    password "i" comes back when it is extracted with the password "m": the
    key streams of "i" and "m" both start with the byte 132. *)
Lemma wrong_password_returns_message :
  (Some [99; 111; 114; 114; 101; 99; 116] <> Some [119; 114; 111; 110; 103] /\
   exists report fs',
     run (hide_message Demo.codec "in.png" "out.png" []
                       (Some [99; 111; 114; 114; 101; 99; 116]) 1) Demo.files
     = (Ok report, fs') /\
     run (extract_message "out.png" (Some [119; 114; 111; 110; 103]) 1) fs'
     = (Ok [], fs')) /\
  (Some [105] <> Some [109] /\
   exists report fs',
     run (hide_message Demo.codec "in.png" "out.png" [65] (Some [105]) 1)
         Demo.files
     = (Ok report, fs') /\
     run (extract_message "out.png" (Some [109]) 1) fs' = (Ok [65], fs')).
Proof.
  split; (split; [discriminate|]).
  - destruct (hide_then_extract Demo.codec Demo.files "in.png" "out.png" []
                (Some [99; 111; 114; 114; 101; 99; 116]) 1 (mkFile Demo.image 9000)
                [76; 83; 66; 77; 83; 71; 49; 0; 0; 0; 0])
      as (report & fs' & plain & body & Hrun & Hplain & Hbody & _ & _ & _ & Hex).
    + reflexivity.
    + apply demo_well_formed.
    + left. reflexivity.
    + vm_compute. reflexivity.
    + vm_compute. discriminate.
    + apply demo_lossless.
    + exists report, fs'. split; [exact Hrun|]. rewrite Hex.
      (* the body is empty, and so is what any password decrypts it to *)
      injection Hplain as <-. vm_compute in Hbody. injection Hbody as <-.
      vm_compute. reflexivity.
  - destruct (hide_then_extract Demo.codec Demo.files "in.png" "out.png" [65]
                (Some [105]) 1 (mkFile Demo.image 9000)
                [76; 83; 66; 77; 83; 71; 49; 0; 0; 0; 1; 197])
      as (report & fs' & plain & body & Hrun & Hplain & Hbody & _ & _ & _ & Hex).
    + reflexivity.
    + apply demo_well_formed.
    + left. reflexivity.
    + vm_compute. reflexivity.
    + vm_compute. discriminate.
    + apply demo_lossless.
    + exists report, fs'. split; [exact Hrun|]. rewrite Hex.
      injection Hplain as <-. vm_compute in Hbody. injection Hbody as <-.
      vm_compute. reflexivity.
Qed.

(** "A" hidden with "pw" and extracted with "p". *)
Lemma wrong_password_changes_message_witness :
  exists report fs',
    run (hide_message Demo.codec "in.png" "out.png" [65] (Some [112; 119]) 1)
        Demo.files = (Ok report, fs') /\
    (run (extract_message "out.png" (Some [112]) 1) fs'
     = (Raise UnicodeDecodeError, fs') \/
     exists s, run (extract_message "out.png" (Some [112]) 1) fs' = (Ok s, fs')
               /\ s <> [65]).
Proof.
  destruct (wrong_password_changes_message Demo.codec Demo.files "in.png" "out.png"
              [65] (Some [112; 119]) (Some [112]) 1 (mkFile Demo.image 9000)
              [76; 83; 66; 77; 83; 71; 49; 0; 0; 0; 1; 116] [65])
    as (report & fs' & Hrun & _ & Hdiff & _).
  - reflexivity.
  - apply demo_well_formed.
  - left. reflexivity.
  - vm_compute. reflexivity.
  - vm_compute. discriminate.
  - apply demo_lossless.
  - reflexivity.
  - exists [112]. reflexivity.
  - exists report, fs'. split; [exact Hrun|]. apply Hdiff.
    vm_compute. discriminate.
Defined.

(** "A" hidden with the empty password and extracted without a password. *)
Lemma empty_password_is_no_password_witness :
  build_payload [65] (Some []) = Ok [76; 83; 66; 77; 83; 71; 49; 0; 0; 0; 1; 65] /\
  exists report fs',
    run (hide_message Demo.codec "in.png" "out.png" [65] (Some []) 1)
        Demo.files = (Ok report, fs') /\
    run (extract_message "out.png" None 1) fs' = (Ok [65], fs').
Proof.
  split; [reflexivity|].
  destruct (empty_password_is_no_password Demo.codec Demo.files "in.png"
              "out.png" [65] None 1 (mkFile Demo.image 9000)
              [76; 83; 66; 77; 83; 71; 49; 0; 0; 0; 1; 65])
    as (_ & _ & _ & H).
  - reflexivity.
  - reflexivity.
  - apply demo_well_formed.
  - left. reflexivity.
  - reflexivity.
  - vm_compute. discriminate.
  - apply demo_lossless.
  - exact H.
Defined.

End Claims.


(** * Further properties of the code *)

(** ** The bit reader, the packer and the bit generator *)

Module BitProps.

Import Bits BitSpec StegoSpec.

(** The side conditions of a read on a reader that is written out. *)
Ltac side :=
  first [ reflexivity | cbn; lia | unfold remaining_bits; cbn; lia ].

Lemma bits_value_from_shift bs : forall v,
  bits_value_from v bs = v * 2 ^ Z.of_nat (length bs) + bits_value bs.
Proof.
  unfold bits_value, bits_value_from.
  induction bs as [|b bs IH]; intros v.
  - cbn. lia.
  - cbn [fold_left length]. rewrite (IH (2 * v + b)), (IH (2 * 0 + b)).
    rewrite Nat2Z.inj_succ, Z.pow_succ_r by lia. ring.
Qed.

Lemma bits_of_bytes_window data i b :
  data !! i = Some b ->
  take 8 (drop (8 * i) (bits_of_bytes data)) = bits_of_byte b.
Proof.
  intros H. rewrite <- (take_drop_middle data i b H) at 1.
  rewrite bits_of_bytes_app, bits_of_bytes_cons.
  assert (Hl : length (bits_of_bytes (take i data)) = (8 * i)%nat).
  { rewrite length_bits_of_bytes, length_take.
    apply lookup_lt_Some in H. lia. }
  rewrite drop_app_length' by (symmetry; exact Hl).
  rewrite take_app_length' by (symmetry; apply length_bits_of_byte). reflexivity.
Qed.

(** X1. Two reads in a row are one read of the sum of the widths: when
    [w1 + w2] bits are left, reading [w1] bits and then [w2] bits returns
    [v1] and [v2] with [v1 * 2 ^ w2 + v2] the value that one read of
    [w1 + w2] bits returns, and both ways leave the same reader. *)
Theorem read_then_read (data : list Z) (pos w1 w2 : Z) :
  0 <= pos -> 0 <= w1 -> 0 <= w2 ->
  pos + w1 + w2 <= Z.of_nat (length data) * 8 ->
  let self := mkBitReader data (Z.of_nat (length data) * 8) pos in
  exists v1 v2 mid last,
    read self w1 = Ok (Some v1, mid) /\
    read mid w2 = Ok (Some v2, last) /\
    read self (w1 + w2) = Ok (Some (v1 * 2 ^ w2 + v2), last) /\
    0 <= v1 < 2 ^ w1 /\ 0 <= v2 < 2 ^ w2 /\
    _position last = pos + w1 + w2.
Proof.
  intros Hpos H1 H2 Hlen self.
  set (bits := bits_of_bytes data).
  set (b1 := take (Z.to_nat w1) (drop (Z.to_nat pos) bits)).
  set (b2 := take (Z.to_nat w2) (drop (Z.to_nat (pos + w1)) bits)).
  assert (Hbits : length bits = Z.to_nat (Z.of_nat (length data) * 8)).
  { unfold bits. rewrite length_bits_of_bytes. lia. }
  assert (Hl1 : length b1 = Z.to_nat w1).
  { unfold b1. rewrite length_take, length_drop. lia. }
  assert (Hl2 : length b2 = Z.to_nat w2).
  { unfold b2. rewrite length_take, length_drop. lia. }
  assert (Hb1 : Forall is_bit b1)
    by apply Forall_take, Forall_drop, Forall_bit_bits_of_bytes.
  assert (Hb2 : Forall is_bit b2)
    by apply Forall_take, Forall_drop, Forall_bit_bits_of_bytes.
  exists (bits_value b1), (bits_value b2),
    (mkBitReader data (Z.of_nat (length data) * 8) (pos + w1)),
    (mkBitReader data (Z.of_nat (length data) * 8) (pos + w1 + w2)).
  split; [|split; [|split; [|split; [|split]]]].
  - unfold self. rewrite read_sufficient; [reflexivity | side ..].
  - rewrite read_sufficient; [reflexivity | side ..].
  - unfold self. rewrite read_sufficient; [| side ..].
    cbn [_data _position set_position _bit_length]. fold bits.
    rewrite <- (window_app bits pos w1 w2) by lia. fold b1 b2.
    unfold bits_value at 1. rewrite bits_value_from_app. fold (bits_value b1).
    rewrite bits_value_from_shift, Hl2, Z2Nat.id by lia.
    rewrite Z.add_assoc. reflexivity.
  - pose proof (bits_value_bounds b1 Hb1) as H. rewrite Hl1, Z2Nat.id in H by lia.
    exact H.
  - pose proof (bits_value_bounds b2 Hb2) as H. rewrite Hl2, Z2Nat.id in H by lia.
    exact H.
  - reflexivity.
Qed.

(** Three bits and then five from bit 0 of [165; 15]: 101 and 00101. *)
Lemma read_then_read_witness :
  read (mkBitReader [165; 15] 16 0) 3 = Ok (Some 5, mkBitReader [165; 15] 16 3) /\
  read (mkBitReader [165; 15] 16 0) 8 = Ok (Some 165, mkBitReader [165; 15] 16 8).
Proof.
  destruct (read_then_read [165; 15] 0 3 5) as (v1 & v2 & mid & last & Ha & Hb & Hc & _);
    [lia | lia | lia | cbn; lia |].
  pose proof Ha as Ha'. vm_compute in Ha'. injection Ha' as <- <-.
  pose proof Hb as Hb'. vm_compute in Hb'. injection Hb' as <- <-.
  split; [exact Ha | exact Hc].
Defined.

(** X2. On a buffer of bytes, a read of eight bits at the byte boundary [8 * i]
    returns the byte [data[i]] and moves the cursor to the next boundary. *)
Theorem read_whole_byte (data : list Z) (i : nat) (b : Z) :
  Forall is_byte data -> data !! i = Some b ->
  read (mkBitReader data (Z.of_nat (length data) * 8) (8 * Z.of_nat i)) 8
  = Ok (Some b, mkBitReader data (Z.of_nat (length data) * 8) (8 * Z.of_nat i + 8)).
Proof.
  intros Hd Hi. pose proof (lookup_lt_Some _ _ _ Hi) as Hlt.
  rewrite read_sufficient; [| side ..].
  cbn [_data _position set_position _bit_length].
  replace (Z.to_nat (8 * Z.of_nat i)) with (8 * i)%nat by lia.
  change (Z.to_nat 8) with 8%nat.
  rewrite (bits_of_bytes_window data i b Hi).
  rewrite bits_value_of_byte; [reflexivity|].
  eapply Forall_lookup_1; eauto.
Qed.

Lemma read_whole_byte_witness :
  read (mkBitReader [165; 15; 200] 24 8) 8 = Ok (Some 15, mkBitReader [165; 15; 200] 24 16).
Proof.
  apply (read_whole_byte [165; 15; 200] 1 15).
  - unfold is_byte. repeat (constructor; [lia|]). constructor.
  - reflexivity.
Defined.

(** X3. A width that is zero or negative is not refused: as long as the width
    is not larger than the number of bits left, [read] returns 0 and leaves
    the reader where it is.  So a read of zero bits from an exhausted reader
    returns 0, not [None]. *)
Theorem read_nonpositive_width (self : BitReader) (width : Z) :
  width <= 0 -> width <= remaining_bits self ->
  read self width = Ok (Some 0, self).
Proof.
  intros Hw Hrem. unfold read.
  destruct (Z.ltb_spec (remaining_bits self) width) as [Hlt | _]; [lia|].
  replace (Z.to_nat width) with 0%nat by lia. reflexivity.
Qed.

Lemma read_nonpositive_width_witness :
  has_bits (mkBitReader [165] 8 8) = false /\
  read (mkBitReader [165] 8 8) 0 = Ok (Some 0, mkBitReader [165] 8 8).
Proof.
  split; [reflexivity|].
  apply (read_nonpositive_width (mkBitReader [165] 8 8) 0); [lia | unfold remaining_bits; cbn; lia].
Defined.

(** X4. Packing undoes unpacking: from a bit sequence that starts with the
    bits of the bytes [bs], most significant bit first, [bits_to_bytes] with
    the count [8 * len(bs)] returns [bs] and leaves the iterator right after
    these bits. *)
Theorem bits_to_bytes_round_trip (bs : list Z) (later : bit_iter) :
  Forall is_byte bs ->
  bits_to_bytes (iter_cons (bits_of_bytes bs) later) (Z.of_nat (length bs) * 8)
  = Ok (bs, later).
Proof. apply bits_to_bytes_of_bytes. Qed.

Lemma bits_to_bytes_round_trip_witness :
  bits_to_bytes (iter_of [0; 1; 0; 0; 1; 1; 0; 0; 1; 1]) 8 = Ok ([76], iter_of [1; 1]).
Proof.
  apply (bits_to_bytes_round_trip [76] (iter_of [1; 1])).
  unfold is_byte. repeat (constructor; [lia|]). constructor.
Defined.

(** X5. Which error [bits_to_bytes] raises: a negative count is refused with
    its own error whatever the iterator is; when the iterator raises an
    exception of its own before the count is reached, that exception comes
    out, not the truncation error; and an iterator that would raise later is
    not asked for more than [bit_count] bits, so the call succeeds. *)
Theorem bits_to_bytes_errors (bits : list Z) (e : exn) (bit_count : Z) :
  let it := mkIter bits (Some e) in
  (bit_count < 0 -> bits_to_bytes it bit_count = Raise ValueError_bit_count) /\
  (0 <= bit_count <= Z.of_nat (length bits) ->
   exists out,
     bits_to_bytes it bit_count
     = Ok (out, mkIter (drop (Z.to_nat bit_count) bits) (Some e))) /\
  (Z.of_nat (length bits) < bit_count -> bits_to_bytes it bit_count = Raise e).
Proof.
  intros it. split; [|split].
  - intros H. unfold bits_to_bytes.
    destruct (Z.ltb_spec bit_count 0); [reflexivity | lia].
  - intros [H0 H1].
    destruct (bits_to_bytes_spec it bit_count H0 H1) as (out & Heq & _).
    exists out. exact Heq.
  - intros H. apply (bits_to_bytes_short it bit_count H).
Qed.

Lemma bits_to_bytes_errors_witness :
  bits_to_bytes (mkIter [1; 0] (Some IndexError)) 3 = Raise IndexError /\
  bits_to_bytes (mkIter [1; 0] (Some IndexError)) (-1) = Raise ValueError_bit_count.
Proof.
  destruct (bits_to_bytes_errors [1; 0] IndexError 3) as (_ & _ & H3).
  destruct (bits_to_bytes_errors [1; 0] IndexError (-1)) as (Hn & _).
  split; [apply H3; cbn; lia | apply Hn; lia].
Defined.

(** X6. Reading in two calls is reading in one: when the first count is a
    multiple of eight, the bytes of a call for [8 * k] bits followed by the
    bytes of a call for [n] bits on the iterator as the first call left it
    are the bytes of one call for [8 * k + n] bits. *)
Theorem bits_to_bytes_in_two_calls (it : bit_iter) (k n : Z) :
  0 <= k -> 0 <= n -> 8 * k + n <= Z.of_nat (length (pending it)) ->
  exists out1 it1 out2 it2,
    bits_to_bytes it (8 * k) = Ok (out1, it1) /\
    bits_to_bytes it1 n = Ok (out2, it2) /\
    bits_to_bytes it (8 * k + n) = Ok (out1 ++ out2, it2) /\
    Z.of_nat (length out1) = k.
Proof.
  intros Hk Hn Hlen.
  destruct (bits_to_bytes_spec it (8 * k)) as (out1 & E1 & B1 & L1 & S1); [lia..|].
  set (it1 := mkIter (drop (Z.to_nat (8 * k)) (pending it)) (fault it)) in *.
  destruct (bits_to_bytes_spec it1 n) as (out2 & E2 & B2 & L2 & S2);
    [lia | cbn; rewrite length_drop; lia |].
  destruct (bits_to_bytes_spec it (8 * k + n)) as (out & E & B & L & S); [lia..|].
  eexists out1, it1, out2, _. split; [exact E1|]. split; [exact E2|].
  split; [|rewrite L1; Z.div_mod_to_equations; lia].
  rewrite E. cbn [pending fault it1]. rewrite drop_drop.
  replace (Z.to_nat (8 * k) + Z.to_nat n)%nat with (Z.to_nat (8 * k + n)) by lia.
  do 2 f_equal.
  apply bits_of_bytes_inj; [exact B | apply Forall_app; split; assumption |].
  rewrite bits_of_bytes_app, S, S1, S2. cbn [pending it1].
  replace (Z.to_nat ((- (8 * k)) mod 8)) with 0%nat
    by (Z.div_mod_to_equations; lia).
  replace ((- (8 * k + n)) mod 8) with ((- n) mod 8)
    by (Z.div_mod_to_equations; lia).
  cbn [repeat]. rewrite app_nil_r, app_assoc. f_equal.
  rewrite <- fmap_app. f_equal.
  pose proof (window_app (pending it) 0 (8 * k) n) as W.
  change (Z.to_nat 0) with 0%nat in W. rewrite drop_0, Z.add_0_l in W.
  rewrite W by lia. reflexivity.
Qed.

Lemma bits_to_bytes_in_two_calls_witness :
  exists it1,
    bits_to_bytes (iter_of [0; 1; 0; 0; 1; 1; 0; 0; 1; 1; 1]) 8 = Ok ([76], it1) /\
    bits_to_bytes it1 3 = Ok ([224], iter_of []) /\
    bits_to_bytes (iter_of [0; 1; 0; 0; 1; 1; 0; 0; 1; 1; 1]) 11
    = Ok ([76; 224], iter_of []).
Proof.
  destruct (bits_to_bytes_in_two_calls
              (iter_of [0; 1; 0; 0; 1; 1; 0; 0; 1; 1; 1]) 1 3)
    as (out1 & it1 & out2 & it2 & E1 & E2 & E & _); [lia | lia | cbn; lia |].
  change (8 * 1) with 8 in E1. change (8 * 1 + 3) with 11 in E.
  exists it1. vm_compute in E1. injection E1 as <- <-.
  vm_compute in E2. injection E2 as <- <-.
  split; [vm_compute; reflexivity|]. split; [vm_compute; reflexivity|].
  rewrite E. reflexivity.
Defined.

(** *** [extract_lsb_bits] *)

(** The [n] low bits of [v], the most significant one first. *)
Definition lsb_bits_of (n : nat) (v : Z) : list Z :=
  (fun i => Z.b2z (Z.testbit v (Z.of_nat i))) <$> rev (seq 0 n).

Lemma lsb_bits_of_S n v :
  lsb_bits_of (S n) v = Z.b2z (Z.testbit v (Z.of_nat n)) :: lsb_bits_of n v.
Proof.
  unfold lsb_bits_of. rewrite seq_S, rev_app_distr. reflexivity.
Qed.

Lemma length_lsb_bits_of n v : length (lsb_bits_of n v) = n.
Proof. unfold lsb_bits_of. rewrite length_fmap, length_rev, length_seq. reflexivity. Qed.

Lemma Forall_bit_lsb_bits_of n v : Forall is_bit (lsb_bits_of n v).
Proof. unfold lsb_bits_of. apply Forall_fmap, Forall_forall. intros i _. apply b2z_bit. Qed.

Lemma chunk_bits_masked (m : Z) (v : Z) (n : nat) :
  Z.of_nat n <= m ->
  chunk_bits n (Z.land v (Z.ones m)) = lsb_bits_of n v.
Proof.
  induction n as [|n IH]; intros Hn; [reflexivity|].
  cbn [chunk_bits]. rewrite lsb_bits_of_S, IH by lia. f_equal.
  rewrite land_shiftr_1 by lia. f_equal.
  rewrite Z.land_spec, Z.ones_spec_low by lia. apply andb_true_r.
Qed.

(** The bits that the generator yields for the pixels [pixel_data]. *)
Definition lsb_stream (pixel_data : list (list Z)) (channel_indexes : list Z)
    (n : nat) : list Z :=
  concat ((fun px : list Z =>
             concat ((fun c => lsb_bits_of n (px !!! Z.to_nat c))
                       <$> channel_indexes))
            <$> pixel_data).

Lemma pixel_bits_valid px idxs bpc later :
  0 <= bpc ->
  Forall (fun c => 0 <= c < Z.of_nat (length px)) idxs ->
  pixel_bits px idxs (Z.shiftl 1 bpc - 1) bpc later
  = iter_cons
      (concat ((fun c => lsb_bits_of (Z.to_nat bpc) (px !!! Z.to_nat c)) <$> idxs))
      later.
Proof.
  intros Hb. induction idxs as [|c idxs IH]; intros Hv.
  - cbn. destruct later; reflexivity.
  - apply Forall_cons in Hv as [Hc Hv]. cbn [pixel_bits fmap list_fmap concat].
    destruct (getitem_valid px c Hc) as (v & Hl & ->).
    rewrite (IH Hv), mask_ones, chunk_bits_masked by lia.
    rewrite (list_lookup_total_correct _ _ _ Hl), iter_cons_app. reflexivity.
Qed.

Lemma lsb_bits_loop_valid pixel_data idxs bpc :
  0 <= bpc ->
  Forall (fun px => Forall (fun c => 0 <= c < Z.of_nat (length px)) idxs)
         pixel_data ->
  lsb_bits_loop pixel_data idxs (Z.shiftl 1 bpc - 1) bpc
  = iter_of (lsb_stream pixel_data idxs (Z.to_nat bpc)).
Proof.
  intros Hb. induction pixel_data as [|px rest IH]; intros Hv; [reflexivity|].
  apply Forall_cons in Hv as [Hpx Hv]. cbn [lsb_bits_loop].
  rewrite (IH Hv), (pixel_bits_valid _ _ _ _ Hb Hpx). reflexivity.
Qed.

Lemma length_lsb_channels (px : list Z) idxs n :
  length (concat ((fun c => lsb_bits_of n (px !!! Z.to_nat c)) <$> idxs))
  = (length idxs * n)%nat.
Proof.
  induction idxs as [|c idxs IH]; [reflexivity|].
  cbn [fmap list_fmap concat length]. rewrite length_app, IH, length_lsb_bits_of. lia.
Qed.

Lemma length_lsb_stream pixel_data idxs n :
  length (lsb_stream pixel_data idxs n)
  = (length pixel_data * (length idxs * n))%nat.
Proof.
  unfold lsb_stream. induction pixel_data as [|px rest IH]; [reflexivity|].
  cbn [fmap list_fmap concat length].
  rewrite length_app, IH, length_lsb_channels. lia.
Qed.

Lemma Forall_bit_lsb_stream pixel_data idxs n :
  Forall is_bit (lsb_stream pixel_data idxs n).
Proof.
  unfold lsb_stream. apply Forall_concat, Forall_fmap, Forall_forall. intros px _.
  apply Forall_concat, Forall_fmap, Forall_forall. intros c _.
  apply Forall_bit_lsb_bits_of.
Qed.

(** X7. What the generator yields: when every channel index is a valid index
    of every pixel and [bits_per_channel] is not negative, [extract_lsb_bits]
    raises nothing and yields, pixel after pixel and channel after channel in
    the order of [channel_indexes], the [bits_per_channel] low bits of the
    channel value, the most significant of them first; these are
    [len(pixel_data) * len(channel_indexes) * bits_per_channel] values, each 0
    or 1. *)
Theorem extract_lsb_bits_yields (pixel_data : list (list Z))
    (channel_indexes : list Z) (bits_per_channel : Z) :
  0 <= bits_per_channel ->
  Forall (fun px => Forall (fun c => 0 <= c < Z.of_nat (length px)) channel_indexes)
         pixel_data ->
  let bits := lsb_stream pixel_data channel_indexes (Z.to_nat bits_per_channel) in
  extract_lsb_bits pixel_data channel_indexes bits_per_channel = iter_of bits /\
  Z.of_nat (length bits)
  = Z.of_nat (length pixel_data) * Z.of_nat (length channel_indexes)
    * bits_per_channel /\
  Forall is_bit bits.
Proof.
  intros Hb Hv bits. split; [|split].
  - unfold extract_lsb_bits. apply lsb_bits_loop_valid; assumption.
  - unfold bits. rewrite length_lsb_stream. nia.
  - apply Forall_bit_lsb_stream.
Qed.

(** Two pixels, channels 0 and 2, two bits per channel: 6 = ..10, 5 = ..01,
    255 = ..11, 8 = ..00. *)
Lemma extract_lsb_bits_yields_witness :
  extract_lsb_bits [[6; 9; 5]; [255; 0; 8]] [0; 2] 2
  = iter_of [1; 0; 0; 1; 1; 1; 0; 0].
Proof.
  destruct (extract_lsb_bits_yields [[6; 9; 5]; [255; 0; 8]] [0; 2] 2) as (H & _).
  - lia.
  - repeat (constructor; [repeat (constructor; [cbn; lia|]); constructor|]).
    constructor.
  - exact H.
Defined.

End BitProps.


(** ** The key stream, the cipher and the frame *)

Module CryptoProps.

Import BitSpec UTF8Spec Crypto CryptoSpec.

(** The loop only appends to the stream. *)
Lemma key_stream_loop_extends fuel : forall seed len stream counter stream',
  key_stream_loop fuel seed len stream counter = Ok stream' ->
  exists t, stream' = stream ++ t.
Proof.
  induction fuel as [|fuel IH]; intros seed len stream counter stream' H;
    cbn [key_stream_loop] in H;
    destruct (Z.of_nat (length stream) <? len).
  - discriminate.
  - injection H as <-. exists []. rewrite app_nil_r. reflexivity.
  - apply bind_Ok in H as (cb & _ & H). apply IH in H as [t ->].
    rewrite <- app_assoc. eauto.
  - injection H as <-. exists []. rewrite app_nil_r. reflexivity.
Qed.

(** Two runs of the loop from the same state: the run for the smaller length
    stops first, with a prefix of what the other returns. *)
Lemma key_stream_loop_prefix f1 : forall f2 seed n m stream counter s1 s2,
  n <= m ->
  key_stream_loop f1 seed n stream counter = Ok s1 ->
  key_stream_loop f2 seed m stream counter = Ok s2 ->
  exists t, s2 = s1 ++ t.
Proof.
  induction f1 as [|f1 IH]; intros f2 seed n m stream counter s1 s2 Hnm H1 H2;
    cbn [key_stream_loop] in H1;
    destruct (Z.ltb_spec (Z.of_nat (length stream)) n) as [Hlt | Hge];
    try discriminate.
  - injection H1 as <-. eapply key_stream_loop_extends; eauto.
  - destruct f2 as [|f2]; cbn [key_stream_loop] in H2;
      destruct (Z.ltb_spec (Z.of_nat (length stream)) m); try discriminate; try lia.
    apply bind_Ok in H1 as (cb & Hcb & H1). rewrite Hcb in H2.
    cbn [mbind result_bind] in H2. eapply IH; eauto.
  - injection H1 as <-. eapply key_stream_loop_extends; eauto.
Qed.

Lemma derive_key_stream_nonpositive password seed len :
  UTF8.encode password = Ok seed -> len <= 0 ->
  derive_key_stream password len = Ok [].
Proof.
  intros Hs Hl. unfold derive_key_stream. rewrite Hs. cbn [mbind result_bind].
  replace (Z.to_nat len) with 0%nat by lia. cbn [key_stream_loop length].
  destruct (Z.ltb_spec (Z.of_nat 0) len); [lia|].
  unfold slice_to. destruct (len <? 0); cbn; rewrite ?take_nil; reflexivity.
Qed.

(** X8. The key stream has the length that was asked for: for a password
    that has a UTF-8 encoding and a length of at most 32 * 2^32 (the counter
    fits in four bytes), [derive_key_stream] returns exactly [length] bytes,
    and no bytes at all for a length that is zero or negative. *)
Theorem derive_key_stream_length (password seed : list Z) (len : Z) :
  UTF8.encode password = Ok seed -> len <= 32 * 4294967296 ->
  exists ks,
    derive_key_stream password len = Ok ks /\
    Z.of_nat (length ks) = Z.max 0 len /\ Forall is_byte ks.
Proof.
  intros Hs Hl. destruct (Z_le_gt_dec len 0) as [H0 | H0].
  - exists []. rewrite (derive_key_stream_nonpositive password seed len Hs H0).
    split; [reflexivity|]. split; [cbn; lia | constructor].
  - destruct (derive_key_stream_total password seed len Hs) as [ks Hks]; [lia|].
    exists ks. split; [exact Hks|].
    destruct (derive_key_stream_Ok password len ks) as [Hlen Hb]; [lia | exact Hks |].
    split; [lia | exact Hb].
Qed.

(** The key stream of the password "pw" for three bytes. *)
Lemma derive_key_stream_length_witness :
  exists ks,
    derive_key_stream [112; 119] 3 = Ok ks /\ length ks = 3%nat.
Proof.
  destruct (derive_key_stream_length [112; 119] [112; 119] 3) as (ks & H & Hl & _).
  - reflexivity.
  - lia.
  - exists ks. split; [exact H | lia].
Defined.

(** X9. A shorter key stream is the beginning of a longer one: for the same
    password, the stream of length [n] is the first [n] bytes of the stream
    of any length [m >= n]; up to 32 bytes the stream is the beginning of
    the SHA-256 digest of the password bytes followed by four zero bytes. *)
Theorem derive_key_stream_prefix (password seed : list Z) (n m : Z) :
  UTF8.encode password = Ok seed ->
  0 <= n <= m -> m <= 32 * 4294967296 ->
  exists kn km,
    derive_key_stream password n = Ok kn /\
    derive_key_stream password m = Ok km /\
    kn = take (Z.to_nat n) km /\
    (m <= 32 -> km = take (Z.to_nat m) (SHA256.sha256 (seed ++ [0; 0; 0; 0]))).
Proof.
  intros Hs Hnm Hm.
  destruct (derive_key_stream_total password seed n Hs) as [kn Hn]; [lia|].
  destruct (derive_key_stream_total password seed m Hs) as [km Hkm]; [lia|].
  exists kn, km. split; [exact Hn|]. split; [exact Hkm|].
  unfold derive_key_stream in Hn, Hkm. rewrite Hs in Hn, Hkm.
  cbn [mbind result_bind] in Hn, Hkm.
  apply bind_Ok in Hn as (sn & Hsn & Hn). injection Hn as <-.
  apply bind_Ok in Hkm as (sm & Hsm & Hkm). injection Hkm as <-.
  rewrite !slice_to_take by lia. split.
  - destruct (key_stream_loop_prefix _ _ _ _ _ _ _ _ _ (proj2 Hnm) Hsn Hsm) as [t ->].
    destruct (key_stream_loop_Ok _ _ _ _ _ _ Hsn) as [Hlen _].
    rewrite take_take, Nat.min_l by lia.
    rewrite take_app_le by lia. reflexivity.
  - intros H32. destruct (Z_le_gt_dec m 0) as [H0 | H0].
    + replace (Z.to_nat m) with 0%nat by lia. rewrite !take_0. reflexivity.
    + f_equal. destruct (Z.to_nat m) as [|f] eqn:Hf; [lia|].
      cbn [key_stream_loop length] in Hsm.
      destruct (Z.ltb_spec (Z.of_nat 0) m); [|lia].
      change (to_bytes4 0) with (Ok (SHA256.be32 0)) in Hsm.
      cbn [mbind result_bind] in Hsm. change (SHA256.be32 0) with [0; 0; 0; 0] in Hsm.
      destruct f as [|f]; cbn [key_stream_loop] in Hsm;
        rewrite app_nil_l, sha256_length in Hsm;
        destruct (Z.ltb_spec (Z.of_nat 32) m); try lia; congruence.
Qed.

Lemma derive_key_stream_prefix_witness :
  exists kn km,
    derive_key_stream [112; 119] 2 = Ok kn /\
    derive_key_stream [112; 119] 40 = Ok km /\
    kn = take 2 km.
Proof.
  destruct (derive_key_stream_prefix [112; 119] [112; 119] 2 40)
    as (kn & km & Hn & Hm & Hp & _).
  - reflexivity.
  - lia.
  - lia.
  - exists kn, km. split; [exact Hn|]. split; [exact Hm | exact Hp].
Defined.

(** X10. The cipher is its own inverse and keeps the length: for a byte
    string of at most 32 * 2^32 bytes and a password that is absent or has a
    UTF-8 encoding, [xor_encrypt] returns a byte string of the same length,
    and [xor_encrypt] of that with the same password returns the data. *)
Theorem xor_encrypt_involution (data : list Z) (password : option (list Z)) :
  Forall is_byte data -> usable password ->
  Z.of_nat (length data) <= 32 * 4294967296 ->
  exists enc,
    xor_encrypt data password = Ok enc /\
    length enc = length data /\ Forall is_byte enc /\
    xor_encrypt enc password = Ok data.
Proof.
  intros Hd Hu Hl.
  destruct (xor_encrypt_total data password Hd Hu Hl) as [enc He].
  exists enc. split; [exact He|]. apply (xor_encrypt_Ok data password enc Hd He).
Qed.

Lemma xor_encrypt_involution_witness :
  xor_encrypt [104; 105] (Some [112; 119]) = Ok [93; 139] /\
  xor_encrypt [93; 139] (Some [112; 119]) = Ok [104; 105].
Proof.
  destruct (xor_encrypt_involution [104; 105] (Some [112; 119]))
    as (enc & He & _ & _ & Hback).
  - unfold is_byte. repeat (constructor; [lia|]). constructor.
  - exists [112; 119]. reflexivity.
  - cbn. lia.
  - pose proof He as He'. vm_compute in He'. injection He' as <-.
    split; [exact He | exact Hback].
Defined.

(** X11. The frame round trip without an image: from a payload that
    [build_payload] returned, [parse_header] on its first eleven bytes gives
    the number of bytes that follow them, and [decrypt_payload] on these
    bytes with the same password gives the message back. *)
Theorem payload_round_trip (message : list Z) (password : option (list Z))
    (payload : list Z) :
  build_payload message password = Ok payload ->
  parse_header (take 11 payload) = Ok (Z.of_nat (length payload) - 11) /\
  decrypt_payload (drop 11 payload) password = Ok message.
Proof.
  intros H.
  destruct (build_payload_Ok _ _ _ H)
    as (plain & body & Hplain & Hbody & Hlen & Hll & Hbytes & ->).
  change (take 11 (HEADER_MAGIC ++ SHA256.be32 (Z.of_nat (length body)) ++ body))
    with (HEADER_MAGIC ++ SHA256.be32 (Z.of_nat (length body)) ++ take 0 body).
  change (drop 11 (HEADER_MAGIC ++ SHA256.be32 (Z.of_nat (length body)) ++ body))
    with body.
  split.
  - rewrite parse_header_frame by lia. f_equal.
    rewrite !length_app, be32_length. cbn [length HEADER_MAGIC]. lia.
  - unfold decrypt_payload.
    destruct (xor_encrypt_Ok plain password body) as (_ & _ & Hback);
      [eapply encode_bytes; eauto | exact Hbody |].
    rewrite Hback. cbn [mbind result_bind]. apply decode_encode. exact Hplain.
Qed.

Lemma payload_round_trip_witness :
  decrypt_payload [93; 139] (Some [112; 119]) = Ok [104; 105].
Proof.
  apply (payload_round_trip [104; 105] (Some [112; 119])
           [76; 83; 66; 77; 83; 71; 49; 0; 0; 0; 2; 93; 139]).
  vm_compute. reflexivity.
Defined.

(** X12. The size of the payload: for a message whose UTF-8 encoding has
    fewer than 2^32 bytes and a password that is absent or has a UTF-8
    encoding, [build_payload] returns a byte string of eleven bytes more than
    the encoding of the message, whatever the password is. *)
Theorem build_payload_size (message : list Z) (password : option (list Z))
    (plain : list Z) :
  UTF8.encode message = Ok plain -> usable password ->
  Z.of_nat (length plain) < 4294967296 ->
  exists payload,
    build_payload message password = Ok payload /\
    length payload = (11 + length plain)%nat /\
    Forall is_byte payload /\
    take 7 payload = HEADER_MAGIC.
Proof.
  intros Hp Hu Hl.
  destruct (build_payload_total message password plain Hp Hu Hl) as [payload H].
  exists payload. split; [exact H|].
  split; [|split; [eapply Forall_byte_payload; eauto|]];
    destruct (build_payload_Ok _ _ _ H)
      as (plain' & body & Hplain & _ & _ & Hll & _ & ->);
    assert (plain' = plain) by congruence; subst plain'.
  - rewrite !length_app, be32_length, Hll. reflexivity.
  - reflexivity.
Qed.

Lemma build_payload_size_witness :
  exists payload,
    build_payload [104; 105] (Some [112; 119]) = Ok payload /\
    length payload = 13%nat.
Proof.
  destruct (build_payload_size [104; 105] (Some [112; 119]) [104; 105])
    as (payload & H & Hl & _).
  - reflexivity.
  - exists [112; 119]. reflexivity.
  - cbn. lia.
  - exists payload. split; [exact H | exact Hl].
Defined.

Lemma encode_unencodable c s :
  c ∈ s ->
  c < 0 \/ 55296 <= c <= 57343 \/ 1114112 <= c ->
  UTF8.encode s = Raise UnicodeEncodeError.
Proof.
  intros Hin Hc.
  destruct (UTF8.encode s) as [bs|e] eqn:E; [|f_equal; eapply encode_raises; eauto].
  exfalso. revert bs E. induction s as [|a s IH]; intros bs E.
  - inversion Hin.
  - cbn [UTF8.encode] in E. apply bind_Ok in E as (b & Hb & E).
    apply bind_Ok in E as (bs' & Hbs & _).
    apply elem_of_cons in Hin as [<- | Hin]; [|eapply IH; eauto].
    unfold UTF8.encode_char in Hb.
    repeat match type of Hb with
           | context [?a <? ?b] => destruct (Z.ltb_spec a b)
           | context [?a <=? ?b] => destruct (Z.leb_spec a b)
           end; cbn in Hb; try discriminate; lia.
Qed.

(** X13. A message that cannot be encoded is refused: when the message holds
    a surrogate code point (U+D800 to U+DFFF), or a value that is no code
    point at all, [build_payload] raises [UnicodeEncodeError], with any
    password. *)
Theorem build_payload_unencodable (message : list Z)
    (password : option (list Z)) (c : Z) :
  c ∈ message ->
  c < 0 \/ 55296 <= c <= 57343 \/ 1114112 <= c ->
  build_payload message password = Raise UnicodeEncodeError.
Proof.
  intros Hin Hc. unfold build_payload.
  rewrite (encode_unencodable c message Hin Hc). reflexivity.
Qed.

Lemma build_payload_unencodable_witness :
  build_payload [104; 55357; 105] None = Raise UnicodeEncodeError.
Proof.
  apply (build_payload_unencodable [104; 55357; 105] None 55357).
  - rewrite !elem_of_cons. right. left. reflexivity.
  - lia.
Defined.

Lemma word_of_bounds b0 b1 b2 b3 :
  is_byte b0 -> is_byte b1 -> is_byte b2 -> is_byte b3 ->
  0 <= SHA256.word_of b0 b1 b2 b3 < 4294967296.
Proof. unfold is_byte, SHA256.word_of. lia. Qed.

(** X14. [parse_header] at the edges of its input: a buffer of fewer than
    seven bytes has no magic tag and is refused as "no payload"; a buffer
    that starts with the magic tag but has fewer than eleven bytes makes
    [struct.unpack] raise; bytes after the eleventh are not looked at; and
    the length returned for a buffer of bytes lies in 0 .. 2^32 - 1. *)
Theorem parse_header_edges (header_bytes : list Z) :
  ((length header_bytes < 7)%nat ->
   parse_header header_bytes = Raise ValueError_no_payload) /\
  (take 7 header_bytes = HEADER_MAGIC -> (length header_bytes < 11)%nat ->
   parse_header header_bytes = Raise StructError) /\
  parse_header header_bytes = parse_header (take 11 header_bytes) /\
  (Forall is_byte header_bytes ->
   forall n, parse_header header_bytes = Ok n -> 0 <= n < 4294967296).
Proof.
  split; [|split; [|split]].
  - intros Hl. apply parse_header_bad. intros H.
    apply (f_equal length) in H. cbn [length HEADER_MAGIC] in H.
    assert (length (take 7 header_bytes) <= length header_bytes)%nat
      by (rewrite length_take; apply Nat.le_min_r).
    lia.
  - intros Hm Hl. unfold parse_header. rewrite slice_to_take by (cbn; lia).
    change (Z.to_nat (Z.of_nat (length HEADER_MAGIC))) with 7%nat.
    destruct (decide (take 7 header_bytes <> HEADER_MAGIC)); [contradiction|].
    unfold slice. change (Z.to_nat (Z.of_nat (length HEADER_MAGIC))) with 7%nat.
    change (Z.to_nat HEADER_SIZE) with 11%nat.
    rewrite take_ge by lia.
    rewrite <- (take_drop 7 header_bytes) in Hl. rewrite length_app, Hm in Hl.
    cbn [length HEADER_MAGIC] in Hl.
    destruct (drop 7 header_bytes) as [|a [|b [|c [|d t]]]];
      try reflexivity. cbn in Hl. lia.
  - unfold parse_header. rewrite !slice_to_take by (cbn; lia).
    change (Z.to_nat (Z.of_nat (length HEADER_MAGIC))) with 7%nat.
    unfold slice. change (Z.to_nat (Z.of_nat (length HEADER_MAGIC))) with 7%nat.
    change (Z.to_nat HEADER_SIZE) with 11%nat.
    rewrite !take_take. reflexivity.
  - intros Hb n H. unfold parse_header in H.
    destruct (decide _) as [|_] in H; [discriminate|].
    unfold slice in H. change (Z.to_nat (Z.of_nat (length HEADER_MAGIC))) with 7%nat in H.
    change (Z.to_nat HEADER_SIZE) with 11%nat in H.
    assert (Hs : Forall is_byte (drop 7 (take 11 header_bytes)))
      by apply Forall_drop, Forall_take, Hb.
    destruct (drop 7 (take 11 header_bytes)) as [|b0 [|b1 [|b2 [|b3 [|b4 t]]]]];
      try discriminate.
    cbn [unpack_uint32] in H. injection H as <-.
    repeat match goal with
           | H : Forall _ (_ :: _) |- _ => apply Forall_cons in H as [? H]
           end.
    apply word_of_bounds; assumption.
Qed.

Lemma parse_header_edges_witness :
  parse_header [76; 83; 66] = Raise ValueError_no_payload /\
  parse_header [76; 83; 66; 77; 83; 71; 49; 0; 0] = Raise StructError.
Proof.
  destruct (parse_header_edges [76; 83; 66]) as (H1 & _).
  destruct (parse_header_edges [76; 83; 66; 77; 83; 71; 49; 0; 0]) as (_ & H2 & _).
  split; [apply H1; cbn; lia | apply H2; [reflexivity | cbn; lia]].
Defined.

End CryptoProps.


(** ** The engine: errors, the report and the counters *)

Module EngineProps.

Import Bits Crypto Models PIL Stego.
Import BitSpec UTF8Spec CryptoSpec StegoSpec EngineSpec BitProps.

(** The low-bit stream of a well-formed image. *)
Lemma extract_lsb_bits_image image bpc :
  well_formed image -> 0 <= bpc ->
  extract_lsb_bits (im_data image) [0; 1; 2] bpc
  = iter_of (lsb_stream (im_data image) [0; 1; 2] (Z.to_nat bpc)) /\
  Z.of_nat (length (lsb_stream (im_data image) [0; 1; 2] (Z.to_nat bpc)))
  = im_width image * im_height image * 3 * bpc.
Proof.
  intros Hwf Hb. split.
  - apply lsb_bits_loop_valid; [exact Hb | apply well_formed_channels, Hwf].
  - destruct Hwf as (_ & _ & Hlen & _). rewrite length_lsb_stream, <- Hlen.
    cbn [length]. nia.
Qed.

(** [extract_message] up to the first read of the bit stream. *)
Lemma extract_message_start fs path file password bpc :
  fs !! path = Some file -> bpc = 1 \/ bpc = 2 ->
  run (extract_message path password bpc) fs
  = run ('(header_bytes, bit_stream) ←
           lift (bits_to_bytes
                   (extract_lsb_bits (im_data (content file)) [0; 1; 2] bpc)
                   (HEADER_SIZE * 8));
         payload_length ← lift (parse_header header_bytes);
         '(payload_bytes, bit_stream) ←
           lift (bits_to_bytes bit_stream (payload_length * 8));
         lift (decrypt_payload payload_bytes password)) fs.
Proof.
  intros Hfs Hbpc. unfold extract_message.
  rewrite run_bind, run_lift, (validate_ok bpc Hbpc).
  rewrite run_bind, run_open, Hfs. rewrite prepare_image_eq.
  cbv beta iota. cbn [embed_indexes].
  destruct (decide ([0; 1; 2] = [])) as [Hnil | _]; [discriminate Hnil|].
  reflexivity.
Qed.

Lemma lsb_stream_head pixels px0 v idxs n :
  pixels !! 0%nat = Some px0 -> px0 !! 0%nat = Some v ->
  exists t,
    lsb_stream pixels (0 :: idxs) (S n)
    = Z.b2z (Z.testbit v (Z.of_nat n)) :: t.
Proof.
  intros Hp Hv. destruct pixels as [|p rest]; [discriminate|].
  injection Hp as ->. unfold lsb_stream. cbn [fmap list_fmap concat].
  change (Z.to_nat 0) with 0%nat.
  rewrite (list_lookup_total_correct _ _ _ Hv), lsb_bits_of_S.
  rewrite <- !app_assoc. cbn [app]. eauto.
Qed.

(** How a pixel changes when the flag of the channel loop is set. *)
Lemma embed_channels_changed mask bpc idxs :
  forall r px changed r' px' changed' (px0 : list Z),
  embed_channels idxs r px changed mask bpc = Ok (r', px', changed') ->
  NoDup idxs ->
  Forall (fun c => 0 <= c < Z.of_nat (length px)) idxs ->
  (forall c, c ∈ idxs -> px !! Z.to_nat c = px0 !! Z.to_nat c) ->
  (changed = true ->
   exists j, (Z.of_nat j ∉ idxs) /\ px !! j <> px0 !! j) ->
  (changed' = true -> exists j, px' !! j <> px0 !! j) /\
  (changed' = false -> changed = false).
Proof.
  induction idxs as [|c idxs IH];
    intros r px changed r' px' changed' px0 H Hnd Hv Hsame Hw.
  - cbn in H. injection H as <- <- <-. split; [|auto].
    intros Hc. destruct (Hw Hc) as (j & _ & Hj). eauto.
  - cbn [embed_channels] in H.
    apply bind_Ok in H as ([chunk r1] & _ & H).
    destruct chunk as [chunk|].
    + apply Forall_cons in Hv as [Hc Hv]. apply NoDup_cons in Hnd as [Hnin Hnd].
      destruct (getitem_valid px c Hc) as (old & Hold & Hget).
      rewrite Hget in H. cbn [mbind result_bind] in H.
      rewrite (setitem_valid px c _ Hc) in H. cbn [mbind result_bind] in H.
      set (new_value := Z.lor (Z.land old (Z.lnot mask)) chunk) in *.
      eapply IH in H; [| exact Hnd | | |].
      * destruct H as [H1 H2]. split; [exact H1|].
        intros Hf. specialize (H2 Hf).
        destruct (decide (new_value <> old)); [discriminate | exact H2].
      * rewrite length_insert. exact Hv.
      * intros c' Hc'. rewrite list_lookup_insert_ne.
        -- apply Hsame. apply elem_of_cons. auto.
        -- intros E. apply Hnin.
           assert (0 <= c') by (rewrite Forall_forall in Hv; apply (Hv c' Hc')).
           replace c with c' by lia. exact Hc'.
      * intros Hch. destruct (decide (new_value <> old)) as [Hne | _].
        -- exists (Z.to_nat c). split.
           ++ rewrite Z2Nat.id by lia. exact Hnin.
           ++ rewrite list_lookup_insert_eq by (apply lookup_lt_Some in Hold; exact Hold).
              rewrite <- (Hsame c) by (apply elem_of_cons; auto).
              rewrite Hold. congruence.
        -- destruct (Hw Hch) as (j & Hj & Hne). exists j. split.
           ++ intros Hin. apply Hj. apply elem_of_cons. auto.
           ++ rewrite list_lookup_insert_ne; [exact Hne|].
              intros E. apply Hj. apply elem_of_cons. left. lia.
    + injection H as <- <- <-. split; [|auto].
      intros Hc. destruct (Hw Hc) as (j & _ & Hj). eauto.
Qed.

(** The number of places where two lists of pixels differ. *)
Definition count_changed (a b : list (list Z)) : Z :=
  Z.of_nat (length (filter (fun p : list Z * list Z => p.1 <> p.2) (zip a b))).

Lemma count_changed_same a : count_changed a a = 0.
Proof.
  unfold count_changed. induction a as [|x a IH]; [reflexivity|].
  cbn [zip zip_with]. rewrite filter_cons_False by (cbn; auto). exact IH.
Qed.

Lemma count_changed_cons x y a b :
  count_changed (x :: a) (y :: b)
  = (if decide (x <> y) then 1 else 0) + count_changed a b.
Proof.
  unfold count_changed. cbn [zip zip_with]. rewrite filter_cons.
  cbn [fst snd]. destruct (decide (x <> y)); cbn [length]; lia.
Qed.

Lemma count_changed_bounds a b :
  0 <= count_changed a b <= Z.of_nat (length a).
Proof.
  unfold count_changed. split; [lia|].
  pose proof (length_filter (fun p : list Z * list Z => p.1 <> p.2) (zip a b)).
  rewrite length_zip_with in H. lia.
Qed.

Lemma embed_pixels_touched mask bpc idxs pixels :
  forall r touched r' pixels' touched',
  embed_pixels pixels idxs r touched mask bpc = Ok (r', pixels', touched') ->
  NoDup idxs ->
  Forall (fun px => Forall (fun c => 0 <= c < Z.of_nat (length px)) idxs) pixels ->
  touched' = touched + count_changed pixels pixels'.
Proof.
  induction pixels as [|px rest IH]; intros r touched r' pixels' touched' H Hnd Hv.
  - cbn in H. injection H as <- <- <-. rewrite count_changed_same. lia.
  - cbn [embed_pixels] in H. destruct (negb (has_bits r)).
    + injection H as <- <- <-. rewrite count_changed_same. lia.
    + apply Forall_cons in Hv as [Hpx Hv].
      apply bind_Ok in H as ([[r1 pl] ch] & Hch & H).
      apply bind_Ok in H as ([[r2 rest'] t2] & Hrest & H).
      injection H as <- <- <-.
      apply IH in Hrest; [|assumption..]. rewrite Hrest, count_changed_cons.
      destruct (embed_channels_changed mask bpc idxs r px false r1 pl ch px Hch Hnd Hpx)
        as [Hdiff _]; [reflexivity | discriminate |].
      destruct ch.
      * destruct (Hdiff eq_refl) as (j & Hj).
        destruct (decide (px <> pl)) as [_ | Heq]; [lia|].
        exfalso. apply Hj. apply dec_stable in Heq. rewrite Heq. reflexivity.
      * destruct (decide (px <> px)) as [Hne | _]; [contradiction | lia].
Qed.

Section Engine.

Variable codec : Codec.

(** X15. The number of bits per channel is checked first: with a value
    outside 1 .. 2, [hide_message] and [extract_message] raise the error that
    carries the value, whatever the message, the password and the files are,
    and the files stay as they were. *)
Theorem invalid_bits_per_channel_rejected (fs : gmap string File)
    (input output : string) (message : list Z) (password : option (list Z))
    (bpc : Z) :
  ~ (1 <= bpc <= 2) ->
  run (hide_message codec input output message password bpc) fs
  = (Raise (ValueError_bits_per_channel bpc), fs) /\
  run (extract_message input password bpc) fs
  = (Raise (ValueError_bits_per_channel bpc), fs).
Proof.
  intros H. unfold hide_message, extract_message.
  rewrite !run_bind, !run_lift, (validate_bad bpc H). split; reflexivity.
Qed.

(** X16. The payload is built before the image is opened: when
    [build_payload] raises (the message has no UTF-8 encoding, say),
    [hide_message] raises the same error even if the input file does not
    exist, and writes nothing. *)
Theorem hide_message_payload_error (fs : gmap string File)
    (input output : string) (message : list Z) (password : option (list Z))
    (bpc : Z) (e : exn) :
  bpc = 1 \/ bpc = 2 ->
  build_payload message password = Raise e ->
  run (hide_message codec input output message password bpc) fs
  = (Raise e, fs).
Proof.
  intros Hbpc H. unfold hide_message.
  rewrite run_bind, run_lift, (validate_ok bpc Hbpc).
  rewrite run_bind, run_lift, H. reflexivity.
Qed.

(** X17. A missing file: with valid arguments, [hide_message] on an input
    path that does not exist and [extract_message] on such a path raise
    [FileNotFoundError]; [hide_message] then writes no output. *)
Theorem missing_file_not_found (fs : gmap string File)
    (input output : string) (message : list Z) (password : option (list Z))
    (bpc : Z) (payload : list Z) :
  bpc = 1 \/ bpc = 2 ->
  fs !! input = None ->
  build_payload message password = Ok payload ->
  run (hide_message codec input output message password bpc) fs
  = (Raise FileNotFoundError, fs) /\
  run (extract_message input password bpc) fs = (Raise FileNotFoundError, fs).
Proof.
  intros Hbpc Hfs Hpay. unfold hide_message, extract_message.
  rewrite !run_bind, !run_lift, (validate_ok bpc Hbpc).
  rewrite run_bind, run_lift, Hpay.
  rewrite !run_bind, !run_open, Hfs. split; reflexivity.
Qed.

(** X18. An image that is too small to hold a header: when the image has
    fewer than 88 embeddable bits, [extract_message] raises the truncation
    error of [bits_to_bytes]. *)
Theorem extract_message_too_small (fs : gmap string File) (path : string)
    (file : File) (password : option (list Z)) (bpc : Z) :
  fs !! path = Some file ->
  well_formed (content file) ->
  bpc = 1 \/ bpc = 2 ->
  im_width (content file) * im_height (content file) * 3 * bpc < 88 ->
  run (extract_message path password bpc) fs = (Raise ValueError_truncated, fs).
Proof.
  intros Hfs Hwf Hbpc Hsmall.
  rewrite (extract_message_start fs path file password bpc Hfs Hbpc).
  destruct (extract_lsb_bits_image (content file) bpc Hwf) as [-> Hlen]; [lia|].
  rewrite run_bind, run_lift, bits_to_bytes_short; [reflexivity|].
  cbn [pending iter_of]. rewrite Hlen. exact Hsmall.
Qed.

(** X19. An image that carries no payload: the magic tag starts with a zero
    bit, so when the image has room for a header and the first bit that is
    read, bit [bits_per_channel - 1] of the first channel of the first pixel,
    is set, [extract_message] raises the "no payload" error. *)
Theorem extract_message_no_payload (fs : gmap string File) (path : string)
    (file : File) (password : option (list Z)) (bpc : Z) (px0 : list Z) (v : Z) :
  fs !! path = Some file ->
  well_formed (content file) ->
  bpc = 1 \/ bpc = 2 ->
  88 <= im_width (content file) * im_height (content file) * 3 * bpc ->
  im_data (content file) !! 0%nat = Some px0 -> px0 !! 0%nat = Some v ->
  Z.testbit v (bpc - 1) = true ->
  run (extract_message path password bpc) fs = (Raise ValueError_no_payload, fs).
Proof.
  intros Hfs Hwf Hbpc Hbig Hpx Hv Hbit.
  rewrite (extract_message_start fs path file password bpc Hfs Hbpc).
  destruct (extract_lsb_bits_image (content file) bpc Hwf) as [-> Hlen]; [lia|].
  destruct (bits_to_bytes_spec
              (iter_of (lsb_stream (im_data (content file)) [0; 1; 2] (Z.to_nat bpc)))
              (HEADER_SIZE * 8))
    as (out & Heq & _ & _ & Hbits);
    [vm_compute; discriminate | cbn [pending iter_of]; rewrite Hlen; exact Hbig |].
  rewrite run_bind, run_lift, Heq. cbv beta iota.
  rewrite run_bind, run_lift, parse_header_bad; [reflexivity|].
  intros Hmagic. cbn [pending iter_of] in Hbits.
  destruct (lsb_stream_head (im_data (content file)) px0 v [1; 2]
              (Z.to_nat (bpc - 1)) Hpx Hv) as [t Ht].
  replace (S (Z.to_nat (bpc - 1))) with (Z.to_nat bpc) in Ht by lia.
  rewrite Z2Nat.id, Hbit in Ht by lia. rewrite Ht in Hbits.
  destruct out as [|b0 out]; [discriminate Hmagic|].
  cbn [take] in Hmagic. injection Hmagic as -> _.
  rewrite bits_of_bytes_cons in Hbits.
  change (Z.to_nat (HEADER_SIZE * 8)) with 88%nat in Hbits.
  cbn in Hbits. discriminate Hbits.
Qed.

End Engine.

Section Report.

Variable codec : Codec.

(** The run of a successful [hide_message], with the report written out. *)
Lemma hide_message_report (fs : gmap string File) (input output : string)
    (message : list Z) (password : option (list Z)) (bpc : Z)
    (file : File) (payload : list Z) :
  fs !! input = Some file ->
  well_formed (content file) ->
  bpc = 1 \/ bpc = 2 ->
  build_payload message password = Ok payload ->
  Z.of_nat (length payload) * 8
    <= capacity_bits (snd (_prepare_image (content file))) bpc ->
  lossless codec output ->
  let image := content file in
  exists pixels' touched size,
    let encoded :=
      mkImage (im_mode image) (im_width image) (im_height image) pixels' in
    let fs' := <[output := mkFile encoded size]> fs in
    embed_pixels (im_data image) [0; 1; 2] (Bits.init payload) 0
                 (Z.shiftl 1 bpc - 1) bpc
    = Ok (mkBitReader payload (Z.of_nat (length payload) * 8)
                      (Z.of_nat (length payload) * 8), pixels', touched) /\
    Forall2 (pixel_kept bpc [0; 1; 2]) (im_data image) pixels' /\
    run (hide_message codec input output message password bpc) fs
    = (Ok {| payload_bits := Z.of_nat (length payload) * 8;
             capacity_bits_ := im_width image * im_height image * 3 * bpc;
             total_pixels_ := im_width image * im_height image;
             channels_used := 3;
             bits_per_channel := bpc;
             pixels_touched := touched;
             file_size_before :=
               (if decide (input = output) then size else st_size file);
             file_size_after := size |}, fs').
Proof.
  intros Hfs Hwf Hbpc Hpay Hcap Hcodec image.
  destruct (hide_message_run codec fs input output message password bpc
              file payload Hfs Hwf Hbpc Hpay Hcap)
    as (pixels' & touched & Hwalk & Hkept & _ & _ & Hrun).
  cbv zeta in Hrun. fold image in Hwalk, Hkept, Hrun.
  destruct (Hcodec (mkImage (im_mode image) (im_width image) (im_height image)
                            pixels')) as [size Hsize].
  rewrite Hsize in Hrun. cbn [st_size] in Hrun.
  exists pixels', touched, size. cbv zeta.
  split; [exact Hwalk|]. split; [exact Hkept | exact Hrun].
Qed.

(** X20. The numbers of the report: when the format of the output path keeps
    the image, [hide_message] succeeds and the report holds the bit length
    of the payload (so [payload_bytes] is the length of the payload), the
    capacity [width * height * 3 * bits_per_channel], the number of pixels,
    three channels, the validated [bits_per_channel], and the size of the
    file that is found at the output path; the payload bits do not exceed
    the capacity. *)
Theorem embed_report_numbers (fs : gmap string File) (input output : string)
    (message : list Z) (password : option (list Z)) (bpc : Z)
    (file : File) (payload : list Z) :
  fs !! input = Some file ->
  well_formed (content file) ->
  bpc = 1 \/ bpc = 2 ->
  build_payload message password = Ok payload ->
  Z.of_nat (length payload) * 8
    <= capacity_bits (snd (_prepare_image (content file))) bpc ->
  lossless codec output ->
  let image := content file in
  exists report fs' written,
    run (hide_message codec input output message password bpc) fs
    = (Ok report, fs') /\
    fs' !! output = Some written /\
    payload_bits report = Z.of_nat (length payload) * 8 /\
    payload_bytes report = Z.of_nat (length payload) /\
    capacity_bits_ report = im_width image * im_height image * 3 * bpc /\
    payload_bits report <= capacity_bits_ report /\
    total_pixels_ report = im_width image * im_height image /\
    channels_used report = 3 /\
    bits_per_channel report = bpc /\
    file_size_after report = st_size written.
Proof.
  intros Hfs Hwf Hbpc Hpay Hcap Hcodec image.
  destruct (hide_message_report fs input output message password bpc
              file payload Hfs Hwf Hbpc Hpay Hcap Hcodec)
    as (pixels' & touched & size & _ & _ & Hrun).
  fold image in Hrun. cbv zeta in Hrun.
  rewrite capacity_prepared in Hcap. fold image in Hcap.
  eexists _, _, _. split; [exact Hrun|]. split; [apply lookup_insert_eq|].
  cbn [payload_bits capacity_bits_ total_pixels_ channels_used bits_per_channel
       file_size_after st_size].
  unfold payload_bytes. cbn [payload_bits].
  repeat split; try reflexivity; [apply Z.div_mul; lia | exact Hcap].
Qed.

(** X21. The size of the input is read after the output has been saved: when
    the format of the output path keeps the image, [file_size_before] of the
    report is the size of the file that is found at the input path after the
    run; so when [hide_message] writes over its input, [file_size_before] is
    the size of the file just written and [file_size_diff] is 0. *)
Theorem embed_report_file_sizes (fs : gmap string File) (input output : string)
    (message : list Z) (password : option (list Z)) (bpc : Z)
    (file : File) (payload : list Z) :
  fs !! input = Some file ->
  well_formed (content file) ->
  bpc = 1 \/ bpc = 2 ->
  build_payload message password = Ok payload ->
  Z.of_nat (length payload) * 8
    <= capacity_bits (snd (_prepare_image (content file))) bpc ->
  lossless codec output ->
  exists report fs' found written,
    run (hide_message codec input output message password bpc) fs
    = (Ok report, fs') /\
    fs' !! input = Some found /\ fs' !! output = Some written /\
    file_size_before report = st_size found /\
    file_size_after report = st_size written /\
    (input = output ->
     file_size_before report = file_size_after report /\
     file_size_diff report = 0).
Proof.
  intros Hfs Hwf Hbpc Hpay Hcap Hcodec.
  destruct (hide_message_report fs input output message password bpc
              file payload Hfs Hwf Hbpc Hpay Hcap Hcodec)
    as (pixels' & touched & size & _ & _ & Hrun).
  cbv zeta in Hrun.
  set (written := mkFile _ size) in Hrun.
  eexists _, _, (if decide (input = output) then written else file), written.
  split; [exact Hrun|].
  unfold file_size_diff. cbn [file_size_before file_size_after].
  destruct (decide (input = output)) as [E | E].
  - rewrite E, lookup_insert_eq. repeat split; try reflexivity. lia.
  - rewrite lookup_insert_ne by auto. rewrite lookup_insert_eq.
    repeat split; try reflexivity; try assumption; contradiction.
Qed.

(** X22. What [pixels_touched] counts: when the format of the output path
    keeps the image, the counter of the report is the number of pixels of
    the written image that differ from the pixel of the source at the same
    place; it is at most the number of pixels. *)
Theorem pixels_touched_counts_changes (fs : gmap string File)
    (input output : string) (message : list Z) (password : option (list Z))
    (bpc : Z) (file : File) (payload : list Z) :
  fs !! input = Some file ->
  well_formed (content file) ->
  bpc = 1 \/ bpc = 2 ->
  build_payload message password = Ok payload ->
  Z.of_nat (length payload) * 8
    <= capacity_bits (snd (_prepare_image (content file))) bpc ->
  lossless codec output ->
  exists report fs' written,
    run (hide_message codec input output message password bpc) fs
    = (Ok report, fs') /\
    fs' !! output = Some written /\
    pixels_touched report
    = count_changed (im_data (content file)) (im_data (content written)) /\
    0 <= pixels_touched report <= im_width (content file) * im_height (content file).
Proof.
  intros Hfs Hwf Hbpc Hpay Hcap Hcodec.
  destruct (hide_message_report fs input output message password bpc
              file payload Hfs Hwf Hbpc Hpay Hcap Hcodec)
    as (pixels' & touched & size & Hwalk & _ & Hrun).
  cbv zeta in Hrun.
  eexists _, _, _. split; [exact Hrun|]. split; [apply lookup_insert_eq|].
  cbn [im_data content pixels_touched].
  apply embed_pixels_touched in Hwalk;
    [| apply NoDup_channels | apply well_formed_channels; exact Hwf].
  rewrite Z.add_0_l in Hwalk. split; [exact Hwalk|]. rewrite Hwalk.
  destruct Hwf as (_ & _ & <- & _). apply count_changed_bounds.
Qed.

End Report.

(** *** Examples *)

Lemma invalid_bits_per_channel_rejected_witness :
  run (hide_message Demo.codec "in.png" "out.png" [65] None 3) Demo.files
  = (Raise (ValueError_bits_per_channel 3), Demo.files).
Proof.
  apply (invalid_bits_per_channel_rejected Demo.codec Demo.files "in.png"
           "out.png" [65] None 3).
  lia.
Defined.

(** A lone surrogate in the message, and no input file. *)
Lemma hide_message_payload_error_witness :
  run (hide_message Demo.codec "none.png" "out.png" [55357] None 1) Demo.files
  = (Raise UnicodeEncodeError, Demo.files).
Proof.
  apply (hide_message_payload_error Demo.codec Demo.files "none.png" "out.png"
           [55357] None 1 UnicodeEncodeError).
  - left. reflexivity.
  - reflexivity.
Defined.

Lemma missing_file_not_found_witness :
  run (extract_message "none.png" None 1) Demo.files
  = (Raise FileNotFoundError, Demo.files).
Proof.
  apply (missing_file_not_found Demo.codec Demo.files "none.png" "out.png"
           [65] None 1 [76; 83; 66; 77; 83; 71; 49; 0; 0; 0; 1; 65]).
  - left. reflexivity.
  - vm_compute. reflexivity.
  - vm_compute. reflexivity.
Defined.

(** A 2 x 2 image has 12 embeddable bits at one bit per channel. *)
Definition small_image : Image := mkImage RGB 2 2 (repeat [1; 1; 1] 4).

Lemma small_well_formed : well_formed small_image.
Proof.
  unfold well_formed. cbn. repeat split; try lia.
  repeat (constructor; [reflexivity|]). constructor.
Qed.

Lemma extract_message_too_small_witness :
  run (extract_message "s.png" None 1) {["s.png" := mkFile small_image 100]}
  = (Raise ValueError_truncated, {["s.png" := mkFile small_image 100]}).
Proof.
  apply (extract_message_too_small {["s.png" := mkFile small_image 100]} "s.png"
           (mkFile small_image 100) None 1).
  - vm_compute. reflexivity.
  - apply small_well_formed.
  - left. reflexivity.
  - cbn. lia.
Defined.

(** The demonstration image starts with the channel value 255. *)
Lemma extract_message_no_payload_witness :
  run (extract_message "in.png" None 1) Demo.files
  = (Raise ValueError_no_payload, Demo.files).
Proof.
  apply (extract_message_no_payload Demo.files "in.png" (mkFile Demo.image 9000)
           None 1 [255; 128; 7; 200] 255).
  - vm_compute. reflexivity.
  - apply Claims.demo_well_formed.
  - left. reflexivity.
  - cbn. lia.
  - reflexivity.
  - reflexivity.
  - reflexivity.
Defined.

Lemma embed_report_numbers_witness :
  exists report fs',
    run (hide_message Demo.codec "in.png" "out.png" [65] (Some [112; 119]) 1)
        Demo.files = (Ok report, fs') /\
    payload_bits report = 96 /\ payload_bytes report = 12 /\
    capacity_bits_ report = 96 /\ total_pixels_ report = 32.
Proof.
  destruct (embed_report_numbers Demo.codec Demo.files "in.png" "out.png" [65]
              (Some [112; 119]) 1 (mkFile Demo.image 9000)
              [76; 83; 66; 77; 83; 71; 49; 0; 0; 0; 1; 116])
    as (report & fs' & written & Hrun & Hout & Hb & Hby & Hc & _ & Ht & _).
  - vm_compute. reflexivity.
  - apply Claims.demo_well_formed.
  - left. reflexivity.
  - vm_compute. reflexivity.
  - vm_compute. discriminate.
  - apply Claims.demo_lossless.
  - exists report, fs'. split; [exact Hrun|].
    split; [exact Hb|]. split; [exact Hby|]. split; [exact Hc | exact Ht].
Defined.

(** Writing over the input file. *)
Lemma embed_report_file_sizes_witness :
  exists report fs',
    run (hide_message Demo.codec "in.png" "in.png" [65] (Some [112; 119]) 1)
        Demo.files = (Ok report, fs') /\
    file_size_diff report = 0.
Proof.
  destruct (embed_report_file_sizes Demo.codec Demo.files "in.png" "in.png" [65]
              (Some [112; 119]) 1 (mkFile Demo.image 9000)
              [76; 83; 66; 77; 83; 71; 49; 0; 0; 0; 1; 116])
    as (report & fs' & found & written & Hrun & _ & _ & _ & _ & Hsame).
  - vm_compute. reflexivity.
  - apply Claims.demo_well_formed.
  - left. reflexivity.
  - vm_compute. reflexivity.
  - vm_compute. discriminate.
  - intros image. eexists. reflexivity.
  - exists report, fs'. split; [exact Hrun|]. apply Hsame. reflexivity.
Defined.

Lemma pixels_touched_counts_changes_witness :
  exists report fs',
    run (hide_message Demo.codec "in.png" "out.png" [65] (Some [112; 119]) 1)
        Demo.files = (Ok report, fs') /\
    0 <= pixels_touched report <= 32.
Proof.
  destruct (pixels_touched_counts_changes Demo.codec Demo.files "in.png"
              "out.png" [65] (Some [112; 119]) 1 (mkFile Demo.image 9000)
              [76; 83; 66; 77; 83; 71; 49; 0; 0; 0; 1; 116])
    as (report & fs' & written & Hrun & _ & _ & Hb).
  - vm_compute. reflexivity.
  - apply Claims.demo_well_formed.
  - left. reflexivity.
  - vm_compute. reflexivity.
  - vm_compute. discriminate.
  - apply Claims.demo_lossless.
  - exists report, fs'. split; [exact Hrun | exact Hb].
Defined.

End EngineProps.


(** ** The comparison of two images *)

Module AnalysisProps.

Import Bits Crypto Models PIL Stego.
Import BitSpec StegoSpec EngineSpec EngineProps.

(** *** The two loops *)

Lemma diff_step_same acc v : Analysis.diff_step acc (v, v) = acc.
Proof.
  destruct acc as [[c t] m]. unfold Analysis.diff_step. cbn [fst snd].
  rewrite Z.sub_diag. reflexivity.
Qed.

Lemma diff_pixel_same px : forall acc, Analysis.diff_pixel acc (px, px) = acc.
Proof.
  unfold Analysis.diff_pixel. cbn [fst snd].
  induction px as [|v px IH]; intros acc; [reflexivity|].
  cbn [zip_with fold_left]. rewrite diff_step_same. apply IH.
Qed.

Lemma diff_pixels_same pixels : Analysis.diff_pixels pixels pixels = (0, 0, 0).
Proof.
  unfold Analysis.diff_pixels. generalize (0, 0, 0).
  induction pixels as [|px pixels IH]; intros acc; [reflexivity|].
  cbn [zip_with fold_left]. rewrite diff_pixel_same. apply IH.
Qed.

Lemma diff_step_swap acc v v' :
  Analysis.diff_step acc (v, v') = Analysis.diff_step acc (v', v).
Proof.
  destruct acc as [[c t] m]. unfold Analysis.diff_step. cbn [fst snd].
  replace (Z.abs (v' - v)) with (Z.abs (v - v')) by lia. reflexivity.
Qed.

Lemma diff_pixel_swap a : forall b acc,
  Analysis.diff_pixel acc (a, b) = Analysis.diff_pixel acc (b, a).
Proof.
  unfold Analysis.diff_pixel. cbn [fst snd].
  induction a as [|v a IH]; intros [|v' b] acc; try reflexivity.
  cbn [zip_with fold_left]. rewrite diff_step_swap. apply IH.
Qed.

Lemma diff_pixels_swap a b : Analysis.diff_pixels a b = Analysis.diff_pixels b a.
Proof.
  unfold Analysis.diff_pixels. generalize (0, 0, 0). revert b.
  induction a as [|x a IH]; intros [|y b] acc; try reflexivity.
  cbn [zip_with fold_left]. rewrite diff_pixel_swap. apply IH.
Qed.

(** The RGB version of an image has its size and three bands. *)
Lemma convert_RGB image :
  im_width (convert image RGB) = im_width image /\
  im_height (convert image RGB) = im_height image /\
  getbands (convert image RGB) = ["R"; "G"; "B"]%string.
Proof. destruct image as [[] w h d]; repeat split. Qed.

(** The number of pairs of channel values that differ. *)
Definition differing (pairs : list (Z * Z)) : Z :=
  Z.of_nat (length (filter (fun p : Z * Z => p.1 <> p.2) pairs)).

Lemma differing_cons p pairs :
  differing (p :: pairs) = (if decide (p.1 <> p.2) then 1 else 0) + differing pairs.
Proof.
  unfold differing. rewrite filter_cons.
  destruct (decide (p.1 <> p.2)); cbn [length]; lia.
Qed.

Lemma differing_bounds pairs : 0 <= differing pairs <= Z.of_nat (length pairs).
Proof.
  unfold differing. split; [lia|].
  pose proof (length_filter (fun p : Z * Z => p.1 <> p.2) pairs). lia.
Qed.

Lemma differing_none a : forall b,
  length a = length b -> differing (zip a b) = 0 -> a = b.
Proof.
  induction a as [|x a IH]; intros [|y b] Hl H; try discriminate; [reflexivity|].
  cbn [zip_with] in H. rewrite differing_cons in H. cbn [fst snd] in H.
  pose proof (differing_bounds (zip a b)).
  destruct (decide (x <> y)) as [Hne | He]; [lia|].
  apply dec_stable in He. subst y. f_equal. apply IH; [|lia].
  cbn [length] in Hl. lia.
Qed.

(** The channel loop on pairs of values that are at most [M] apart. *)
Lemma diff_channels_spec M pairs : forall c t m,
  Forall (fun p : Z * Z => Z.abs (p.1 - p.2) <= M) pairs ->
  0 <= m <= M ->
  exists t' m',
    fold_left Analysis.diff_step pairs (c, t, m) = (c + differing pairs, t', m') /\
    t <= t' <= t + differing pairs * M /\ 0 <= m' <= M /\
    (differing pairs = 0 -> t' = t /\ m' = m).
Proof.
  induction pairs as [|[v v'] pairs IH]; intros c t m Hp Hm.
  - exists t, m. cbn [fold_left]. unfold differing. cbn.
    rewrite Z.add_0_r. repeat split; lia.
  - apply Forall_cons in Hp as [Hv Hp]. cbn [fst snd] in Hv.
    pose proof (differing_bounds pairs) as Hb.
    rewrite differing_cons. cbn [fold_left fst snd].
    unfold Analysis.diff_step at 2. cbn [fst snd].
    destruct (Z.eqb_spec (Z.abs (v - v')) 0) as [E | E].
    + destruct (decide (v <> v')) as [Hne | _]; [lia|].
      destruct (IH c t m Hp Hm) as (t' & m' & Heq & Ht & Hm' & H0).
      exists t', m'. rewrite Heq. rewrite Z.add_0_l. repeat split; tauto || lia.
    + destruct (decide (v <> v')) as [_ | He]; [|apply dec_stable in He; lia].
      destruct (IH (c + 1) (t + Z.abs (v - v')) (Z.max m (Z.abs (v - v'))) Hp)
        as (t' & m' & Heq & Ht & Hm' & _); [lia|].
      exists t', m'. rewrite Heq. split; [f_equal; f_equal; lia|].
      split; [nia|]. split; [lia|]. intros; lia.
Qed.

(** Two rows of pixels of at most three channels each, place by place of the
    same length and at most [M] apart. *)
Definition close (M : Z) (a b : list Z) : Prop :=
  length a = length b /\ (length a <= 3)%nat /\
  Forall (fun p : Z * Z => Z.abs (p.1 - p.2) <= M) (zip a b).

(** The pixel loop on such rows. *)
Lemma diff_pixels_spec M a : forall b c t m,
  Forall2 (close M) a b -> 0 <= M -> 0 <= m <= M -> 0 <= t ->
  exists c' t' m',
    fold_left Analysis.diff_pixel (zip a b) (c, t, m) = (c', t', m') /\
    c + count_changed a b <= c' <= c + 3 * count_changed a b /\
    0 <= t' /\ 0 <= m' <= M.
Proof.
  induction a as [|x a IH]; intros b c t m H HM Hm Ht.
  - apply Forall2_nil_inv_l in H as ->. exists c, t, m.
    rewrite count_changed_same. cbn. repeat split; lia.
  - apply Forall2_cons_inv_l in H as (y & b' & (Hl & H3 & Hxy) & Hab & ->).
    cbn [zip_with fold_left]. unfold Analysis.diff_pixel at 2. cbn [fst snd].
    destruct (diff_channels_spec M (zip x y) c t m Hxy Hm)
      as (t1 & m1 & Heq & Ht1 & Hm1 & H0).
    rewrite Heq.
    pose proof (differing_bounds (zip x y)) as Hd.
    rewrite length_zip_with in Hd.
    destruct (IH b' (c + differing (zip x y)) t1 m1 Hab HM Hm1)
      as (c' & t' & m' & Heq' & Hc' & Ht' & Hm'); [lia|].
    exists c', t', m'. split; [exact Heq'|].
    rewrite count_changed_cons. pose proof (count_changed_bounds a b').
    destruct (decide (x <> y)) as [Hne | He].
    + assert (differing (zip x y) <> 0).
      { intros E. apply Hne. apply differing_none; assumption. }
      repeat split; lia.
    + apply dec_stable in He. subst y.
      assert (differing (zip x x) = 0).
      { clear. unfold differing. induction x as [|v x IH]; [reflexivity|].
        cbn [zip_with]. rewrite filter_cons_False by (cbn; auto). exact IH. }
      repeat split; lia.
Qed.

(** Two values with the same bits above the low [n] ones are less than
    [2 ^ n] apart. *)
Lemma shiftr_eq_close v v' n :
  0 <= n -> Z.shiftr v' n = Z.shiftr v n -> Z.abs (v - v') <= 2 ^ n - 1.
Proof.
  intros Hn H. rewrite !Z.shiftr_div_pow2 in H by lia.
  assert (Hpos : 0 < 2 ^ n) by (apply Z.pow_pos_nonneg; lia).
  pose proof (Z.div_mod v (2 ^ n) ltac:(lia)) as E1.
  pose proof (Z.div_mod v' (2 ^ n) ltac:(lia)) as E2.
  pose proof (Z.mod_pos_bound v (2 ^ n) Hpos).
  pose proof (Z.mod_pos_bound v' (2 ^ n) Hpos).
  rewrite H in E2. lia.
Qed.

(** The first three channels of a pixel and of what the embedding makes of
    it. *)
Lemma kept_close bpc px px' :
  0 <= bpc -> pixel_kept bpc [0; 1; 2] px px' ->
  close (2 ^ bpc - 1) (take 3 px) (take 3 px') /\
  (take 3 px = take 3 px' -> px = px').
Proof.
  intros Hb (Hl & Hout & Hhigh). split.
  - split; [rewrite !length_take; lia|].
    split; [rewrite length_take; lia|].
    apply Forall_lookup_2. intros i [v v'] Hi.
    apply lookup_zip_with_Some in Hi as (a & b & E & Ha & Hb').
    injection E as <- <-. cbn [fst snd].
    apply lookup_take_Some in Ha as [Ha _].
    apply lookup_take_Some in Hb' as [Hb' _].
    apply shiftr_eq_close; [exact Hb|]. eapply Hhigh; eauto.
  - intros E. apply list_eq. intros j.
    destruct (decide (j < 3)%nat) as [Hj | Hj].
    + rewrite <- (lookup_take_lt px 3 j), <- (lookup_take_lt px' 3 j) by exact Hj.
      rewrite E. reflexivity.
    + symmetry. apply Hout. rewrite !elem_of_cons, elem_of_nil. lia.
Qed.

Lemma kept_rows bpc a b :
  0 <= bpc -> Forall2 (pixel_kept bpc [0; 1; 2]) a b ->
  Forall2 (close (2 ^ bpc - 1)) (take 3 <$> a) (take 3 <$> b) /\
  count_changed (take 3 <$> a) (take 3 <$> b) = count_changed a b.
Proof.
  intros Hb H. induction H as [|x y a b Hxy Hab [IH1 IH2]].
  - split; [constructor | reflexivity].
  - destruct (kept_close bpc x y Hb Hxy) as [Hc Heq]. cbn [fmap list_fmap].
    split; [constructor; assumption|].
    change (list_fmap _ _ (take 3) a) with (take 3 <$> a).
    change (list_fmap _ _ (take 3) b) with (take 3 <$> b).
    rewrite !count_changed_cons, IH2.
    destruct (decide (take 3 x <> take 3 y)) as [H1 | H1];
      destruct (decide (x <> y)) as [H2 | H2]; try reflexivity.
    + apply dec_stable in H2. subst y. contradiction.
    + apply dec_stable in H1. apply Heq in H1. contradiction.
Qed.

Lemma fmap_take_id (l : list (list Z)) :
  Forall (fun p => length p = 3%nat) l -> take 3 <$> l = l.
Proof.
  intros H. induction H as [|p l Hp _ IH]; [reflexivity|].
  cbn [fmap list_fmap]. change (list_fmap _ _ (take 3) l) with (take 3 <$> l).
  rewrite IH, take_ge by lia. reflexivity.
Qed.

(** The counters of the comparison of an image with what the embedding makes
    of it. *)
Lemma diff_after_embedding bpc image pixels' :
  well_formed image -> 0 <= bpc ->
  Forall2 (pixel_kept bpc [0; 1; 2]) (im_data image) pixels' ->
  exists c t m,
    Analysis.diff_pixels
      (im_data (convert image RGB))
      (im_data (convert (mkImage (im_mode image) (im_width image)
                                 (im_height image) pixels') RGB))
    = (c, t, m) /\
    count_changed (im_data image) pixels' <= c
      <= 3 * count_changed (im_data image) pixels' /\
    0 <= m <= 2 ^ bpc - 1.
Proof.
  intros Hwf Hb Hkept.
  assert (HM : 0 <= 2 ^ bpc - 1).
  { assert (0 < 2 ^ bpc) by (apply Z.pow_pos_nonneg; lia). lia. }
  destruct (kept_rows bpc _ _ Hb Hkept) as [Hclose Hcount].
  destruct (diff_pixels_spec (2 ^ bpc - 1) _ _ 0 0 0 Hclose HM)
    as (c & t & m & Heq & Hc & _ & Hm); [lia | lia |].
  rewrite Hcount in Hc.
  exists c, t, m. split; [|split; [lia | exact Hm]].
  destruct Hwf as (_ & _ & _ & Hpx).
  destruct image as [[] w h data]; cbn [convert im_mode im_data im_width im_height] in *.
  - unfold getbands in Hpx. cbn in Hpx.
    assert (Hpx' : Forall (fun p : list Z => length p = 3%nat) pixels').
    { apply Forall_lookup_2. intros i px' Hi.
      destruct (Forall2_lookup_r _ _ _ _ _ Hkept Hi) as (px & Hpxi & (Hl & _)).
      rewrite Hl. exact (Forall_lookup_1 _ _ _ _ Hpx Hpxi). }
    rewrite (fmap_take_id data Hpx), (fmap_take_id pixels' Hpx') in Heq.
    exact Heq.
  - exact Heq.
Qed.

Section Compare.

Variable float : Type.
Variable truediv : Z -> Z -> float.
Variable fzero : float.
Variable codec : Codec.

(** X23. When [analyze_images] fails and when it does not: a path that names
    no file gives [FileNotFoundError]; two images of different width or
    height give the error of the size check; in every other case, whatever
    the modes and the pixels of the two images are, a report is returned. *)
Theorem analyze_images_errors (fs : gmap string File) (original modified : string) :
  (fs !! original = None \/ fs !! modified = None ->
   Analysis.analyze_images float truediv fzero original modified fs
   = Analysis.Raises FileNotFoundError) /\
  (forall f g,
     fs !! original = Some f -> fs !! modified = Some g ->
     (im_width (content f) <> im_width (content g) \/
      im_height (content f) <> im_height (content g) ->
      Analysis.analyze_images float truediv fzero original modified fs
      = Analysis.ValueError_size_mismatch) /\
     (im_width (content f) = im_width (content g) ->
      im_height (content f) = im_height (content g) ->
      exists report,
        Analysis.analyze_images float truediv fzero original modified fs
        = Analysis.Returns report /\
        Analysis.total_channels report
        = im_width (content f) * im_height (content f) * 3)).
Proof.
  unfold Analysis.analyze_images. split.
  - intros [-> | H]; [reflexivity|]. rewrite H.
    destruct (fs !! original); reflexivity.
  - intros f g -> ->. split.
    + intros H.
      destruct (decide ((im_width (content f), im_height (content f))
                        <> (im_width (content g), im_height (content g))))
        as [_ | E]; [reflexivity|].
      apply dec_stable in E. injection E as E1 E2. tauto.
    + intros E1 E2. rewrite E1, E2.
      destruct (decide ((im_width (content g), im_height (content g))
                        <> (im_width (content g), im_height (content g))))
        as [E | _]; [contradiction E; reflexivity|].
      destruct (Analysis.diff_pixels _ _) as [[c t] m].
      eexists. split; [reflexivity|]. cbn [Analysis.total_channels].
      destruct (convert_RGB (content f)) as (-> & -> & ->).
      rewrite E1, E2. reflexivity.
Qed.

(** X24. Two files that hold the same image, and so a file compared with
    itself, differ in nothing: no channel has changed, the largest and the
    average difference are zero, and [total_channels] is three times the
    number of pixels. *)
Theorem analyze_images_same_content (fs : gmap string File)
    (original modified : string) (f g : File) :
  fs !! original = Some f -> fs !! modified = Some g ->
  content f = content g ->
  Analysis.analyze_images float truediv fzero original modified fs
  = Analysis.Returns
      {| Analysis.total_channels := im_width (content f) * im_height (content f) * 3;
         Analysis.changed_channels := 0;
         Analysis.avg_abs_diff := fzero;
         Analysis.max_abs_diff := 0;
         Analysis.file_size_before := st_size f;
         Analysis.file_size_after := st_size g |}.
Proof.
  intros Hf Hg E. unfold Analysis.analyze_images. rewrite Hf, Hg, <- E.
  destruct (decide ((im_width (content f), im_height (content f))
                    <> (im_width (content f), im_height (content f))))
    as [H | _]; [contradiction H; reflexivity|].
  rewrite diff_pixels_same. cbv beta iota.
  destruct (convert_RGB (content f)) as (-> & -> & ->). reflexivity.
Qed.

(** X25. The comparison does not depend on the order of the two files, but
    for the file sizes: with the paths swapped, [analyze_images] returns the
    same counters and the same differences, the two file sizes change places
    and [file_size_diff] changes its sign. *)
Theorem analyze_images_symmetric (fs : gmap string File)
    (original modified : string) (report : Analysis.DiffReport float) :
  Analysis.analyze_images float truediv fzero original modified fs
  = Analysis.Returns report ->
  exists swapped,
    Analysis.analyze_images float truediv fzero modified original fs
    = Analysis.Returns swapped /\
    Analysis.total_channels swapped = Analysis.total_channels report /\
    Analysis.changed_channels swapped = Analysis.changed_channels report /\
    Analysis.avg_abs_diff swapped = Analysis.avg_abs_diff report /\
    Analysis.max_abs_diff swapped = Analysis.max_abs_diff report /\
    Analysis.file_size_before swapped = Analysis.file_size_after report /\
    Analysis.file_size_after swapped = Analysis.file_size_before report /\
    Analysis.file_size_diff swapped = - Analysis.file_size_diff report.
Proof.
  unfold Analysis.analyze_images. intros H.
  destruct (fs !! original) as [f|]; [|discriminate H].
  destruct (fs !! modified) as [g|]; [|discriminate H].
  destruct (decide ((im_width (content f), im_height (content f))
                    <> (im_width (content g), im_height (content g))))
    as [_ | E]; [discriminate H|].
  apply dec_stable in E. injection E as E1 E2.
  destruct (decide ((im_width (content g), im_height (content g))
                    <> (im_width (content f), im_height (content f))))
    as [E | _]; [contradiction E; congruence|].
  rewrite (diff_pixels_swap (im_data (convert (content g) RGB))).
  destruct (Analysis.diff_pixels _ _) as [[c t] m].
  injection H as <-. eexists. split; [reflexivity|].
  unfold Analysis.file_size_diff.
  cbn [Analysis.total_channels Analysis.changed_channels Analysis.avg_abs_diff
       Analysis.max_abs_diff Analysis.file_size_before Analysis.file_size_after].
  destruct (convert_RGB (content f)) as (-> & -> & ->).
  destruct (convert_RGB (content g)) as (-> & -> & ->).
  rewrite E1, E2. repeat split; lia.
Qed.

(** X26. What the comparison finds after an embedding: when [hide_message]
    has written its output in a format that keeps the image, and the file at
    the input path is still the one that was read (the output path is not
    another name of it), [analyze_images] on the two paths returns a report
    in which no channel differs by more than [2 ^ bits_per_channel - 1], the
    number of changed channels lies between [pixels_touched] of the
    embedding and three times that number and is at most [total_channels],
    which is three times the number of pixels also for an image with an
    alpha channel, and the two file sizes are those of the embedding
    report. *)
Theorem analysis_after_hide (fs : gmap string File) (input output : string)
    (message : list Z) (password : option (list Z)) (bpc : Z)
    (file : File) (payload : list Z) :
  fs !! input = Some file ->
  well_formed (content file) ->
  bpc = 1 \/ bpc = 2 ->
  build_payload message password = Ok payload ->
  Z.of_nat (length payload) * 8
    <= capacity_bits (snd (_prepare_image (content file))) bpc ->
  lossless codec output ->
  exists report fs',
    run (hide_message codec input output message password bpc) fs
    = (Ok report, fs') /\
    (fs' !! input = Some file ->
     exists diff,
       Analysis.analyze_images float truediv fzero input output fs'
       = Analysis.Returns diff /\
       0 <= Analysis.max_abs_diff diff <= 2 ^ bpc - 1 /\
       pixels_touched report <= Analysis.changed_channels diff
         <= 3 * pixels_touched report /\
       Analysis.changed_channels diff <= Analysis.total_channels diff /\
       Analysis.total_channels diff
       = im_width (content file) * im_height (content file) * 3 /\
       Analysis.file_size_before diff = file_size_before report /\
       Analysis.file_size_after diff = file_size_after report).
Proof.
  intros Hfs Hwf Hbpc Hpay Hcap Hcodec.
  destruct (hide_message_report codec fs input output message password bpc
              file payload Hfs Hwf Hbpc Hpay Hcap Hcodec)
    as (pixels' & touched & size & Hwalk & Hkept & Hrun).
  cbv zeta in Hrun.
  pose proof Hwalk as Htouched.
  apply embed_pixels_touched in Htouched;
    [| apply NoDup_channels | apply well_formed_channels; exact Hwf].
  rewrite Z.add_0_l in Htouched.
  destruct (diff_after_embedding bpc (content file) pixels' Hwf ltac:(lia) Hkept)
    as (c & t & m & Hdiff & Hc & Hm).
  pose proof (count_changed_bounds (im_data (content file)) pixels') as Hcount.
  eexists _, _. split; [exact Hrun|]. intros Hin.
  assert (Hbefore : (if decide (input = output) then size else st_size file)
                    = st_size file).
  { destruct (decide (input = output)) as [E | _]; [|reflexivity].
    rewrite E, lookup_insert_eq in Hin. injection Hin as <-. reflexivity. }
  unfold Analysis.analyze_images.
  rewrite Hin, lookup_insert_eq.
  cbn [content st_size im_width im_height].
  destruct (decide ((im_width (content file), im_height (content file))
                    <> (im_width (content file), im_height (content file))))
    as [E | _]; [contradiction E; reflexivity|].
  rewrite Hdiff. cbv beta iota. eexists. split; [reflexivity|].
  cbn [Analysis.total_channels Analysis.changed_channels Analysis.max_abs_diff
       Analysis.file_size_before Analysis.file_size_after
       pixels_touched file_size_before file_size_after].
  rewrite Hbefore.
  destruct (convert_RGB (content file)) as (-> & -> & ->).
  destruct Hwf as (_ & _ & Hlen & _).
  change (Z.of_nat (length ["R"; "G"; "B"]%string)) with 3.
  repeat split; try lia; reflexivity.
Qed.

End Compare.

(** *** Examples

    A quotient is kept as the pair of its two integers. *)

Definition two_images : gmap string File :=
  {[ "a.png" := mkFile (mkImage RGB 2 1 [[10; 20; 30]; [40; 50; 60]]) 100;
     "b.png" := mkFile (mkImage RGBA 2 1 [[10; 21; 30; 255]; [43; 50; 60; 0]]) 130 ]}.

Lemma analyze_images_errors_witness :
  Analysis.analyze_images (Z * Z) pair (0, 1) "a.png" "none.png" two_images
  = Analysis.Raises FileNotFoundError.
Proof.
  apply (analyze_images_errors (Z * Z) pair (0, 1) two_images "a.png" "none.png").
  right. vm_compute. reflexivity.
Defined.

Lemma analyze_images_same_content_witness :
  Analysis.analyze_images (Z * Z) pair (0, 1) "in.png" "in.png" Demo.files
  = Analysis.Returns
      {| Analysis.total_channels := 96;
         Analysis.changed_channels := 0;
         Analysis.avg_abs_diff := (0, 1);
         Analysis.max_abs_diff := 0;
         Analysis.file_size_before := 9000;
         Analysis.file_size_after := 9000 |}.
Proof.
  apply (analyze_images_same_content (Z * Z) pair (0, 1) Demo.files "in.png" "in.png"
           (mkFile Demo.image 9000) (mkFile Demo.image 9000)).
  - vm_compute. reflexivity.
  - vm_compute. reflexivity.
  - reflexivity.
Defined.

(** An RGB image and an RGBA image that differ in two channels, by 1 and by
    3. *)
Lemma analyze_images_symmetric_witness :
  exists swapped,
    Analysis.analyze_images (Z * Z) pair (0, 1) "b.png" "a.png" two_images
    = Analysis.Returns swapped /\
    Analysis.changed_channels swapped = 2 /\
    Analysis.max_abs_diff swapped = 3 /\
    Analysis.file_size_diff swapped = -30.
Proof.
  destruct (analyze_images_symmetric (Z * Z) pair (0, 1) two_images "a.png" "b.png"
              {| Analysis.total_channels := 6;
                 Analysis.changed_channels := 2;
                 Analysis.avg_abs_diff := (4, 2);
                 Analysis.max_abs_diff := 3;
                 Analysis.file_size_before := 100;
                 Analysis.file_size_after := 130 |})
    as (swapped & Hrun & _ & Hc & _ & Hm & _ & _ & Hd).
  - vm_compute. reflexivity.
  - exists swapped. split; [exact Hrun|]. split; [exact Hc|].
    split; [exact Hm | exact Hd].
Defined.

Lemma analysis_after_hide_witness :
  exists report fs' diff,
    run (hide_message Demo.codec "in.png" "out.png" [65] (Some [112; 119]) 1)
        Demo.files = (Ok report, fs') /\
    Analysis.analyze_images (Z * Z) pair (0, 1) "in.png" "out.png" fs'
    = Analysis.Returns diff /\
    Analysis.max_abs_diff diff <= 1 /\
    Analysis.changed_channels diff <= 96.
Proof.
  destruct (analysis_after_hide (Z * Z) pair (0, 1) Demo.codec Demo.files
              "in.png" "out.png" [65] (Some [112; 119]) 1 (mkFile Demo.image 9000)
              [76; 83; 66; 77; 83; 71; 49; 0; 0; 0; 1; 116])
    as (report & fs' & Hrun & Hafter).
  - vm_compute. reflexivity.
  - apply Claims.demo_well_formed.
  - left. reflexivity.
  - vm_compute. reflexivity.
  - vm_compute. discriminate.
  - apply Claims.demo_lossless.
  - destruct Hafter as (diff & Hdiff & Hm & _ & Hc & Ht & _).
    + destruct (hide_message_Ok Demo.codec Demo.files "in.png" "out.png" [65]
                  (Some [112; 119]) 1 (mkFile Demo.image 9000)
                  [76; 83; 66; 77; 83; 71; 49; 0; 0; 0; 1; 116])
        as (pixels' & report' & size & Hrun' & _);
        [ vm_compute; reflexivity | apply Claims.demo_well_formed
        | left; reflexivity | vm_compute; reflexivity
        | vm_compute; discriminate | apply Claims.demo_lossless |].
      cbv zeta in Hrun'. rewrite Hrun in Hrun'. injection Hrun' as _ ->.
      rewrite lookup_insert_ne by discriminate. vm_compute. reflexivity.
    + exists report, fs', diff. split; [exact Hrun|]. split; [exact Hdiff|].
      split; [exact (proj2 Hm)|]. rewrite Ht in Hc. exact Hc.
Defined.

End AnalysisProps.
